(** * Marker / guide list model and moveable-item identity

    A shallow embedding of [MarkerListModel] (bin/model/markerlistmodel.cpp)
    and of the constructor of [MoveableItem] (timeline2/model/moveableItem.ipp).

    Conventions used throughout:
    - a C++ [int] is a [Z]: no arithmetic of the code can wrap but the
      id counter and the shift of [moveMarkersWithoutUndo];
    - a [GenTime] is represented by its frame count at the project frame
      rate, so [pos.frames(pCore->getCurrentFps())] is the identity;
    - [std::map<int, CommentedTime>] is an association list kept in
      ascending key order (its iteration order is observable in [toJson]);
    - [QMap<int, int>] is a [gmap Z Z];
    - a function that may stop on a failed [Q_ASSERT] or on the
      [std::out_of_range] thrown by [std::map::at] returns an [option]:
      [None] is that abnormal stop;
    - Qt model signals ([beginInsertRows], [dataChanged], ...) and the
      read/write lock are not part of the state. *)

From Stdlib Require Import ZArith List Bool Lia Sorted.
From stdpp Require Import base option list gmap strings fin_maps.

Local Open Scope Z_scope.

(** ** Abnormal stop

    The error monad is stdpp's [option] monad: [x ← c; k] runs [c] and
    stops with [None] when [c] does. *)

(** [Q_ASSERT(b)] *)
Definition Q_ASSERT (b : bool) : option unit :=
  if b then Some tt else None.

(** ** [std::map<int, V>] as a key-ordered association list *)

Module StdMap.
Section Ops.
Context {V : Type}.

Definition t := list (Z * V).

(** [m.find(k)] / [m.count(k) > 0] *)
Fixpoint find (k : Z) (m : list (Z * V)) : option V :=
  match m with
  | [] => None
  | (k', v) :: r => if k =? k' then Some v else find k r
  end.

Definition count (k : Z) (m : list (Z * V)) : nat :=
  match find k m with Some _ => 1%nat | None => 0%nat end.

(** [m.at(k)]: throws when the key is absent *)
Definition at_ (k : Z) (m : list (Z * V)) : option V := find k m.

(** [m[k] = v]: insert or assign, keeping the key order *)
Fixpoint insert (k : Z) (v : V) (m : list (Z * V)) : list (Z * V) :=
  match m with
  | [] => [(k, v)]
  | (k', v') :: r =>
      if k <? k' then (k, v) :: m
      else if k =? k' then (k, v) :: r
      else (k', v') :: insert k v r
  end.

(** [m.erase(k)] *)
Fixpoint erase (k : Z) (m : list (Z * V)) : list (Z * V) :=
  match m with
  | [] => []
  | (k', v') :: r => if k =? k' then r else (k', v') :: erase k r
  end.

(** [std::distance(m.begin(), m.find(k))] *)
Fixpoint index_of (k : Z) (m : list (Z * V)) : nat :=
  match m with
  | [] => 0%nat
  | (k', _) :: r => if k =? k' then 0%nat else S (index_of k r)
  end.

(** strictly ascending keys: the representation invariant *)
Fixpoint sorted (m : list (Z * V)) : bool :=
  match m with
  | [] => true
  | (k, _) :: r =>
      match r with
      | [] => true
      | (k', _) :: _ => (k <? k') && sorted r
      end
  end.

Definition keys (m : list (Z * V)) : list Z := map fst m.
End Ops.
End StdMap.

(** ** Data model *)

(** Modelled from the spec: the class [CommentedTime] and the time class
    [GenTime] are declared outside the sources. Per the spec a marker or
    guide is a time (an integer frame count), a comment text and a type
    (an index into the palette). *)
Record CommentedTime := mkCommentedTime {
  time : Z;
  comment : string;
  markerType : Z
}.

(** The default-constructed [CommentedTime()], returned where no marker
    is found: taken as frame 0, empty comment, type 0. *)
Definition CommentedTime_default : CommentedTime := mkCommentedTime 0 "" 0.

Definition setTime (t : Z) (m : CommentedTime) : CommentedTime :=
  mkCommentedTime t (comment m) (markerType m).
Definition setComment (c : string) (m : CommentedTime) : CommentedTime :=
  mkCommentedTime (time m) c (markerType m).
Definition setMarkerType (ty : Z) (m : CommentedTime) : CommentedTime :=
  mkCommentedTime (time m) (comment m) ty.

(** [markerTypes.size()]: the palette [std::array<QColor, 9>]. *)
Definition markerTypes_size : Z := 9.

(** Modelled from the spec: [SnapInterface] is declared outside the
    sources. Per the spec a snap consumer exposes [addPoint(frame)] and
    [removePoint(frame)]; a consumer is represented by the calls it has
    received. *)
Inductive SnapCall :=
| AddPoint (frame : Z)
| RemovePoint (frame : Z).

(** The members of [MarkerListModel]. [m_registeredSnaps] holds weak
    references: handles into the store of snap consumers of [World]. *)
Record MarkerListModel := mkModel {
  m_guide : bool;
  m_markerList : list (Z * CommentedTime);
  m_markerPositions : gmap Z Z;
  m_registeredSnaps : list nat
}.

(** What the closures act on: the model, the static id counter of
    [TimelineModel], the live snap consumers (a handle that is absent has
    expired) with the calls each has received, and the configured
    [KdenliveSettings::default_marker_type()]. *)
Record World := mkWorld {
  model : MarkerListModel;
  next_id : Z;
  snapHeap : gmap nat (list SnapCall);
  default_marker_type : Z
}.

(** [Fun = std::function<bool()>] *)
Definition Fun : Type := World -> option (bool * World).

(** [[]() { return true; }] *)
Definition Fun_true : Fun := fun w => Some (true, w).

(** An entry of the undo stack. *)
Record UndoCommand := mkUndoCommand {
  cmd_text : string;
  cmd_undo : Fun;
  cmd_redo : Fun
}.

(** The document: the world plus the command stack ([undoable] newest first,
    [redoable] the undone tail). *)
Record Doc := mkDoc {
  world : World;
  undoable : list UndoCommand;
  redoable : list UndoCommand
}.

(** [i18n]: identity in the untranslated locale. *)
Definition i18n (s : string) : string := s.

(** ** The id counter *)

(** Modelled from the spec: [TimelineModel::getNextId] is not among the
    sources. The spec describes it as the single process-wide monotonic
    counter from which every new entity draws its id: the call returns the
    current value and advances the counter by one. *)
Definition getNextId (w : World) : Z * World :=
  (next_id w,
   mkWorld (model w) (next_id w + 1) (snapHeap w) (default_marker_type w)).

(** ** Queries of [MarkerListModel] *)

Definition with_model (w : World) (m : MarkerListModel) : World :=
  mkWorld m (next_id w) (snapHeap w) (default_marker_type w).

Definition hasMarker (frame : Z) (m : MarkerListModel) : bool :=
  match m_markerPositions m !! frame with
  | Some _ => true
  | None => false
  end.

Definition markerIdAtFrame (pos : Z) (m : MarkerListModel) : Z :=
  match m_markerPositions m !! pos with
  | Some mid => mid
  | None => -1
  end.

Definition getIdFromPos (frame : Z) (m : MarkerListModel) : Z :=
  match m_markerPositions m !! frame with
  | Some mid => mid
  | None => -1
  end.

Definition marker (frame : Z) (m : MarkerListModel) : option CommentedTime :=
  let mid := markerIdAtFrame frame m in
  if mid >? -1 then StdMap.at_ mid (m_markerList m)
  else Some CommentedTime_default.

(** [getMarker(frame, &ok)]: the marker and the flag written to [ok]. *)
Definition getMarker (frame : Z) (m : MarkerListModel)
  : option (CommentedTime * bool) :=
  if negb (hasMarker frame m) then Some (CommentedTime_default, false)
  else cur ← marker frame m; Some (cur, true).

Definition getRowfromId (mid : Z) (m : MarkerListModel) : option nat :=
  _ ← Q_ASSERT (0 <? StdMap.count mid (m_markerList m))%nat;
  Some (StdMap.index_of mid (m_markerList m)).

(** ** Snap consumers *)

(** The loop shared by [addSnapPoint] and [removeSnapPoint]: every
    registered consumer that is still alive is kept and receives the call;
    expired ones are dropped from the registration list. *)
Fixpoint notifySnaps (call : SnapCall) (regs : list nat)
    (validSnapModels : list nat) (heap : gmap nat (list SnapCall))
  : list nat * gmap nat (list SnapCall) :=
  match regs with
  | [] => (validSnapModels, heap)
  | snapModel :: rest =>
      match heap !! snapModel with
      | Some log =>
          notifySnaps call rest (validSnapModels ++ [snapModel])
            (<[snapModel := log ++ [call]]> heap)
      | None => notifySnaps call rest validSnapModels heap
      end
  end.

Definition snapNotify (call : SnapCall) (w : World) : World :=
  let m := model w in
  let '(valid, heap) := notifySnaps call (m_registeredSnaps m) [] (snapHeap w) in
  mkWorld (mkModel (m_guide m) (m_markerList m) (m_markerPositions m) valid)
          (next_id w) heap (default_marker_type w).

Definition addSnapPoint (pos : Z) (w : World) : World :=
  snapNotify (AddPoint pos) w.

Definition removeSnapPoint (pos : Z) (w : World) : World :=
  snapNotify (RemovePoint pos) w.

(** ** The three primitive closures *)

Definition set_lists (m : MarkerListModel)
    (l : list (Z * CommentedTime)) (p : gmap Z Z) : MarkerListModel :=
  mkModel (m_guide m) l p (m_registeredSnaps m).

(** [m_markerList[mid]]: a reference to the stored marker, default
    constructed first when the key is absent. *)
Definition subscript (mid : Z) (l : list (Z * CommentedTime)) : CommentedTime :=
  match StdMap.find mid l with
  | Some c => c
  | None => CommentedTime_default
  end.

Definition changeComment_lambda (pos : Z) (comment : string) (type : Z) : Fun :=
  fun w =>
    let m := model w in
    _ ← Q_ASSERT (hasMarker pos m);
    let mid := getIdFromPos pos m in
    row ← getRowfromId mid m;
    let l1 := StdMap.insert mid (setComment comment (subscript mid (m_markerList m)))
                (m_markerList m) in
    let l2 := StdMap.insert mid (setMarkerType type (subscript mid l1)) l1 in
    Some (true, with_model w (set_lists m l2 (m_markerPositions m))).

Definition addMarker_lambda (pos : Z) (comment : string) (type : Z) : Fun :=
  fun w =>
    _ ← Q_ASSERT (negb (hasMarker pos (model w)));
    let '(mid, w1) := getNextId w in
    let m := model w1 in
    let l := StdMap.insert mid (mkCommentedTime pos comment type) (m_markerList m) in
    let p := <[pos := mid]> (m_markerPositions m) in
    Some (true, addSnapPoint pos (with_model w1 (set_lists m l p))).

Definition deleteMarker_lambda (pos : Z) : Fun :=
  fun w =>
    let m := model w in
    _ ← Q_ASSERT (hasMarker pos m);
    let mid := getIdFromPos pos m in
    row ← getRowfromId mid m;
    let l := StdMap.erase mid (m_markerList m) in
    let p := delete pos (m_markerPositions m) in
    Some (true, removeSnapPoint pos (with_model w (set_lists m l p))).

(** ** Undo bookkeeping *)

(** Modelled from the spec: the macro [UPDATE_UNDO_REDO] of macros.hpp is
    not among the sources. Per the spec a transaction is composed from its
    primitive operations, undone in reverse order: the new inverse runs
    [reverse] and then the inverse accumulated so far, the new forward
    action runs the forward action accumulated so far and then
    [operation]; each reports the conjunction of the two results. *)
Definition UPDATE_UNDO_REDO (operation reverse undo redo : Fun) : Fun * Fun :=
  (fun w => '(v, w1) ← reverse w; '(u, w2) ← undo w1; Some (u && v, w2),
   fun w => '(v, w1) ← redo w; '(o, w2) ← operation w1; Some (o && v, w2)).

(** Modelled from the spec: the macro [PUSH_UNDO] of macros.hpp is not
    among the sources. Per the spec, pushing a transaction appends a named
    unit and clears the redoable tail. *)
Definition PUSH_UNDO (undo redo : Fun) (text : string) (d : Doc) : Doc :=
  mkDoc (world d) (mkUndoCommand text undo redo :: undoable d) [].

(** ** Mutations threading the caller's undo/redo pair

    A C++ function taking [Fun &undo, Fun &redo] returns here its result
    together with the updated pair and the new world. *)

Definition in_palette (type : Z) : bool :=
  (0 <=? type) && (type <? markerTypes_size).

Definition addMarker_u (pos : Z) (cmt : string) (type : Z) (undo redo : Fun)
    (w : World) : option (bool * Fun * Fun * World) :=
  let type := if type =? -1 then default_marker_type w else type in
  _ ← Q_ASSERT (in_palette type);
  locals ←
    (if hasMarker pos (model w) then
       (* In this case we simply change the comment and type *)
       current ← marker pos (model w);
       Some (changeComment_lambda pos (comment current) (markerType current),
             changeComment_lambda pos cmt type)
     else
       (* In this case we create one *)
       Some (deleteMarker_lambda pos, addMarker_lambda pos cmt type));
  let local_undo : Fun := fst locals in
  let local_redo : Fun := snd locals in
  '(r, w1) ← local_redo w;
  if (r : bool) then
    let '(undo1, redo1) := UPDATE_UNDO_REDO local_redo local_undo undo redo in
    Some (true, undo1, redo1, w1)
  else Some (false, undo, redo, w1).

Definition removeMarker_u (pos : Z) (undo redo : Fun) (w : World)
  : option (bool * Fun * Fun * World) :=
  if negb (hasMarker pos (model w)) then Some (false, undo, redo, w)
  else
    current ← marker pos (model w);
    let local_undo := addMarker_lambda pos (comment current) (markerType current) in
    let local_redo := deleteMarker_lambda pos in
    '(r, w1) ← local_redo w;
    if (r : bool) then
      let '(undo1, redo1) := UPDATE_UNDO_REDO local_redo local_undo undo redo in
      Some (true, undo1, redo1, w1)
    else Some (false, undo, redo, w1).

(** The loop of [moveMarkers]; [res] is the result of the last iteration. *)
Fixpoint moveMarkers_loop (markers : list CommentedTime) (fromPos toPos : Z)
    (res : bool) (undo redo : Fun) (w : World)
  : option (bool * Fun * Fun * World) :=
  match markers with
  | [] => Some (res, undo, redo, w)
  | mk :: rest =>
      let oldPos := time mk in
      let oldComment := comment mk in
      let oldType := markerType mk in
      let newPos := oldPos + (toPos - fromPos) in
      '(res1, undo1, redo1, w1) ← removeMarker_u oldPos undo redo w;
      if (res1 : bool) then
        '(res2, undo2, redo2, w2) ← addMarker_u newPos oldComment oldType undo1 redo1 w1;
        moveMarkers_loop rest fromPos toPos res2 undo2 redo2 w2
      else Some (res1, undo1, redo1, w1)
  end.

Definition moveMarkers (markers : list CommentedTime) (fromPos toPos : Z)
    (undo redo : Fun) (w : World) : option (bool * Fun * Fun * World) :=
  if (Z.of_nat (length markers) <=? 0) then Some (false, undo, redo, w)
  else moveMarkers_loop markers fromPos toPos false undo redo w.

(** ** Mutations without undo *)

Definition moveMarker (mid : Z) (pos : Z) (w : World) : option (bool * World) :=
  let m := model w in
  _ ← Q_ASSERT (0 <? StdMap.count mid (m_markerList m))%nat;
  if hasMarker pos m then
    (* A marker / guide already exists at new position, abort *)
    Some (false, w)
  else
    row ← getRowfromId mid m;
    cur ← StdMap.at_ mid (m_markerList m);
    let oldPos := time cur in
    let l := StdMap.insert mid (setTime pos (subscript mid (m_markerList m)))
               (m_markerList m) in
    let p := <[pos := mid]> (delete oldPos (m_markerPositions m)) in
    Some (true, with_model w (set_lists m l p)).

Fixpoint moveMarkersWithoutUndo_loop (markersId : list Z) (offset : Z)
    (updateView : bool) (m : MarkerListModel) : option MarkerListModel :=
  match markersId with
  | [] => Some m
  | mid :: rest =>
      _ ← Q_ASSERT (0 <? StdMap.count mid (m_markerList m))%nat;
      cur ← StdMap.at_ mid (m_markerList m);
      let t := time cur in
      let p1 := delete t (m_markerPositions m) in
      let t := t + offset in
      let p2 := <[t := mid]> p1 in
      let l := StdMap.insert mid (setTime t (subscript mid (m_markerList m)))
                 (m_markerList m) in
      let m1 := set_lists m l p2 in
      _ ← (if updateView then row ← getRowfromId mid m1; Some tt else Some tt);
      moveMarkersWithoutUndo_loop rest offset updateView m1
  end.

Definition moveMarkersWithoutUndo (markersId : list Z) (offset : Z)
    (updateView : bool) (w : World) : option World :=
  if (Z.of_nat (length markersId) <=? 0) then Some w
  else
    m ← moveMarkersWithoutUndo_loop markersId offset updateView (model w);
    Some (with_model w m).

(** ** Public mutations, pushing on the undo stack *)

Definition with_world (d : Doc) (w : World) : Doc :=
  mkDoc w (undoable d) (redoable d).

Definition label (d : Doc) (guide_text marker_text : string) : string :=
  if m_guide (model (world d)) then i18n guide_text else i18n marker_text.

Definition addMarker (pos : Z) (cmt : string) (type : Z) (d : Doc)
  : option (bool * Doc) :=
  let rename := hasMarker pos (model (world d)) in
  '(res, undo, redo, w) ← addMarker_u pos cmt type Fun_true Fun_true (world d);
  let d1 := with_world d w in
  if (res : bool) then
    if rename then
      Some (res, PUSH_UNDO undo redo (label d1 "Rename guide" "Rename marker") d1)
    else
      Some (res, PUSH_UNDO undo redo (label d1 "Add guide" "Add marker") d1)
  else Some (res, d1).

(** The loop of [addMarkers] over the entries of the [QMap], in key
    order; it stops as soon as an add reports failure. *)
Fixpoint addMarkers_loop (entries : list (Z * string)) (type : Z)
    (rename res : bool) (undo redo : Fun) (w : World)
  : option (bool * bool * Fun * Fun * World) :=
  match entries with
  | [] => Some (rename, res, undo, redo, w)
  | (key, value) :: rest =>
      if res then
        let rename := if hasMarker key (model w) then true else rename in
        '(res1, undo1, redo1, w1) ← addMarker_u key value type undo redo w;
        addMarkers_loop rest type rename res1 undo1 redo1 w1
      else Some (rename, res, undo, redo, w)
  end.

Definition addMarkers (entries : list (Z * string)) (type : Z) (d : Doc)
  : option (bool * Doc) :=
  '(rename, res, undo, redo, w) ←
    addMarkers_loop entries type false true Fun_true Fun_true (world d);
  let d1 := with_world d w in
  if (res : bool) then
    if (rename : bool) then
      Some (res, PUSH_UNDO undo redo (label d1 "Rename guide" "Rename marker") d1)
    else
      Some (res, PUSH_UNDO undo redo (label d1 "Add guide" "Add marker") d1)
  else Some (res, d1).

Definition removeMarker (pos : Z) (d : Doc) : option (bool * Doc) :=
  '(res, undo, redo, w) ← removeMarker_u pos Fun_true Fun_true (world d);
  let d1 := with_world d w in
  if (res : bool) then
    Some (res, PUSH_UNDO undo redo (label d1 "Delete guide" "Delete marker") d1)
  else Some (res, d1).

Definition isEmpty (s : string) : bool :=
  match s with
  | EmptyString => true
  | _ => false
  end.

Definition editMarker (oldPos pos : Z) (cmt : string) (type : Z) (d : Doc)
  : option (bool * Doc) :=
  let m := model (world d) in
  _ ← Q_ASSERT (hasMarker oldPos m);
  current ← marker oldPos m;
  let cmt := if isEmpty cmt then comment current else cmt in
  let type := if type =? -1 then markerType current else type in
  if (oldPos =? pos) && String.eqb (comment current) cmt
     && (markerType current =? type)
  then Some (true, d)
  else
    '(res, undo, redo, w1) ← removeMarker_u oldPos Fun_true Fun_true (world d);
    '(res, undo, redo, w2) ←
      (if (res : bool) then addMarker_u pos cmt type undo redo w1
       else Some (res, undo, redo, w1));
    let d2 := with_world d w2 in
    if (res : bool) then
      Some (res, PUSH_UNDO undo redo (label d2 "Edit guide" "Edit marker") d2)
    else
      '(undone, w3) ← undo w2;
      _ ← Q_ASSERT undone;
      Some (res, with_world d w3).

(** The second loop of [removeAllMarkers]. *)
Fixpoint removeAllMarkers_loop (all_pos : list Z) (local_undo local_redo : Fun)
    (w : World) : option (bool * Fun * Fun * World) :=
  match all_pos with
  | [] => Some (true, local_undo, local_redo, w)
  | p :: rest =>
      '(res, undo1, redo1, w1) ← removeMarker_u p local_undo local_redo w;
      if negb (res : bool) then
        '(undone, w2) ← undo1 w1;
        _ ← Q_ASSERT undone;
        Some (false, undo1, redo1, w2)
      else removeAllMarkers_loop rest undo1 redo1 w1
  end.

Definition removeAllMarkers (d : Doc) : option (bool * Doc) :=
  let all_pos := map (fun m => time (snd m)) (m_markerList (model (world d))) in
  '(res, local_undo, local_redo, w) ←
    removeAllMarkers_loop all_pos Fun_true Fun_true (world d);
  let d1 := with_world d w in
  if (res : bool) then
    Some (true, PUSH_UNDO local_undo local_redo
                  (label d1 "Delete all guides" "Delete all markers") d1)
  else Some (false, d1).

(** ** JSON import and export

    The text layer ([QJsonDocument::fromJson] and [toJson] of Qt) is taken
    as a faithful codec: the embedding works on the parsed document. *)

Inductive QJsonValue :=
| JUndefined
| JNull
| JBool (b : bool)
| JInt (z : Z)            (* a number holding an integer *)
| JFraction               (* a number that is not an integer *)
| JString (s : string)
| JCompound.              (* a nested array or object *)

(** An element of the top-level array: an object, or anything else. *)
Inductive JsonEntry :=
| EObject (fields : gmap string QJsonValue)
| ENotObject.

Inductive QJsonDocument :=
| DocArray (list : list JsonEntry)
| DocNotArray.

(** The range of a C++ [int]. *)
Definition INT_MIN : Z := -2147483648.
Definition INT_MAX : Z := 2147483647.

Definition fits_int (z : Z) : bool := (INT_MIN <=? z) && (z <=? INT_MAX).

(** [v.toInt(defaultValue)]: the number when [v] holds a whole number that
    fits an [int], the default in every other case. *)
Definition toInt (defaultValue : Z) (v : QJsonValue) : Z :=
  match v with
  | JInt z => if fits_int z then z else defaultValue
  | _ => defaultValue
  end.

(** [v.toString(defaultValue)] *)
Definition toString (defaultValue : string) (v : QJsonValue) : string :=
  match v with
  | JString s => s
  | _ => defaultValue
  end.

(** [obj[key]]: [Undefined] when the key is absent *)
Definition field (key : string) (obj : gmap string QJsonValue) : QJsonValue :=
  match obj !! key with
  | Some v => v
  | None => JUndefined
  end.

Definition contains (key : string) (obj : gmap string QJsonValue) : bool :=
  match obj !! key with
  | Some _ => true
  | None => false
  end.

(** The loop over the entries of the array in [importFromJson]. *)
Fixpoint importFromJson_loop (list : list JsonEntry) (ignoreConflicts : bool)
    (undo redo : Fun) (w : World) : option (bool * Fun * Fun * World) :=
  match list with
  | [] => Some (true, undo, redo, w)
  | entry :: rest =>
      match entry with
      | ENotObject =>
          (* Skipping invalid marker data *)
          importFromJson_loop rest ignoreConflicts undo redo w
      | EObject entryObj =>
          if negb (contains "pos" entryObj) then
            (* Skipping invalid marker data (does not contain position) *)
            importFromJson_loop rest ignoreConflicts undo redo w
          else
            let pos := toInt 0 (field "pos" entryObj) in
            let cmt := toString (i18n "Marker") (field "comment" entryObj) in
            let type := toInt 0 (field "type" entryObj) in
            let type :=
              if (type <? 0) || (type >=? markerTypes_size) then 0 else type in
            res ←
              (if negb ignoreConflicts && hasMarker pos (model w) then
                 (* potential conflict found, checking *)
                 oldMarker ← marker pos (model w);
                 Some (String.eqb (comment oldMarker) cmt
                       && (type =? markerType oldMarker))
               else Some true);
            '(res, undo1, redo1, w1) ←
              (if (res : bool) then addMarker_u pos cmt type undo redo w
               else Some (false, undo, redo, w));
            if negb (res : bool) then
              '(undone, w2) ← (undo1 : Fun) w1;
              _ ← Q_ASSERT undone;
              Some (false, undo1, redo1, w2)
            else importFromJson_loop rest ignoreConflicts undo1 redo1 w1
      end
  end.

Definition importFromJson_u (data : QJsonDocument) (ignoreConflicts : bool)
    (undo redo : Fun) (w : World) : option (bool * Fun * Fun * World) :=
  match data with
  | DocNotArray => Some (false, undo, redo, w)
  | DocArray list => importFromJson_loop list ignoreConflicts undo redo w
  end.

Definition importFromJson (data : QJsonDocument) (ignoreConflicts pushUndo : bool)
    (d : Doc) : option (bool * Doc) :=
  '(result, undo, redo, w) ←
    importFromJson_u data ignoreConflicts Fun_true Fun_true (world d);
  let d1 := with_world d w in
  if pushUndo then
    Some (result, PUSH_UNDO undo redo (label d1 "Import guides" "Import markers") d1)
  else Some (result, d1).

(** The object written for one marker. *)
Definition currentMarker (mk : CommentedTime) : gmap string QJsonValue :=
  <["type" := JInt (markerType mk)]>
    (<["comment" := JString (comment mk)]>
       (<["pos" := JInt (time mk)]> ∅)).

Definition toJson (m : MarkerListModel) : QJsonDocument :=
  DocArray (map (fun e => EObject (currentMarker (snd e))) (m_markerList m)).

(** ** [MoveableItem] *)

(** The members set by the constructor; [m_parent] is a weak reference,
    kept as a handle. *)
Record MoveableItem := mkMoveableItem {
  m_parent : nat;
  m_id : Z;
  m_position : Z;
  m_currentTrackId : Z
}.

(** The constructor [MoveableItem(parent, id)]. *)
Definition MoveableItem_new (parent : nat) (id : Z) (w : World)
  : MoveableItem * World :=
  let '(the_id, w1) := if id =? -1 then getNextId w else (id, w) in
  (mkMoveableItem parent the_id (-1) (-1), w1).

Definition getId (it : MoveableItem) : Z := m_id it.
Definition getCurrentTrackId (it : MoveableItem) : Z := m_currentTrackId it.
Definition getPosition (it : MoveableItem) : Z := m_position it.

(** The setters, as far as they touch the members above (the in/out range
    lives in the producer, which is outside this model). *)
Definition setPosition (pos : Z) (it : MoveableItem) : MoveableItem :=
  mkMoveableItem (m_parent it) (m_id it) pos (m_currentTrackId it).

Definition setCurrentTrackId (tid : Z) (it : MoveableItem) : MoveableItem :=
  mkMoveableItem (m_parent it) (m_id it) (m_position it) tid.

Definition setInOut (in_ out : Z) (it : MoveableItem) : MoveableItem :=
  mkMoveableItem (m_parent it) (m_id it) in_ (m_currentTrackId it).

(** ** Sample states *)

Definition emptyModel (guide : bool) : MarkerListModel :=
  mkModel guide [] ∅ [].

Definition emptyDoc (guide : bool) : Doc :=
  mkDoc (mkWorld (emptyModel guide) 0 ∅ 0) [] [].

(** ** Well-formedness

    The representation invariant of the ordered map, and the consistency
    of the two containers of the model. *)

(** every key of [m] is greater than [k] *)
Definition above {V : Type} (k : Z) (m : list (Z * V)) : Prop :=
  Forall (fun e => k < fst e) m.

(** every key of [m] is smaller than [k] *)
Definition below {V : Type} (k : Z) (m : list (Z * V)) : Prop :=
  Forall (fun e => fst e < k) m.

Definition markers (w : World) : list (Z * CommentedTime) :=
  m_markerList (model w).

Definition positions (w : World) : gmap Z Z :=
  m_markerPositions (model w).

(** The position index and the id-keyed storage describe the same
    markers at the same positions. *)
Record consistent (m : MarkerListModel) : Prop := mkConsistent {
  pos_to_list : forall pos mid,
    m_markerPositions m !! pos = Some mid ->
    exists c, StdMap.find mid (m_markerList m) = Some c /\ time c = pos;
  list_to_pos : forall mid c,
    StdMap.find mid (m_markerList m) = Some c ->
    m_markerPositions m !! time c = Some mid
}.

(** A reachable world: ordered storage, consistent containers, every id
    drawn from the counter, every type within the palette. *)
Record wf (w : World) : Prop := mkWf {
  wf_counter : 0 <= next_id w;
  wf_sorted : StdMap.sorted (markers w) = true;
  wf_consistent : consistent (model w);
  wf_ids : forall mid c,
    StdMap.find mid (markers w) = Some c -> 0 <= mid < next_id w;
  wf_types : forall mid c,
    StdMap.find mid (markers w) = Some c -> in_palette (markerType c) = true
}.

(** The executable check of [wf]. *)
Definition wf_entry (w : World) (e : Z * CommentedTime) : bool :=
  match positions w !! time (snd e) with
  | Some mid => mid =? fst e
  | None => false
  end
  && (0 <=? fst e) && (fst e <? next_id w) && in_palette (markerType (snd e)).

Definition wf_index (w : World) (e : Z * Z) : bool :=
  match StdMap.find (snd e) (markers w) with
  | Some c => time c =? fst e
  | None => false
  end.

Definition wf_check (w : World) : bool :=
  (0 <=? next_id w)
  && StdMap.sorted (markers w)
  && forallb (wf_entry w) (markers w)
  && forallb (wf_index w) (map_to_list (positions w)).

(** Two worlds with the same containers. *)
Definition same_lists (w1 w2 : World) : Prop :=
  markers w1 = markers w2 /\ positions w1 = positions w2.

(** The marker stored at a frame, if any. *)
Definition markerAt (frame : Z) (w : World) : option CommentedTime :=
  mid ← positions w !! frame; StdMap.find mid (markers w).

(** The world [w] with its containers and counter replaced. *)
Definition put (w : World) (l : list (Z * CommentedTime)) (p : gmap Z Z)
    (n : Z) : World :=
  mkWorld (mkModel (m_guide (model w)) l p (m_registeredSnaps (model w)))
          n (snapHeap w) (default_marker_type w).

(** The type [addMarker] works with: [-1] stands for the configured default. *)
Definition resolve_type (w : World) (type : Z) : Z :=
  if type =? -1 then default_marker_type w else type.

(** A guide list with two guides, stored in the order they were added:
    frame 10 "a" and frame 20 "b". Two snap consumers were registered;
    the first is alive, the second has expired. *)
Definition sampleWorld : World :=
  mkWorld
    (mkModel true
       [(0, mkCommentedTime 10 "a" 0); (1, mkCommentedTime 20 "b" 1)]
       (<[20 := 1]> (<[10 := 0]> ∅))
       [0%nat; 1%nat])
    2
    (<[0%nat := [AddPoint 10; AddPoint 20]]> ∅)
    0.

Definition sampleDoc : Doc := mkDoc sampleWorld [] [].

(** The comment and type [editMarker] works with: an empty comment and the
    type [-1] stand for those of the marker being edited. *)
Definition effective_comment (cur : CommentedTime) (cmt : string) : string :=
  if isEmpty cmt then comment cur else cmt.

Definition effective_type (cur : CommentedTime) (type : Z) : Z :=
  if type =? -1 then markerType cur else type.

(** The test of [editMarker] for an edit that changes nothing. *)
Definition identical_edit (cur : CommentedTime) (oldPos pos : Z)
    (cmt : string) (type : Z) : bool :=
  (oldPos =? pos)
  && String.eqb (comment cur) (effective_comment cur cmt)
  && (markerType cur =? effective_type cur type).

(** The reading of C1 under which moving a marker onto an occupied frame
    makes [editMarker] fail and leave the storage as it was. *)
Definition edit_collision_fails (d : Doc) (oldPos pos : Z) (cmt : string)
    (type : Z) : Prop :=
  hasMarker oldPos (model (world d)) = true ->
  oldPos <> pos ->
  hasMarker pos (model (world d)) = true ->
  exists d', editMarker oldPos pos cmt type d = Some (false, d')
             /\ markers (world d') = markers (world d).

(** What [importFromJson] reads from a record. *)
Definition entry_pos (obj : gmap string QJsonValue) : Z :=
  toInt 0 (field "pos" obj).

Definition entry_comment (obj : gmap string QJsonValue) : string :=
  toString (i18n "Marker") (field "comment" obj).

Definition entry_type (obj : gmap string QJsonValue) : Z :=
  let type := toInt 0 (field "type" obj) in
  if (type <? 0) || (type >=? markerTypes_size) then 0 else type.

(** Every stored frame fits an [int], the type in which [toJson] takes
    the frame of a marker ([GenTime::frames] returns an [int]). *)
Definition frames_fit_int (w : World) : Prop :=
  Forall (fun e => fits_int (time (snd e)) = true) (markers w).

(** The reading of C9 under which a record whose type field lies outside
    0..8 is imported with type 0 whatever the list holds, and never makes
    the import fail. *)
Definition type_forced_imports (d : Doc) (obj : gmap string QJsonValue)
    (ignoreConflicts : bool) : Prop :=
  contains "pos" obj = true ->
  (exists t, field "type" obj = JInt t /\ (t < 0 \/ markerTypes_size <= t)) ->
  exists d',
    importFromJson (DocArray [EObject obj]) ignoreConflicts false d = Some (true, d')
    /\ getMarker (entry_pos obj) (model (world d')) =
         Some (mkCommentedTime (entry_pos obj) (entry_comment obj) 0, true).

(** A record the import skips: not an object, or without position. *)
Definition malformed (e : JsonEntry) : Prop :=
  match e with
  | ENotObject => True
  | EObject obj => contains "pos" obj = false
  end.

(** A record whose position holds, in [w], a marker with another comment
    or another type. *)
Definition conflicting (w : World) (e : JsonEntry) : Prop :=
  match e with
  | ENotObject => False
  | EObject obj =>
      contains "pos" obj = true
      /\ exists c, markerAt (entry_pos obj) w = Some c
                   /\ (comment c <> entry_comment obj
                       \/ markerType c <> entry_type obj)
  end.

(** A record equal to the marker its position holds in [w]. *)
Definition duplicate (w : World) (e : JsonEntry) : Prop :=
  match e with
  | ENotObject => False
  | EObject obj =>
      contains "pos" obj = true
      /\ exists c, markerAt (entry_pos obj) w = Some c
                   /\ comment c = entry_comment obj
                   /\ markerType c = entry_type obj
  end.

(** Running [undo] in any world that has the containers of [w] succeeds
    and yields the containers of [w0]. *)
Definition restores (undo : Fun) (w w0 : World) : Prop :=
  forall w', same_lists w' w ->
    exists w'', undo w' = Some (true, w'') /\ same_lists w'' w0.

(** A guide list whose storage order is not the time order: the guide at
    frame 20 was added before the guide at frame 10. *)
Definition unsortedWorld : World :=
  mkWorld
    (mkModel true
       [(0, mkCommentedTime 20 "b" 1); (1, mkCommentedTime 10 "a" 0)]
       (<[10 := 1]> (<[20 := 0]> ∅))
       [])
    2 ∅ 0.

(** The invariant on the two containers alone: ordered storage and
    agreement with the position index. *)
Definition inv (w : World) : Prop :=
  StdMap.sorted (markers w) = true /\ consistent (model w).

(** ** Further queries of [MarkerListModel] *)

(** The entries of a [QMap<int, int>] in the order its iterators visit
    them: ascending keys. *)
Definition QMap_entries (p : gmap Z Z) : list (Z * Z) :=
  foldr (fun e acc => StdMap.insert (fst e) (snd e) acc) [] (map_to_list p).

(** [p.values().contains(v)] *)
Definition QMap_values_contains (v : Z) (p : gmap Z Z) : bool :=
  existsb (fun e => snd e =? v) (QMap_entries p).

(** [p.key(v)]: the first key mapped to [v], or a default-constructed key. *)
Fixpoint first_key (v : Z) (entries : list (Z * Z)) : Z :=
  match entries with
  | [] => 0
  | (k, x) :: rest => if x =? v then k else first_key v rest
  end.

Definition QMap_key (v : Z) (p : gmap Z Z) : Z :=
  first_key v (QMap_entries p).

Definition markerById (mid : Z) (m : MarkerListModel) : option CommentedTime :=
  _ ← Q_ASSERT (QMap_values_contains mid (m_markerPositions m));
  StdMap.at_ mid (m_markerList m).

Definition getMarkerPos (mid : Z) (m : MarkerListModel) : option Z :=
  _ ← Q_ASSERT (0 <? StdMap.count mid (m_markerList m))%nat;
  Some (QMap_key mid (m_markerPositions m)).

(** The loop of [getMarkersIdInRange] over the position index. *)
Fixpoint getMarkersIdInRange_loop (entries : list (Z * Z)) (start end_ : Z)
    (markers : list Z) : list Z :=
  match entries with
  | [] => markers
  | (key, value) :: rest =>
      if (end_ >? -1) && (key >? end_) then markers
      else
        getMarkersIdInRange_loop rest start end_
          (if key >=? start then markers ++ [value] else markers)
  end.

Definition getMarkersIdInRange (start end_ : Z) (m : MarkerListModel) : list Z :=
  getMarkersIdInRange_loop (QMap_entries (m_markerPositions m)) start end_ [].

(** [m_markerPositions.keys()] *)
Definition getSnapPoints (m : MarkerListModel) : list Z :=
  map fst (QMap_entries (m_markerPositions m)).

(** Modelled from the spec: [CommentedTime::operator<] is declared
    outside the sources; per the spec the sorted queries return their
    results in time order, so markers compare by their time. [std::sort]
    is taken as the insertion sort under that order. *)
Fixpoint insert_by_time (c : CommentedTime) (l : list CommentedTime)
  : list CommentedTime :=
  match l with
  | [] => [c]
  | x :: rest => if time c <? time x then c :: l else x :: insert_by_time c rest
  end.

Definition std_sort (l : list CommentedTime) : list CommentedTime :=
  foldr insert_by_time [] l.

Definition getAllMarkers (type : Z) (m : MarkerListModel) : list CommentedTime :=
  std_sort
    (map snd
       (List.filter (fun e => (type =? -1) || (markerType (snd e) =? type))
          (m_markerList m))).

(** The second loop of [getMarkersInRange]: [m_markerList.at] per id. *)
Fixpoint markers_at (mids : list Z) (l : list (Z * CommentedTime))
  : option (list CommentedTime) :=
  match mids with
  | [] => Some []
  | mid :: rest =>
      c ← StdMap.at_ mid l;
      cs ← markers_at rest l;
      Some (c :: cs)
  end.

Definition getMarkersInRange (start end_ : Z) (m : MarkerListModel)
  : option (list CommentedTime) :=
  let mids := getMarkersIdInRange start end_ m in
  markers ← markers_at mids (m_markerList m);
  Some (std_sort markers).

(** [registerSnapModel]: a live consumer is stored and receives every
    existing marker position, in ascending order; an expired one stops on
    the assertion. *)
Definition registerSnapModel (snapModel : nat) (w : World) : option World :=
  let m := model w in
  match snapHeap w !! snapModel with
  | Some log =>
      Some (mkWorld
              (mkModel (m_guide m) (m_markerList m) (m_markerPositions m)
                 (m_registeredSnaps m ++ [snapModel]))
              (next_id w)
              (<[snapModel :=
                   log ++ map (fun e => AddPoint (fst e))
                            (QMap_entries (m_markerPositions m))]> (snapHeap w))
              (default_marker_type w))
  | None => None
  end.

(** ** The list model interface: [data] and [rowCount] *)

Record QModelIndex := mkIndex {
  row : Z;
  isValid : bool
}.

Inductive Role :=
| DisplayRole | EditRole | CommentRole | PosRole | FrameRole | UserRole
| ColorRole | DecorationRole | TypeRole | IdRole | OtherRole.

(** What [data] returns. [VSeconds t] stands for [GenTime::seconds()] of
    the time with frame count [t]. *)
Inductive QVariant :=
| VInvalid
| VString (s : string)
| VInt (z : Z)
| VSeconds (frames : Z)
| VColor (name : string).

(** [markerTypes] *)
Definition markerTypes : list string :=
  ["#9b59b6"; "#3daee9"; "#1abc9c";
   "#1cdc9a"; "#c9ce3b"; "#fdbc4b";
   "#f39c1f"; "#f47750"; "#da4453"]%string.

(** [data(index, role)]; reading [markerTypes] out of bounds is the
    abnormal stop. *)
Definition data (index : QModelIndex) (role : Role) (m : MarkerListModel)
  : option QVariant :=
  if (row index <? 0) || (row index >=? Z.of_nat (length (m_markerList m)))
     || negb (isValid index)
  then Some VInvalid
  else
    match m_markerList m !! Z.to_nat (row index) with
    | None => None
    | Some it =>
        match role with
        | DisplayRole | EditRole | CommentRole => Some (VString (comment (snd it)))
        | PosRole => Some (VSeconds (time (snd it)))
        | FrameRole | UserRole => Some (VInt (time (snd it)))
        | ColorRole | DecorationRole =>
            if markerType (snd it) <? 0 then None
            else VColor <$> markerTypes !! Z.to_nat (markerType (snd it))
        | TypeRole => Some (VInt (markerType (snd it)))
        | IdRole => Some (VInt (fst it))
        | OtherRole => Some VInvalid
        end
    end.

Definition rowCount (parent : QModelIndex) (m : MarkerListModel) : Z :=
  if isValid parent then 0 else Z.of_nat (length (m_markerList m)).

(** ** Observing worlds by frame *)

(** Two worlds in which every frame reads the same marker. *)
Definition same_markers (w1 w2 : World) : Prop :=
  forall f, markerAt f w1 = markerAt f w2.

(** Run in any well-formed world that reads like [wa], the closure
    succeeds and yields a well-formed world that reads like [wb]. *)
Definition carries (f : Fun) (wa wb : World) : Prop :=
  forall w, wf w -> same_markers w wa ->
    exists w', f w = Some (true, w') /\ wf w' /\ same_markers w' wb.

(** The test [getMarkersIdInRange] applies to a frame: not before
    [start], and not after [end_] when [end_] is above [-1]. *)
Definition in_range (start end_ : Z) (frame : Z) : bool :=
  (frame >=? start) && negb ((end_ >? -1) && (frame >? end_)).

(** A transaction that can be undone and redone: from any well-formed
    world that reads like [after] the inverse leads to one that reads like
    [before], and from any that reads like [before] the forward action
    leads to one that reads like [after]. *)
Definition reversible (undo redo : Fun) (before after : World) : Prop :=
  carries undo after before /\ carries redo before after.

(** The marker the last record of [entries] that carries the position
    [frame] describes, or [acc] when no record carries it. *)
Fixpoint last_record (entries : list JsonEntry) (frame : Z)
    (acc : option CommentedTime) : option CommentedTime :=
  match entries with
  | [] => acc
  | e :: rest =>
      last_record rest frame
        (match e with
         | EObject obj =>
             if contains "pos" obj && (entry_pos obj =? frame)
             then Some (mkCommentedTime (entry_pos obj) (entry_comment obj)
                          (entry_type obj))
             else acc
         | ENotObject => acc
         end)
  end.

(** * Properties *)

(** ** Facts about the key-ordered association list *)

Section StdMapFacts.
Context {V : Type}.
Implicit Types (m : list (Z * V)) (k : Z) (v : V).

Lemma sorted_cons k v m :
  StdMap.sorted ((k, v) :: m) = true <-> above k m /\ StdMap.sorted m = true.
Proof.
  revert k v. induction m as [|[k' v'] r IH]; intros k v.
  - simpl. split; [intros _; split; [constructor | reflexivity] | reflexivity].
  - change (StdMap.sorted ((k, v) :: (k', v') :: r))
      with ((k <? k') && StdMap.sorted ((k', v') :: r)).
    rewrite andb_true_iff, Z.ltb_lt. split.
    + intros [Hlt Hs]. split; [|exact Hs].
      constructor; [exact Hlt|].
      apply IH in Hs as [Ha _].
      eapply Forall_impl; [exact Ha|]. simpl. intros; lia.
    + intros [Ha Hs]. inversion Ha; subst. split; assumption.
Qed.

Lemma above_weaken k k' m : k' <= k -> above k m -> above k' m.
Proof. intros Hle Ha. eapply Forall_impl; [exact Ha|]. simpl; intros; lia. Qed.

Lemma find_above k m k' : above k m -> k' <= k -> StdMap.find k' m = None.
Proof.
  induction 1 as [|[k0 v0] r Hlt _ IH]; intros Hle; simpl in *; [reflexivity|].
  destruct (Z.eqb_spec k' k0); [lia | auto].
Qed.

Lemma find_below k m k' : below k m -> k <= k' -> StdMap.find k' m = None.
Proof.
  induction 1 as [|[k0 v0] r Hlt _ IH]; intros Hle; simpl in *; [reflexivity|].
  destruct (Z.eqb_spec k' k0); [lia | auto].
Qed.

Lemma find_Some_In k v m : StdMap.find k m = Some v -> In (k, v) m.
Proof.
  induction m as [|[k0 v0] r IH]; simpl; [discriminate|].
  destruct (Z.eqb_spec k k0) as [->|Hne].
  - intros [= ->]. left; reflexivity.
  - intros H. right; auto.
Qed.

Lemma In_find k v m : StdMap.sorted m = true -> In (k, v) m -> StdMap.find k m = Some v.
Proof.
  induction m as [|[k0 v0] r IH]; intros Hs; simpl; [intros []|].
  intros [Heq|Hin].
  - inversion Heq; subst. rewrite Z.eqb_refl. reflexivity.
  - apply sorted_cons in Hs as [Ha Hs].
    destruct (Z.eqb_spec k k0) as [->|Hne]; [|by apply IH].
    unfold above in Ha. rewrite Forall_forall in Ha.
    apply list_elem_of_In in Hin. apply Ha in Hin. simpl in Hin. lia.
Qed.

Lemma find_insert_eq k v m : StdMap.find k (StdMap.insert k v m) = Some v.
Proof.
  induction m as [|[k0 v0] r IH]; simpl.
  - rewrite Z.eqb_refl. reflexivity.
  - destruct (Z.ltb_spec k k0).
    + simpl. rewrite Z.eqb_refl. reflexivity.
    + destruct (Z.eqb_spec k k0) as [->|Hne]; simpl.
      * rewrite Z.eqb_refl. reflexivity.
      * destruct (Z.eqb_spec k k0); [contradiction | exact IH].
Qed.

Lemma find_insert_ne k k' v m :
  k <> k' -> StdMap.find k' (StdMap.insert k v m) = StdMap.find k' m.
Proof.
  intros Hne. induction m as [|[k0 v0] r IH]; simpl.
  - destruct (Z.eqb_spec k' k); [congruence | reflexivity].
  - destruct (Z.ltb_spec k k0).
    + simpl. destruct (Z.eqb_spec k' k); [congruence | reflexivity].
    + destruct (Z.eqb_spec k k0) as [->|Hne0]; simpl.
      * destruct (Z.eqb_spec k' k0); [congruence | reflexivity].
      * destruct (Z.eqb_spec k' k0); [reflexivity | exact IH].
Qed.

Lemma find_erase_ne k k' m :
  k <> k' -> StdMap.find k' (StdMap.erase k m) = StdMap.find k' m.
Proof.
  intros Hne. induction m as [|[k0 v0] r IH]; simpl; [reflexivity|].
  destruct (Z.eqb_spec k k0) as [->|Hne0]; simpl.
  - destruct (Z.eqb_spec k' k0); [congruence | reflexivity].
  - destruct (Z.eqb_spec k' k0); [reflexivity | exact IH].
Qed.

Lemma find_erase_eq k m :
  StdMap.sorted m = true -> StdMap.find k (StdMap.erase k m) = None.
Proof.
  induction m as [|[k0 v0] r IH]; intros Hs; simpl; [reflexivity|].
  apply sorted_cons in Hs as [Ha Hs].
  destruct (Z.eqb_spec k k0) as [->|Hne]; simpl.
  - eapply find_above; [exact Ha | lia].
  - destruct (Z.eqb_spec k k0); [contradiction | auto].
Qed.

Lemma above_insert k0 k v m : k0 < k -> above k0 m -> above k0 (StdMap.insert k v m).
Proof.
  intros Hlt. induction 1 as [|[k1 v1] r H1 Hr IH]; simpl.
  - repeat constructor. exact Hlt.
  - destruct (Z.ltb_spec k k1).
    + constructor; [exact Hlt|]. constructor; assumption.
    + destruct (Z.eqb_spec k k1).
      * constructor; assumption.
      * constructor; assumption.
Qed.

Lemma above_erase k0 k m : above k0 m -> above k0 (StdMap.erase k m).
Proof.
  induction 1 as [|[k1 v1] r H1 Hr IH]; simpl; [constructor|].
  destruct (Z.eqb_spec k k1); [assumption|]. constructor; assumption.
Qed.

Lemma sorted_insert k v m :
  StdMap.sorted m = true -> StdMap.sorted (StdMap.insert k v m) = true.
Proof.
  induction m as [|[k0 v0] r IH]; [reflexivity|].
  intros Hs. pose proof Hs as Hs0. apply sorted_cons in Hs as [Ha Hs].
  cbn [StdMap.insert]. destruct (Z.ltb_spec k k0).
  - apply sorted_cons. split; [|exact Hs0].
    constructor; [exact H|]. eapply above_weaken; [|exact Ha]. lia.
  - destruct (Z.eqb_spec k k0) as [->|Hne].
    + apply sorted_cons. split; assumption.
    + apply sorted_cons. split; [|auto].
      apply above_insert; [lia | exact Ha].
Qed.

Lemma sorted_erase k m :
  StdMap.sorted m = true -> StdMap.sorted (StdMap.erase k m) = true.
Proof.
  induction m as [|[k0 v0] r IH]; [reflexivity|].
  intros Hs. apply sorted_cons in Hs as [Ha Hs].
  cbn [StdMap.erase]. destruct (Z.eqb_spec k k0); [exact Hs|].
  apply sorted_cons. split; [apply above_erase; exact Ha | auto].
Qed.

(** assigning the value already stored changes nothing *)
Lemma insert_id k v m :
  StdMap.sorted m = true -> StdMap.find k m = Some v -> StdMap.insert k v m = m.
Proof.
  induction m as [|[k0 v0] r IH]; intros Hs; simpl; [discriminate|].
  intros Hf. apply sorted_cons in Hs as [Ha Hs].
  destruct (Z.eqb_spec k k0) as [->|Hne].
  - injection Hf as ->. destruct (Z.ltb_spec k0 k0); [lia | reflexivity].
  - destruct (Z.ltb_spec k k0).
    + rewrite (find_above k0 r k) in Hf; [discriminate | exact Ha | lia].
    + f_equal. auto.
Qed.

Lemma insert_insert k v v' m :
  StdMap.insert k v (StdMap.insert k v' m) = StdMap.insert k v m.
Proof.
  induction m as [|[k0 v0] r IH]; simpl.
  - rewrite Z.ltb_irrefl, Z.eqb_refl. reflexivity.
  - destruct (Z.ltb_spec k k0).
    + simpl. rewrite Z.ltb_irrefl, Z.eqb_refl. reflexivity.
    + destruct (Z.eqb_spec k k0) as [->|Hne]; simpl.
      * rewrite Z.ltb_irrefl, Z.eqb_refl. reflexivity.
      * destruct (Z.ltb_spec k k0); [lia|].
        destruct (Z.eqb_spec k k0); [contradiction|]. f_equal. exact IH.
Qed.

(** erasing a key just inserted restores the map *)
Lemma erase_insert k v m :
  StdMap.find k m = None -> StdMap.erase k (StdMap.insert k v m) = m.
Proof.
  induction m as [|[k0 v0] r IH]; simpl.
  - rewrite Z.eqb_refl. reflexivity.
  - destruct (Z.eqb_spec k k0) as [->|Hne]; [discriminate|].
    intros Hf. destruct (Z.ltb_spec k k0); simpl.
    + rewrite Z.eqb_refl. reflexivity.
    + destruct (Z.eqb_spec k k0); [contradiction|]. f_equal. auto.
Qed.

(** a key greater than all others goes to the end *)
Lemma insert_last k v m : below k m -> StdMap.insert k v m = m ++ [(k, v)].
Proof.
  induction 1 as [|[k0 v0] r H0 Hr IH]; simpl in *; [reflexivity|].
  destruct (Z.ltb_spec k k0); [lia|].
  destruct (Z.eqb_spec k k0); [lia|]. f_equal. exact IH.
Qed.

Lemma below_of_bound k m :
  (forall k' v', StdMap.find k' m = Some v' -> k' < k) ->
  StdMap.sorted m = true -> below k m.
Proof.
  intros Hb Hs. apply Forall_forall. intros [k0 v0] Hin. simpl.
  apply (Hb k0 v0). apply In_find; [assumption | by apply list_elem_of_In].
Qed.

Lemma count_find k m v : StdMap.find k m = Some v -> (0 <? StdMap.count k m)%nat = true.
Proof. intros H. unfold StdMap.count. rewrite H. reflexivity. Qed.
End StdMapFacts.

(** ** Well-formed worlds *)

Lemma wf_check_sound w : wf_check w = true -> wf w.
Proof.
  unfold wf_check. rewrite !andb_true_iff, !forallb_forall.
  intros [[[Hn Hs] He] Hi].
  assert (Hent : forall mid c, StdMap.find mid (markers w) = Some c ->
                   wf_entry w (mid, c) = true).
  { intros mid c Hf. apply He. apply find_Some_In. exact Hf. }
  split.
  - lia.
  - exact Hs.
  - split.
    + intros pos mid Hp.
      apply elem_of_map_to_list, list_elem_of_In, Hi in Hp.
      unfold wf_index in Hp. simpl in Hp.
      destruct (StdMap.find mid (markers w)) as [c|] eqn:Hf; [|discriminate].
      exists c. split; [exact Hf | lia].
    + intros mid c Hf. apply Hent in Hf. unfold wf_entry in Hf. simpl in Hf.
      rewrite !andb_true_iff in Hf. destruct Hf as [[[Hp _] _] _].
      fold (positions w). destruct (positions w !! time c); [|discriminate].
      f_equal. lia.
  - intros mid c Hf. apply Hent in Hf. unfold wf_entry in Hf. simpl in Hf.
    rewrite !andb_true_iff in Hf. lia.
  - intros mid c Hf. apply Hent in Hf. unfold wf_entry in Hf.
    rewrite !andb_true_iff in Hf. tauto.
Qed.

Lemma wf_unique_position w mid1 mid2 c1 c2 :
  wf w ->
  StdMap.find mid1 (markers w) = Some c1 ->
  StdMap.find mid2 (markers w) = Some c2 ->
  time c1 = time c2 -> mid1 = mid2.
Proof.
  intros [_ _ [_ Hl] _ _] H1 H2 Ht.
  apply Hl in H1. apply Hl in H2. congruence.
Qed.

Lemma wf_marker_at w pos mid :
  wf w -> positions w !! pos = Some mid ->
  exists c, StdMap.find mid (markers w) = Some c /\ time c = pos /\ 0 <= mid.
Proof.
  intros Hwf Hp. destruct (pos_to_list _ (wf_consistent _ Hwf) _ _ Hp) as (c & Hf & Ht).
  exists c. split; [exact Hf|]. split; [exact Ht|].
  apply (wf_ids _ Hwf) in Hf. lia.
Qed.

Lemma wf_fresh_id w : wf w -> StdMap.find (next_id w) (markers w) = None.
Proof.
  intros Hwf. destruct (StdMap.find (next_id w) (markers w)) as [c|] eqn:Hf;
    [|reflexivity].
  apply (wf_ids _ Hwf) in Hf. lia.
Qed.

Lemma wf_below w : wf w -> below (next_id w) (markers w).
Proof.
  intros Hwf. apply below_of_bound; [|apply (wf_sorted _ Hwf)].
  intros k c Hf. apply (wf_ids _ Hwf) in Hf. lia.
Qed.

Lemma wf_ext w1 w2 :
  markers w1 = markers w2 -> positions w1 = positions w2 ->
  next_id w1 = next_id w2 -> wf w1 -> wf w2.
Proof.
  intros Hm Hp Hn [H0 H1 [H2 H3] H4 H5]. unfold markers, positions in *.
  split; [| |split|..]; unfold markers; rewrite <- ?Hm, <- ?Hp, <- ?Hn; assumption.
Qed.

(** ** Snap notification leaves the containers alone *)

Lemma snapNotify_markers call w : markers (snapNotify call w) = markers w.
Proof. unfold snapNotify. destruct (notifySnaps _ _ _ _). reflexivity. Qed.

Lemma snapNotify_positions call w : positions (snapNotify call w) = positions w.
Proof. unfold snapNotify. destruct (notifySnaps _ _ _ _). reflexivity. Qed.

Lemma snapNotify_next_id call w : next_id (snapNotify call w) = next_id w.
Proof. unfold snapNotify. destruct (notifySnaps _ _ _ _). reflexivity. Qed.

Lemma snapNotify_guide call w :
  m_guide (model (snapNotify call w)) = m_guide (model w).
Proof. unfold snapNotify. destruct (notifySnaps _ _ _ _). reflexivity. Qed.

Lemma snapNotify_default call w :
  default_marker_type (snapNotify call w) = default_marker_type w.
Proof. unfold snapNotify. destruct (notifySnaps _ _ _ _). reflexivity. Qed.

Lemma wf_snapNotify call w : wf w -> wf (snapNotify call w).
Proof.
  apply wf_ext; symmetry;
    [apply snapNotify_markers | apply snapNotify_positions | apply snapNotify_next_id].
Qed.

(** ** What the three closures do *)

Lemma hasMarker_true w pos mid :
  positions w !! pos = Some mid -> hasMarker pos (model w) = true.
Proof. unfold hasMarker, positions. intros ->. reflexivity. Qed.

Lemma hasMarker_false w pos :
  positions w !! pos = None -> hasMarker pos (model w) = false.
Proof. unfold hasMarker, positions. intros ->. reflexivity. Qed.

Lemma hasMarker_Some w pos :
  hasMarker pos (model w) = true -> exists mid, positions w !! pos = Some mid.
Proof.
  unfold hasMarker, positions. destruct (_ !! pos) as [mid|]; [eauto | discriminate].
Qed.

Lemma hasMarker_None w pos :
  hasMarker pos (model w) = false -> positions w !! pos = None.
Proof.
  unfold hasMarker, positions. destruct (_ !! pos) as [mid|]; [discriminate | reflexivity].
Qed.

Lemma marker_run w pos mid c :
  positions w !! pos = Some mid -> 0 <= mid ->
  StdMap.find mid (markers w) = Some c ->
  marker pos (model w) = Some c.
Proof.
  unfold marker, markerIdAtFrame, positions, markers, StdMap.at_.
  intros -> Hmid Hf. destruct (Z.gtb_spec mid (-1)); [exact Hf | lia].
Qed.

Lemma changeComment_run w pos cmt ty mid c :
  positions w !! pos = Some mid ->
  StdMap.find mid (markers w) = Some c ->
  changeComment_lambda pos cmt ty w =
    Some (true, put w (StdMap.insert mid (mkCommentedTime (time c) cmt ty) (markers w))
                      (positions w) (next_id w)).
Proof.
  intros Hp Hf. unfold changeComment_lambda.
  rewrite (hasMarker_true _ _ _ Hp). simpl.
  unfold getIdFromPos, getRowfromId. unfold positions in Hp. rewrite Hp.
  unfold markers in Hf. rewrite (count_find _ _ _ Hf). simpl.
  unfold subscript at 2. rewrite Hf.
  unfold subscript. rewrite find_insert_eq, insert_insert.
  reflexivity.
Qed.

Lemma addMarker_lambda_run w pos cmt ty :
  positions w !! pos = None ->
  addMarker_lambda pos cmt ty w =
    Some (true, addSnapPoint pos
                  (put w (StdMap.insert (next_id w) (mkCommentedTime pos cmt ty) (markers w))
                         (<[pos := next_id w]> (positions w)) (next_id w + 1))).
Proof.
  intros Hp. unfold addMarker_lambda. rewrite (hasMarker_false _ _ Hp). reflexivity.
Qed.

Lemma deleteMarker_run w pos mid c :
  positions w !! pos = Some mid ->
  StdMap.find mid (markers w) = Some c ->
  deleteMarker_lambda pos w =
    Some (true, removeSnapPoint pos
                  (put w (StdMap.erase mid (markers w))
                         (delete pos (positions w)) (next_id w))).
Proof.
  intros Hp Hf. unfold deleteMarker_lambda.
  rewrite (hasMarker_true _ _ _ Hp). simpl.
  unfold getIdFromPos, getRowfromId. unfold positions in Hp. rewrite Hp.
  unfold markers in Hf. rewrite (count_find _ _ _ Hf). reflexivity.
Qed.

(** the closures never answer [false] *)
Lemma changeComment_true pos cmt ty w b w' :
  changeComment_lambda pos cmt ty w = Some (b, w') -> b = true.
Proof.
  unfold changeComment_lambda. destruct (hasMarker pos (model w)); [|discriminate].
  simpl. destruct (getRowfromId _ _); simpl; congruence.
Qed.

Lemma addMarker_lambda_true pos cmt ty w b w' :
  addMarker_lambda pos cmt ty w = Some (b, w') -> b = true.
Proof.
  unfold addMarker_lambda. destruct (hasMarker pos (model w)); [discriminate|].
  simpl. congruence.
Qed.

Lemma deleteMarker_true pos w b w' :
  deleteMarker_lambda pos w = Some (b, w') -> b = true.
Proof.
  unfold deleteMarker_lambda. destruct (hasMarker pos (model w)); [|discriminate].
  simpl. destruct (getRowfromId _ _); simpl; congruence.
Qed.

(** ** The container updates keep worlds well formed *)

Lemma put_markers w l p n : markers (put w l p n) = l.
Proof. reflexivity. Qed.

Lemma put_positions w l p n : positions (put w l p n) = p.
Proof. reflexivity. Qed.

Lemma wf_put_rename w pos mid cmt ty :
  wf w -> positions w !! pos = Some mid -> in_palette ty = true ->
  wf (put w (StdMap.insert mid (mkCommentedTime pos cmt ty) (markers w))
            (positions w) (next_id w)).
Proof.
  intros Hwf Hp Hty.
  destruct (wf_marker_at _ _ _ Hwf Hp) as (c & Hf & Ht & Hmid).
  destruct Hwf as [H0 Hs [Hpl Hlp] Hid Htys].
  split; [exact H0 | | split | | ]; rewrite ?put_markers; simpl.
  - apply sorted_insert, Hs.
  - intros pos' mid' Hp'. destruct (Z.eq_dec mid' mid) as [->|Hne].
    + rewrite find_insert_eq. eexists; split; [reflexivity|]. simpl.
      destruct (Hpl _ _ Hp') as (c' & Hf' & Ht').
      unfold markers in Hf. congruence.
    + rewrite find_insert_ne by congruence. apply Hpl, Hp'.
  - intros mid' c'. destruct (Z.eq_dec mid' mid) as [->|Hne].
    + rewrite find_insert_eq. intros [= <-]. exact Hp.
    + rewrite find_insert_ne by congruence. apply Hlp.
  - intros mid' c'. destruct (Z.eq_dec mid' mid) as [->|Hne].
    + intros _. eapply Hid, Hf.
    + rewrite find_insert_ne by congruence. apply Hid.
  - intros mid' c'. destruct (Z.eq_dec mid' mid) as [->|Hne].
    + rewrite find_insert_eq. intros [= <-]. exact Hty.
    + rewrite find_insert_ne by congruence. apply Htys.
Qed.

Lemma wf_put_add w pos cmt ty :
  wf w -> positions w !! pos = None -> in_palette ty = true ->
  wf (put w (StdMap.insert (next_id w) (mkCommentedTime pos cmt ty) (markers w))
            (<[pos := next_id w]> (positions w)) (next_id w + 1)).
Proof.
  intros Hwf Hp Hty.
  destruct Hwf as [H0 Hs [Hpl Hlp] Hid Htys].
  split; [simpl; lia | | split | | ]; rewrite ?put_markers; simpl.
  - apply sorted_insert, Hs.
  - intros pos' mid'. destruct (Z.eq_dec pos' pos) as [->|Hne].
    + rewrite lookup_insert_eq. intros [= <-]. rewrite find_insert_eq.
      eexists; split; reflexivity.
    + rewrite lookup_insert_ne by congruence. intros Hp'.
      destruct (Hpl _ _ Hp') as (c' & Hf' & Ht').
      exists c'. split; [|exact Ht'].
      rewrite find_insert_ne; [exact Hf'|].
      apply Hid in Hf'. lia.
  - intros mid' c'. destruct (Z.eq_dec mid' (next_id w)) as [->|Hne].
    + rewrite find_insert_eq. intros [= <-]. simpl. apply lookup_insert_eq.
    + rewrite find_insert_ne by congruence. intros Hf'.
      pose proof (Hlp _ _ Hf') as Hp'.
      rewrite lookup_insert_ne; [exact Hp'|].
      intros Heq. unfold positions in Hp. rewrite Heq in Hp. congruence.
  - intros mid' c'. destruct (Z.eq_dec mid' (next_id w)) as [->|Hne].
    + intros _. lia.
    + rewrite find_insert_ne by congruence. intros Hf'. apply Hid in Hf'. lia.
  - intros mid' c'. destruct (Z.eq_dec mid' (next_id w)) as [->|Hne].
    + rewrite find_insert_eq. intros [= <-]. exact Hty.
    + rewrite find_insert_ne by congruence. apply Htys.
Qed.

Lemma wf_put_delete w pos mid :
  wf w -> positions w !! pos = Some mid ->
  wf (put w (StdMap.erase mid (markers w)) (delete pos (positions w)) (next_id w)).
Proof.
  intros Hwf Hp.
  destruct (wf_marker_at _ _ _ Hwf Hp) as (c & Hf & Ht & Hmid).
  destruct Hwf as [H0 Hs [Hpl Hlp] Hid Htys].
  assert (Hgone : forall mid' c', StdMap.find mid' (StdMap.erase mid (markers w)) = Some c' ->
                    mid' <> mid /\ StdMap.find mid' (markers w) = Some c').
  { intros mid' c' Hf'. destruct (Z.eq_dec mid' mid) as [->|Hne].
    - rewrite find_erase_eq in Hf' by exact Hs. discriminate.
    - rewrite find_erase_ne in Hf' by congruence. split; assumption. }
  split; [exact H0 | | split | | ]; rewrite ?put_markers; simpl.
  - apply sorted_erase, Hs.
  - intros pos' mid'. destruct (Z.eq_dec pos' pos) as [->|Hne].
    + rewrite lookup_delete_eq. discriminate.
    + rewrite lookup_delete_ne by congruence. intros Hp'.
      destruct (Hpl _ _ Hp') as (c' & Hf' & Ht').
      exists c'. split; [|exact Ht'].
      rewrite find_erase_ne; [exact Hf'|].
      intros <-. unfold markers in Hf. congruence.
  - intros mid' c' Hf'. apply Hgone in Hf' as [Hne Hf'].
    pose proof (Hlp _ _ Hf') as Hp'.
    rewrite lookup_delete_ne; [exact Hp'|].
    intros Heq. unfold positions in Hp. rewrite Heq in Hp. congruence.
  - intros mid' c' Hf'. apply Hgone in Hf' as [Hne Hf']. eapply Hid, Hf'.
  - intros mid' c' Hf'. apply Hgone in Hf' as [Hne Hf']. eapply Htys, Hf'.
Qed.

Lemma wf_put_move w mid c pos :
  wf w -> StdMap.find mid (markers w) = Some c -> positions w !! pos = None ->
  wf (put w (StdMap.insert mid (setTime pos c) (markers w))
            (<[pos := mid]> (delete (time c) (positions w))) (next_id w)).
Proof.
  intros Hwf Hf Hp.
  destruct Hwf as [H0 Hs [Hpl Hlp] Hid Htys].
  pose proof (Hlp _ _ Hf) as Hpc.
  split; [exact H0 | | split | | ]; rewrite ?put_markers; simpl.
  - apply sorted_insert, Hs.
  - intros pos' mid'. destruct (Z.eq_dec pos' pos) as [->|Hne].
    + rewrite lookup_insert_eq. intros [= <-]. rewrite find_insert_eq.
      eexists; split; reflexivity.
    + rewrite lookup_insert_ne by congruence.
      destruct (Z.eq_dec pos' (time c)) as [->|Hne'].
      * rewrite lookup_delete_eq. discriminate.
      * rewrite lookup_delete_ne by congruence. intros Hp'.
        destruct (Hpl _ _ Hp') as (c' & Hf' & Ht').
        exists c'. split; [|exact Ht'].
        rewrite find_insert_ne; [exact Hf'|].
        intros <-. unfold markers in Hf. congruence.

  - intros mid' c'. destruct (Z.eq_dec mid' mid) as [->|Hne].
    + rewrite find_insert_eq. intros [= <-]. simpl. apply lookup_insert_eq.
    + rewrite find_insert_ne by congruence. intros Hf'.
      pose proof (Hlp _ _ Hf') as Hp'.
      rewrite lookup_insert_ne;
        [|intros Heq; unfold positions in Hp; rewrite Heq in Hp; congruence].
      rewrite lookup_delete_ne; [exact Hp'|].
      intros Heq. rewrite <- Heq in Hp'. congruence.
  - intros mid' c'. destruct (Z.eq_dec mid' mid) as [->|Hne].
    + intros _. eapply Hid, Hf.
    + rewrite find_insert_ne by congruence. apply Hid.
  - intros mid' c'. destruct (Z.eq_dec mid' mid) as [->|Hne].
    + rewrite find_insert_eq. intros [= <-]. simpl. eapply Htys, Hf.
    + rewrite find_insert_ne by congruence. apply Htys.
Qed.

(** ** The undo-threading mutations on well-formed worlds *)

Lemma addMarker_u_rename w pos cmt ty undo redo mid c :
  wf w -> positions w !! pos = Some mid ->
  StdMap.find mid (markers w) = Some c ->
  in_palette (resolve_type w ty) = true ->
  addMarker_u pos cmt ty undo redo w =
    Some (true,
          fst (UPDATE_UNDO_REDO (changeComment_lambda pos cmt (resolve_type w ty))
                 (changeComment_lambda pos (comment c) (markerType c)) undo redo),
          snd (UPDATE_UNDO_REDO (changeComment_lambda pos cmt (resolve_type w ty))
                 (changeComment_lambda pos (comment c) (markerType c)) undo redo),
          put w (StdMap.insert mid (mkCommentedTime pos cmt (resolve_type w ty))
                   (markers w))
                (positions w) (next_id w)).
Proof.
  intros Hwf Hp Hf Hty.
  destruct (wf_marker_at _ _ _ Hwf Hp) as (c' & Hf' & Ht & Hmid).
  assert (c' = c) by congruence. subst c'.
  unfold addMarker_u. fold (resolve_type w ty). rewrite Hty. simpl.
  rewrite (hasMarker_true _ _ _ Hp), (marker_run _ _ _ _ Hp Hmid Hf). simpl.
  rewrite (changeComment_run _ _ _ _ _ _ Hp Hf). simpl. rewrite Ht. reflexivity.
Qed.

Lemma addMarker_u_add w pos cmt ty undo redo :
  positions w !! pos = None ->
  in_palette (resolve_type w ty) = true ->
  addMarker_u pos cmt ty undo redo w =
    Some (true,
          fst (UPDATE_UNDO_REDO (addMarker_lambda pos cmt (resolve_type w ty))
                 (deleteMarker_lambda pos) undo redo),
          snd (UPDATE_UNDO_REDO (addMarker_lambda pos cmt (resolve_type w ty))
                 (deleteMarker_lambda pos) undo redo),
          addSnapPoint pos
            (put w (StdMap.insert (next_id w)
                      (mkCommentedTime pos cmt (resolve_type w ty)) (markers w))
                   (<[pos := next_id w]> (positions w)) (next_id w + 1))).
Proof.
  intros Hp Hty.
  unfold addMarker_u. fold (resolve_type w ty). rewrite Hty. simpl.
  rewrite (hasMarker_false _ _ Hp). simpl.
  rewrite (addMarker_lambda_run _ _ _ _ Hp). reflexivity.
Qed.

Lemma removeMarker_u_run w pos undo redo mid c :
  wf w -> positions w !! pos = Some mid ->
  StdMap.find mid (markers w) = Some c ->
  removeMarker_u pos undo redo w =
    Some (true,
          fst (UPDATE_UNDO_REDO (deleteMarker_lambda pos)
                 (addMarker_lambda pos (comment c) (markerType c)) undo redo),
          snd (UPDATE_UNDO_REDO (deleteMarker_lambda pos)
                 (addMarker_lambda pos (comment c) (markerType c)) undo redo),
          removeSnapPoint pos
            (put w (StdMap.erase mid (markers w))
                   (delete pos (positions w)) (next_id w))).
Proof.
  intros Hwf Hp Hf.
  destruct (wf_marker_at _ _ _ Hwf Hp) as (c' & Hf' & Ht & Hmid).
  unfold removeMarker_u.
  rewrite (hasMarker_true _ _ _ Hp), (marker_run _ _ _ _ Hp Hmid Hf). simpl.
  rewrite (deleteMarker_run _ _ _ _ Hp Hf). reflexivity.
Qed.

Lemma removeMarker_u_none w pos undo redo :
  positions w !! pos = None ->
  removeMarker_u pos undo redo w = Some (false, undo, redo, w).
Proof.
  intros Hp. unfold removeMarker_u. rewrite (hasMarker_false _ _ Hp). reflexivity.
Qed.

(** [addMarker] in both of its branches never answers [false] *)
Lemma addMarker_u_true pos cmt ty undo redo w b undo1 redo1 w1 :
  addMarker_u pos cmt ty undo redo w = Some (b, undo1, redo1, w1) -> b = true.
Proof.
  unfold addMarker_u.
  destruct (in_palette _); [|discriminate]. simpl.
  destruct (hasMarker pos (model w)).
  - destruct (marker pos (model w)) as [cur|]; [|discriminate]. simpl.
    destruct (changeComment_lambda _ _ _ w) as [[r w']|] eqn:Hr; [|discriminate].
    simpl. apply changeComment_true in Hr. subst r. congruence.
  - simpl.
    destruct (addMarker_lambda _ _ _ w) as [[r w']|] eqn:Hr; [|discriminate].
    simpl. apply addMarker_lambda_true in Hr. subst r. congruence.
Qed.

(** ** Observing markers by frame *)

Lemma getMarker_markerAt w f :
  wf w ->
  getMarker f (model w) =
    Some (match markerAt f w with
          | Some c => (c, true)
          | None => (CommentedTime_default, false)
          end).
Proof.
  intros Hwf. unfold getMarker, markerAt.
  destruct (positions w !! f) as [mid|] eqn:Hp.
  - rewrite (hasMarker_true _ _ _ Hp). simpl.
    destruct (wf_marker_at _ _ _ Hwf Hp) as (c & Hf & Ht & Hmid).
    rewrite (marker_run _ _ _ _ Hp Hmid Hf). simpl. rewrite Hf. reflexivity.
  - rewrite (hasMarker_false _ _ Hp). reflexivity.
Qed.

Lemma markerAt_snapNotify call w f : markerAt f (snapNotify call w) = markerAt f w.
Proof.
  unfold markerAt. rewrite snapNotify_positions, snapNotify_markers. reflexivity.
Qed.

Lemma markerAt_delete w pos mid f :
  wf w -> positions w !! pos = Some mid ->
  markerAt f (put w (StdMap.erase mid (markers w)) (delete pos (positions w)) (next_id w))
  = if f =? pos then None else markerAt f w.
Proof.
  intros Hwf Hp. unfold markerAt. rewrite put_positions, put_markers.
  destruct (Z.eqb_spec f pos) as [->|Hne].
  - rewrite lookup_delete_eq. reflexivity.
  - rewrite lookup_delete_ne by congruence.
    destruct (positions w !! f) as [mid'|] eqn:Hp'; [|reflexivity]. simpl.
    apply find_erase_ne. intros <-.
    destruct (wf_marker_at _ _ _ Hwf Hp) as (c & Hf & Ht & _).
    destruct (wf_marker_at _ _ _ Hwf Hp') as (c' & Hf' & Ht' & _).
    congruence.
Qed.

Lemma markerAt_rename w pos mid c f :
  wf w -> positions w !! pos = Some mid ->
  markerAt f (put w (StdMap.insert mid c (markers w)) (positions w) (next_id w))
  = if f =? pos then Some c else markerAt f w.
Proof.
  intros Hwf Hp. unfold markerAt. rewrite put_positions, put_markers.
  destruct (Z.eqb_spec f pos) as [->|Hne].
  - rewrite Hp. simpl. apply find_insert_eq.
  - destruct (positions w !! f) as [mid'|] eqn:Hp'; [|reflexivity]. simpl.
    apply find_insert_ne. intros <-.
    destruct (wf_marker_at _ _ _ Hwf Hp) as (c0 & Hf & Ht & _).
    destruct (wf_marker_at _ _ _ Hwf Hp') as (c' & Hf' & Ht' & _).
    congruence.
Qed.

Lemma markerAt_add w pos c f :
  wf w ->
  markerAt f (put w (StdMap.insert (next_id w) c (markers w))
                    (<[pos := next_id w]> (positions w)) (next_id w + 1))
  = if f =? pos then Some c else markerAt f w.
Proof.
  intros Hwf. unfold markerAt. rewrite put_positions, put_markers.
  destruct (Z.eqb_spec f pos) as [->|Hne].
  - rewrite lookup_insert_eq. simpl. apply find_insert_eq.
  - rewrite lookup_insert_ne by congruence.
    destruct (positions w !! f) as [mid'|] eqn:Hp'; [|reflexivity]. simpl.
    apply find_insert_ne. intros Heq. subst mid'.
    destruct (wf_marker_at _ _ _ Hwf Hp') as (c' & Hf' & _).
    rewrite (wf_fresh_id _ Hwf) in Hf'. discriminate.
Qed.

(** ** Snap consumers: who is told what *)

Lemma notifySnaps_heap call regs : forall valid heap valid' heap',
  notifySnaps call regs valid heap = (valid', heap') ->
  forall h, heap' !! h =
    (fun log => log ++ replicate (count_occ Nat.eq_dec regs h) call) <$> heap !! h.
Proof.
  induction regs as [|a rest IH]; intros valid heap valid' heap' Hrun h; simpl in *.
  - injection Hrun as _ <-. destruct (heap !! h); simpl; [|reflexivity].
    rewrite app_nil_r. reflexivity.
  - destruct (heap !! a) as [log|] eqn:Ha.
    + rewrite (IH _ _ _ _ Hrun h). destruct (Nat.eq_dec a h) as [->|Hne].
      * rewrite lookup_insert_eq, Ha. simpl. rewrite <- app_assoc. reflexivity.
      * rewrite lookup_insert_ne by congruence. reflexivity.
    + rewrite (IH _ _ _ _ Hrun h). destruct (Nat.eq_dec a h) as [->|Hne].
      * rewrite Ha. reflexivity.
      * reflexivity.
Qed.

Lemma notifySnaps_valid call regs : forall valid heap valid' heap',
  notifySnaps call regs valid heap = (valid', heap') ->
  valid' = valid ++ filter (fun h => is_Some (heap !! h)) regs.
Proof.
  induction regs as [|a rest IH]; intros valid heap valid' heap' Hrun; simpl in *.
  - injection Hrun as <- _. rewrite app_nil_r. reflexivity.
  - destruct (heap !! a) as [log|] eqn:Ha.
    + rewrite (IH _ _ _ _ Hrun). rewrite filter_cons_True by (rewrite Ha; eauto).
      rewrite <- app_assoc. simpl. f_equal. f_equal.
      apply list_filter_iff. intros h.
      destruct (decide (a = h)) as [->|Hne].
      * rewrite lookup_insert_eq, Ha. split; eauto.
      * rewrite lookup_insert_ne by congruence. reflexivity.
    + rewrite (IH _ _ _ _ Hrun). rewrite filter_cons_False; [reflexivity|].
      rewrite Ha. intros [? ?]. discriminate.
Qed.

Lemma snapNotify_heap call w h :
  snapHeap (snapNotify call w) !! h =
    (fun log => log ++ replicate
                  (count_occ Nat.eq_dec (m_registeredSnaps (model w)) h) call)
    <$> snapHeap w !! h.
Proof.
  unfold snapNotify.
  destruct (notifySnaps _ _ _ _) as [valid heap] eqn:Hrun. simpl.
  eapply notifySnaps_heap, Hrun.
Qed.

Lemma snapNotify_registered call w :
  m_registeredSnaps (model (snapNotify call w)) =
    filter (fun h => is_Some (snapHeap w !! h)) (m_registeredSnaps (model w)).
Proof.
  unfold snapNotify.
  destruct (notifySnaps _ _ _ _) as [valid heap] eqn:Hrun. simpl.
  apply notifySnaps_valid in Hrun. exact Hrun.
Qed.

(** ** removeMarker *)

(** C6. [removeMarker(time)] on a well-formed list: with no marker at
    [time] it answers false and the whole document is unchanged; with a
    marker there it answers true, erases exactly that marker from the
    storage and from the position index (every other frame reads as
    before), and each live snap consumer receives [removePoint(time)] once
    per registration while expired registrations are pruned. *)
Theorem removeMarker_contract (d : Doc) (pos : Z) :
  wf (world d) ->
  (hasMarker pos (model (world d)) = false ->
     removeMarker pos d = Some (false, d))
  /\
  (hasMarker pos (model (world d)) = true ->
     exists mid d',
       positions (world d) !! pos = Some mid
       /\ removeMarker pos d = Some (true, d')
       /\ markers (world d') = StdMap.erase mid (markers (world d))
       /\ positions (world d') = delete pos (positions (world d))
       /\ (forall f, getMarker f (model (world d')) =
                     if f =? pos then Some (CommentedTime_default, false)
                     else getMarker f (model (world d)))
       /\ (forall h, snapHeap (world d') !! h =
             (fun log => log ++ replicate
                (count_occ Nat.eq_dec (m_registeredSnaps (model (world d))) h)
                (RemovePoint pos))
             <$> snapHeap (world d) !! h)
       /\ m_registeredSnaps (model (world d')) =
            filter (fun h => is_Some (snapHeap (world d) !! h))
                   (m_registeredSnaps (model (world d)))
       /\ wf (world d')).
Proof.
  intros Hwf. split.
  - intros Hno. apply hasMarker_None in Hno.
    unfold removeMarker. rewrite (removeMarker_u_none _ _ _ _ Hno). simpl.
    destruct d; reflexivity.
  - intros Hyes. apply hasMarker_Some in Hyes as [mid Hp].
    destruct (wf_marker_at _ _ _ Hwf Hp) as (c & Hf & Ht & Hmid).
    pose proof (wf_put_delete _ _ _ Hwf Hp) as Hwf1.
    exists mid. eexists. split; [exact Hp|]. split.
    { unfold removeMarker. rewrite (removeMarker_u_run _ _ _ _ _ _ Hwf Hp Hf).
      simpl. reflexivity. }
    simpl. unfold removeSnapPoint.
    rewrite snapNotify_markers, snapNotify_positions.
    split; [reflexivity|]. split; [reflexivity|]. split; [|split; [|split]].
    + intros f. rewrite !getMarker_markerAt by (try apply wf_snapNotify; assumption).
      rewrite markerAt_snapNotify, (markerAt_delete _ _ _ _ Hwf Hp).
      destruct (f =? pos); reflexivity.
    + intros h. rewrite snapNotify_heap. reflexivity.
    + rewrite snapNotify_registered. reflexivity.
    + apply wf_snapNotify, Hwf1.
Qed.

Lemma sampleWorld_wf : wf sampleWorld.
Proof. apply wf_check_sound. vm_compute. reflexivity. Qed.

Lemma removeMarker_contract_witness :
  wf (world sampleDoc)
  /\ removeMarker 11 sampleDoc = Some (false, sampleDoc)
  /\ exists mid d',
       positions (world sampleDoc) !! 10 = Some mid
       /\ removeMarker 10 sampleDoc = Some (true, d')
       /\ markers (world d') = StdMap.erase mid (markers (world sampleDoc)).
Proof.
  assert (Hwf : wf (world sampleDoc)) by (apply wf_check_sound; vm_compute; reflexivity).
  split; [exact Hwf|].
  destruct (removeMarker_contract sampleDoc 11 Hwf) as [Hnone _].
  destruct (removeMarker_contract sampleDoc 10 Hwf) as [_ Hsome].
  split; [apply Hnone; reflexivity|].
  destruct (Hsome eq_refl) as (mid & d' & Hp & Hrun & Hm & _).
  exists mid, d'. split; [exact Hp|]. split; [exact Hrun | exact Hm].
Defined.

(** ** moveMarker *)

(** C10. [moveMarker(mid, pos)] for a stored id: when some marker sits at
    [pos] it answers false and the world is unchanged; otherwise it
    answers true, the marker keeps its id, comment and type and takes the
    time [pos], every other stored marker is untouched, the index drops the
    old frame and maps [pos] to [mid], and the world stays well formed. *)
Theorem moveMarker_contract (w : World) (mid pos : Z) (c : CommentedTime) :
  wf w ->
  StdMap.find mid (markers w) = Some c ->
  (hasMarker pos (model w) = true -> moveMarker mid pos w = Some (false, w))
  /\
  (hasMarker pos (model w) = false ->
     exists w',
       moveMarker mid pos w = Some (true, w')
       /\ StdMap.find mid (markers w') =
            Some (mkCommentedTime pos (comment c) (markerType c))
       /\ (forall k, k <> mid -> StdMap.find k (markers w') = StdMap.find k (markers w))
       /\ positions w' = <[pos := mid]> (delete (time c) (positions w))
       /\ wf w').
Proof.
  intros Hwf Hf. unfold moveMarker.
  pose proof Hf as Hf0. unfold markers in Hf0.
  rewrite (count_find _ _ _ Hf0). simpl. split.
  - intros ->. reflexivity.
  - intros Hno. rewrite Hno. unfold getRowfromId.
    rewrite (count_find _ _ _ Hf0). simpl.
    unfold StdMap.at_, subscript. rewrite Hf0. simpl.
    eexists. split; [reflexivity|].
    apply hasMarker_None in Hno.
    split; [|split; [|split]].
    + simpl. apply find_insert_eq.
    + intros k Hk. simpl. apply find_insert_ne. congruence.
    + reflexivity.
    + exact (wf_put_move _ _ _ _ Hwf Hf Hno).
Qed.

Lemma moveMarker_contract_witness :
  moveMarker 0 20 sampleWorld = Some (false, sampleWorld)
  /\ exists w',
       moveMarker 0 30 sampleWorld = Some (true, w')
       /\ StdMap.find 0 (markers w') = Some (mkCommentedTime 30 "a" 0)
       /\ wf w'.
Proof.
  assert (Hwf : wf sampleWorld) by (apply wf_check_sound; vm_compute; reflexivity).
  assert (Hf : StdMap.find 0 (markers sampleWorld) = Some (mkCommentedTime 10 "a" 0))
    by reflexivity.
  split.
  - apply (moveMarker_contract sampleWorld 0 20 _ Hwf Hf). reflexivity.
  - destruct (moveMarker_contract sampleWorld 0 30 _ Hwf Hf) as [_ Hmove].
    destruct (Hmove eq_refl) as (w' & Hrun & Hm & _ & _ & Hwf').
    exists w'. split; [exact Hrun|]. split; [exact Hm | exact Hwf'].
Defined.

(** ** addMarker *)

Lemma length_insert_present {V} (k : Z) (v v0 : V) (m : list (Z * V)) :
  StdMap.sorted m = true -> StdMap.find k m = Some v0 ->
  length (StdMap.insert k v m) = length m.
Proof.
  induction m as [|[k1 v1] r IH]; intros Hs; simpl; [discriminate|].
  apply sorted_cons in Hs as [Ha Hs].
  destruct (Z.eqb_spec k k1) as [->|Hne].
  - intros _. rewrite Z.ltb_irrefl. reflexivity.
  - intros Hf. destruct (Z.ltb_spec k k1).
    + rewrite (find_above k1 r k) in Hf; [discriminate | exact Ha | lia].
    + simpl. f_equal. auto.
Qed.

(** C3. [addMarker(time, comment, type)] on a well-formed list that
    already has a marker at [time]: it answers true; the stored marker
    keeps its id and its time and now carries the new comment and type; no
    other marker sits at [time] and the list has not grown; the position
    index is unchanged; one transaction is pushed, labelled "Rename guide"
    for a guide list and "Rename marker" for a clip's markers. Moreover
    [addMarker] never answers false, whatever the list, because neither
    of its primitive steps (the rename closure, the add closure) ever
    reports failure. *)
Theorem addMarker_rename_contract (d : Doc) (pos : Z) (cmt : string) (ty : Z)
    (mid : Z) (c : CommentedTime) :
  wf (world d) ->
  positions (world d) !! pos = Some mid ->
  StdMap.find mid (markers (world d)) = Some c ->
  in_palette (resolve_type (world d) ty) = true ->
  (exists d' undo redo,
     addMarker pos cmt ty d = Some (true, d')
     /\ StdMap.find mid (markers (world d')) =
          Some (mkCommentedTime pos cmt (resolve_type (world d) ty))
     /\ (forall k v, StdMap.find k (markers (world d')) = Some v ->
                     time v = pos -> k = mid)
     /\ (forall k, k <> mid ->
           StdMap.find k (markers (world d')) = StdMap.find k (markers (world d)))
     /\ length (markers (world d')) = length (markers (world d))
     /\ positions (world d') = positions (world d)
     /\ undoable d' =
          mkUndoCommand
            (if m_guide (model (world d)) then "Rename guide" else "Rename marker")
            undo redo :: undoable d
     /\ wf (world d'))
  /\
  (forall pos0 cmt0 ty0 d0 b d1,
     addMarker pos0 cmt0 ty0 d0 = Some (b, d1) -> b = true)
  /\
  (forall pos0 cmt0 ty0 w0 b w1,
     changeComment_lambda pos0 cmt0 ty0 w0 = Some (b, w1)
     \/ addMarker_lambda pos0 cmt0 ty0 w0 = Some (b, w1) -> b = true).
Proof.
  intros Hwf Hp Hf Hty. split; [|split].
  - pose proof (wf_put_rename _ _ _ cmt _ Hwf Hp Hty) as Hwf1.
    unfold addMarker.
    rewrite (addMarker_u_rename _ _ _ _ _ _ _ _ Hwf Hp Hf Hty).
    rewrite (hasMarker_true _ _ _ Hp). simpl.
    eexists. eexists. eexists. split; [reflexivity|]. simpl.
    split; [apply find_insert_eq|].
    split; [|split; [|split; [|split; [|split]]]].
    + intros k v Hk Ht.
      destruct (pos_to_list _ (wf_consistent _ Hwf1) _ _ Hp) as (c1 & Hf1 & Ht1).
      eapply (wf_unique_position _ _ _ _ _ Hwf1); [exact Hk | exact Hf1 | congruence].
    + intros k Hk. apply find_insert_ne. congruence.
    + eapply length_insert_present; [apply (wf_sorted _ Hwf) | exact Hf].
    + reflexivity.
    + unfold label, i18n. simpl. reflexivity.
    + exact Hwf1.
  - intros pos0 cmt0 ty0 d0 b d1. unfold addMarker.
    destruct (addMarker_u _ _ _ _ _ _) as [[[[r u] re] w1]|] eqn:Hrun; [|discriminate].
    simpl. apply addMarker_u_true in Hrun. subst r.
    destruct (hasMarker pos0 _); intros [= <- _]; reflexivity.
  - intros pos0 cmt0 ty0 w0 b w1 [Hrun|Hrun].
    + eapply changeComment_true, Hrun.
    + eapply addMarker_lambda_true, Hrun.
Qed.

Lemma addMarker_rename_contract_witness :
  exists d',
    addMarker 10 "B" 3 sampleDoc = Some (true, d')
    /\ StdMap.find 0 (markers (world d')) = Some (mkCommentedTime 10 "B" 3)
    /\ length (markers (world d')) = 2%nat
    /\ map cmd_text (undoable d') = ["Rename guide"%string]
    /\ fst <$> addMarker 30 "n" 1 sampleDoc = Some true.
Proof.
  assert (Hwf : wf (world sampleDoc)) by (apply wf_check_sound; vm_compute; reflexivity).
  destruct (addMarker_rename_contract sampleDoc 10 "B" 3 0 (mkCommentedTime 10 "a" 0)
              Hwf eq_refl eq_refl eq_refl)
    as [(d' & undo & redo & Hrun & Hm & _ & _ & Hlen & _ & Hu & _) [Hnever _]].
  exists d'. split; [exact Hrun|]. split; [exact Hm|]. split; [exact Hlen|].
  split; [rewrite Hu; reflexivity|].
  destruct (addMarker 30 "n" 1 sampleDoc) as [[b d1]|] eqn:Hadd.
  - rewrite (Hnever _ _ _ _ _ _ Hadd). reflexivity.
  - vm_compute in Hadd. discriminate.
Defined.

(** ** One step of add and of remove, seen through [markerAt] *)

Lemma addMarker_u_spec w pos cmt ty undo redo :
  wf w -> in_palette (resolve_type w ty) = true ->
  exists local_undo local_redo w1,
    addMarker_u pos cmt ty undo redo w =
      Some (true, fst (UPDATE_UNDO_REDO local_redo local_undo undo redo),
                  snd (UPDATE_UNDO_REDO local_redo local_undo undo redo), w1)
    /\ wf w1
    /\ (forall f, markerAt f w1 =
                  if f =? pos then Some (mkCommentedTime pos cmt (resolve_type w ty))
                  else markerAt f w)
    /\ default_marker_type w1 = default_marker_type w
    /\ m_guide (model w1) = m_guide (model w)
    /\ (forall w', same_lists w' w1 ->
          exists w'', local_undo w' = Some (true, w'') /\ same_lists w'' w).
Proof.
  intros Hwf Hty. destruct (positions w !! pos) as [mid|] eqn:Hp.
  - destruct (wf_marker_at _ _ _ Hwf Hp) as (c & Hf & Ht & Hmid).
    do 3 eexists. split; [apply (addMarker_u_rename _ _ _ _ _ _ _ _ Hwf Hp Hf Hty)|].
    split; [apply (wf_put_rename _ _ _ _ _ Hwf Hp Hty)|].
    split; [intros f; apply (markerAt_rename _ _ _ _ _ Hwf Hp)|].
    split; [reflexivity|]. split; [reflexivity|].
    intros w' [Hm' Hp'].
    rewrite put_markers in Hm'. rewrite put_positions in Hp'.
    eexists. split.
    + eapply changeComment_run; [rewrite Hp'; exact Hp|].
      rewrite Hm'. apply find_insert_eq.
    + split; simpl; [|exact Hp'].
      rewrite Hm', insert_insert. rewrite <- Ht.
      destruct c as [t cm mt]. simpl.
      apply insert_id; [apply (wf_sorted _ Hwf) | exact Hf].
  - do 3 eexists. split; [apply (addMarker_u_add _ _ _ _ _ _ Hp Hty)|].
    unfold addSnapPoint.
    split; [apply wf_snapNotify, (wf_put_add _ _ _ _ Hwf Hp Hty)|].
    split; [intros f; rewrite markerAt_snapNotify; apply (markerAt_add _ _ _ _ Hwf)|].
    split; [rewrite snapNotify_default; reflexivity|].
    split; [rewrite snapNotify_guide; reflexivity|].
    intros w' [Hm' Hp'].
    rewrite snapNotify_markers, put_markers in Hm'.
    rewrite snapNotify_positions, put_positions in Hp'.
    eexists. split.
    + eapply deleteMarker_run; [rewrite Hp'; apply lookup_insert_eq|].
      rewrite Hm'. apply find_insert_eq.
    + unfold removeSnapPoint, same_lists.
      rewrite snapNotify_markers, snapNotify_positions, put_markers, put_positions.
      rewrite Hm', Hp'. split.
      * apply erase_insert, (wf_fresh_id _ Hwf).
      * apply delete_insert_id. exact Hp.
Qed.

Lemma removeMarker_u_spec w pos undo redo mid c :
  wf w -> positions w !! pos = Some mid ->
  StdMap.find mid (markers w) = Some c ->
  exists w1,
    removeMarker_u pos undo redo w =
      Some (true,
            fst (UPDATE_UNDO_REDO (deleteMarker_lambda pos)
                   (addMarker_lambda pos (comment c) (markerType c)) undo redo),
            snd (UPDATE_UNDO_REDO (deleteMarker_lambda pos)
                   (addMarker_lambda pos (comment c) (markerType c)) undo redo),
            w1)
    /\ wf w1
    /\ (forall f, markerAt f w1 = if f =? pos then None else markerAt f w)
    /\ default_marker_type w1 = default_marker_type w
    /\ m_guide (model w1) = m_guide (model w).
Proof.
  intros Hwf Hp Hf. eexists.
  split; [apply (removeMarker_u_run _ _ _ _ _ _ Hwf Hp Hf)|].
  unfold removeSnapPoint.
  split; [apply wf_snapNotify, (wf_put_delete _ _ _ Hwf Hp)|].
  split; [intros f; rewrite markerAt_snapNotify; apply (markerAt_delete _ _ _ _ Hwf Hp)|].
  split; [rewrite snapNotify_default; reflexivity|].
  rewrite snapNotify_guide; reflexivity.
Qed.

(** ** editMarker *)

Lemma resolve_in_palette w ty : in_palette ty = true -> resolve_type w ty = ty.
Proof.
  unfold in_palette, resolve_type. rewrite andb_true_iff, Z.leb_le.
  intros [H _]. destruct (Z.eqb_spec ty (-1)); [lia | reflexivity].
Qed.

Lemma editMarker_run d oldPos pos cmt ty mid cur :
  wf (world d) ->
  positions (world d) !! oldPos = Some mid ->
  StdMap.find mid (markers (world d)) = Some cur ->
  in_palette (effective_type cur ty) = true ->
  if identical_edit cur oldPos pos cmt ty
  then editMarker oldPos pos cmt ty d = Some (true, d)
  else exists d' undo redo,
      editMarker oldPos pos cmt ty d = Some (true, d')
      /\ (forall f, markerAt f (world d') =
            if f =? pos
            then Some (mkCommentedTime pos (effective_comment cur cmt)
                         (effective_type cur ty))
            else if f =? oldPos then None
            else markerAt f (world d))
      /\ undoable d' =
           mkUndoCommand
             (if m_guide (model (world d)) then "Edit guide" else "Edit marker")
             undo redo :: undoable d
      /\ wf (world d').
Proof.
  intros Hwf Hp Hf Hty.
  destruct (wf_marker_at _ _ _ Hwf Hp) as (c' & Hf' & Ht & Hmid).
  unfold editMarker.
  rewrite (hasMarker_true _ _ _ Hp), (marker_run _ _ _ _ Hp Hmid Hf). simpl.
  fold (effective_comment cur cmt). fold (effective_type cur ty).
  fold (identical_edit cur oldPos pos cmt ty).
  destruct (identical_edit cur oldPos pos cmt ty); [reflexivity|].
  destruct (removeMarker_u_spec _ _ Fun_true Fun_true _ _ Hwf Hp Hf)
    as (w1 & Hrun1 & Hwf1 & Hat1 & Hd1 & Hg1).
  rewrite Hrun1. simpl.
  assert (Hty1 : in_palette (resolve_type w1 (effective_type cur ty)) = true)
    by (rewrite resolve_in_palette; assumption).
  match goal with
  | |- context [addMarker_u _ _ _ ?u ?r w1] =>
      destruct (addMarker_u_spec w1 pos (effective_comment cur cmt)
                  (effective_type cur ty) u r Hwf1 Hty1)
        as (lu & lr & w2 & Hrun2 & Hwf2 & Hat2 & Hd2 & Hg2 & _)
  end.
  rewrite Hrun2. simpl.
  do 3 eexists. split; [reflexivity|]. simpl.
  split; [|split].
  - intros f. rewrite Hat2, Hat1, (resolve_in_palette _ _ Hty). reflexivity.
  - unfold label, i18n. simpl. rewrite Hg2, Hg1. reflexivity.
  - exact Hwf2.
Qed.

Lemma editMarker_result d oldPos pos cmt ty mid cur :
  wf (world d) ->
  positions (world d) !! oldPos = Some mid ->
  StdMap.find mid (markers (world d)) = Some cur ->
  in_palette (effective_type cur ty) = true ->
  exists d',
    editMarker oldPos pos cmt ty d = Some (true, d')
    /\ wf (world d')
    /\ getMarker pos (model (world d')) =
         Some (mkCommentedTime pos (effective_comment cur cmt)
                 (effective_type cur ty), true).
Proof.
  intros Hwf Hp Hf Hty.
  pose proof (editMarker_run d oldPos pos cmt ty mid cur Hwf Hp Hf Hty) as Hrun.
  destruct (identical_edit cur oldPos pos cmt ty) eqn:Hid.
  - exists d. split; [exact Hrun|]. split; [exact Hwf|].
    unfold identical_edit in Hid. rewrite !andb_true_iff in Hid.
    destruct Hid as [[Hpos Hc] Hm].
    apply Z.eqb_eq in Hpos, Hm. apply String.eqb_eq in Hc. subst pos.
    destruct (wf_marker_at _ _ _ Hwf Hp) as (c' & Hf' & Ht & Hmid).
    assert (c' = cur) by congruence. subst c'.
    rewrite (getMarker_markerAt _ _ Hwf). unfold markerAt. rewrite Hp. simpl.
    rewrite Hf. rewrite <- Hc, <- Hm, <- Ht. destruct cur; reflexivity.
  - destruct Hrun as (d' & undo & redo & Hrun & Hat & _ & Hwf').
    exists d'. split; [exact Hrun|]. split; [exact Hwf'|].
    rewrite (getMarker_markerAt _ _ Hwf'), Hat, Z.eqb_refl. reflexivity.
Qed.

(** C1, as the code has it. [editMarker(oldTime, newTime, comment, type)]
    on a well-formed list with a marker at [oldTime]: when the requested
    state equals the current one it answers true and the document,
    undo stack included, is unchanged; otherwise the removal at [oldTime]
    and the add at [newTime] both succeed, also when another marker
    occupies [newTime] (that marker is overwritten), the call answers true,
    [newTime] now reads the edited marker, [oldTime] reads no marker, every
    other frame reads as before, and one "Edit guide" / "Edit marker"
    transaction is pushed. *)
Theorem editMarker_atomic (d : Doc) (oldPos pos : Z) (cmt : string) (ty : Z)
    (mid : Z) (cur : CommentedTime) :
  wf (world d) ->
  positions (world d) !! oldPos = Some mid ->
  StdMap.find mid (markers (world d)) = Some cur ->
  in_palette (effective_type cur ty) = true ->
  (identical_edit cur oldPos pos cmt ty = true ->
     editMarker oldPos pos cmt ty d = Some (true, d))
  /\
  (identical_edit cur oldPos pos cmt ty = false ->
     exists d' undo redo,
       editMarker oldPos pos cmt ty d = Some (true, d')
       /\ (forall f, getMarker f (model (world d')) =
             if f =? pos
             then Some (mkCommentedTime pos (effective_comment cur cmt)
                          (effective_type cur ty), true)
             else if f =? oldPos then Some (CommentedTime_default, false)
             else getMarker f (model (world d)))
       /\ undoable d' =
            mkUndoCommand
              (if m_guide (model (world d)) then "Edit guide" else "Edit marker")
              undo redo :: undoable d
       /\ wf (world d')).
Proof.
  intros Hwf Hp Hf Hty.
  pose proof (editMarker_run d oldPos pos cmt ty mid cur Hwf Hp Hf Hty) as Hrun.
  split; intros Hid; rewrite Hid in Hrun; [exact Hrun|].
  destruct Hrun as (d' & undo & redo & Hrun & Hat & Hu & Hwf').
  exists d', undo, redo. split; [exact Hrun|]. split; [|split; assumption].
  intros f. rewrite (getMarker_markerAt _ _ Hwf'), (getMarker_markerAt _ _ Hwf), Hat.
  destruct (f =? pos); [reflexivity|]. destruct (f =? oldPos); reflexivity.
Qed.

Lemma editMarker_atomic_witness :
  editMarker 10 10 "a" 0 sampleDoc = Some (true, sampleDoc)
  /\ exists d',
       editMarker 10 15 "c" 2 sampleDoc = Some (true, d')
       /\ getMarker 15 (model (world d')) = Some (mkCommentedTime 15 "c" 2, true)
       /\ getMarker 10 (model (world d')) = Some (CommentedTime_default, false).
Proof.
  assert (Hwf : wf (world sampleDoc)) by (apply wf_check_sound; vm_compute; reflexivity).
  split.
  - apply (editMarker_atomic sampleDoc 10 10 "a" 0 0 (mkCommentedTime 10 "a" 0)
             Hwf eq_refl eq_refl eq_refl).
    reflexivity.
  - destruct (editMarker_atomic sampleDoc 10 15 "c" 2 0 (mkCommentedTime 10 "a" 0)
                Hwf eq_refl eq_refl eq_refl) as [_ Hedit].
    destruct (Hedit eq_refl) as (d' & undo & redo & Hrun & Hat & _).
    exists d'. split; [exact Hrun|]. split.
    + rewrite Hat. reflexivity.
    + rewrite Hat. reflexivity.
Defined.

(** C1 as stated fails: editing the guide at frame 10 onto frame 20, where
    another guide sits, answers true and leaves a single guide; it does
    not fail and restore the list. *)
Lemma editMarker_collision_counterexample :
  (exists d',
     editMarker 10 20 "c" 2 sampleDoc = Some (true, d')
     /\ markers (world d') = [(1, mkCommentedTime 20 "c" 2)])
  /\ ~ edit_collision_fails sampleDoc 10 20 "c" 2.
Proof.
  assert (Hrun : exists d',
             editMarker 10 20 "c" 2 sampleDoc = Some (true, d')
             /\ markers (world d') = [(1, mkCommentedTime 20 "c" 2)]).
  { eexists. split; [vm_compute; reflexivity | reflexivity]. }
  split; [exact Hrun|].
  intros Hclaim.
  destruct (Hclaim eq_refl ltac:(discriminate) eq_refl) as (d1 & Hfail & _).
  destruct Hrun as (d' & Hrun & _). rewrite Hrun in Hfail. discriminate.
Qed.

(** C8. On a well-formed list with a marker at [oldTime]: [editMarker]
    called with an empty comment leaves the edited marker with the comment
    it had, called with type [-1] leaves it with the type it had, and a
    call whose comment is empty or equal to the current one and whose type
    is [-1] or equal to the current one, at the same time, is the
    no-op: true, document unchanged, nothing pushed. *)
Theorem editMarker_defaults (d : Doc) (oldPos mid : Z) (cur : CommentedTime) :
  wf (world d) ->
  positions (world d) !! oldPos = Some mid ->
  StdMap.find mid (markers (world d)) = Some cur ->
  (forall pos ty, in_palette (effective_type cur ty) = true ->
     exists d',
       editMarker oldPos pos "" ty d = Some (true, d')
       /\ getMarker pos (model (world d')) =
            Some (mkCommentedTime pos (comment cur) (effective_type cur ty), true))
  /\
  (forall pos cmt,
     exists d',
       editMarker oldPos pos cmt (-1) d = Some (true, d')
       /\ getMarker pos (model (world d')) =
            Some (mkCommentedTime pos (effective_comment cur cmt) (markerType cur),
                  true))
  /\
  (forall cmt ty,
     cmt = ""%string \/ cmt = comment cur ->
     ty = -1 \/ ty = markerType cur ->
     editMarker oldPos oldPos cmt ty d = Some (true, d)).
Proof.
  intros Hwf Hp Hf.
  pose proof (wf_types _ Hwf _ _ Hf) as Hcur.
  split; [|split].
  - intros pos ty Hty.
    destruct (editMarker_result d oldPos pos "" ty mid cur Hwf Hp Hf Hty)
      as (d' & Hrun & _ & Hget).
    exists d'. split; assumption.
  - intros pos cmt.
    destruct (editMarker_result d oldPos pos cmt (-1) mid cur Hwf Hp Hf Hcur)
      as (d' & Hrun & _ & Hget).
    exists d'. split; assumption.
  - intros cmt ty Hc Ht.
    assert (He : effective_type cur ty = markerType cur).
    { unfold effective_type. destruct Ht as [->| ->]; [reflexivity|].
      destruct (_ =? -1); reflexivity. }
    assert (Hec : effective_comment cur cmt = comment cur).
    { unfold effective_comment. destruct Hc as [->| ->]; [reflexivity|].
      destruct (isEmpty _); reflexivity. }
    assert (Hty : in_palette (effective_type cur ty) = true) by (rewrite He; exact Hcur).
    pose proof (editMarker_run d oldPos oldPos cmt ty mid cur Hwf Hp Hf Hty) as Hrun.
    unfold identical_edit in Hrun.
    rewrite He, Hec, !Z.eqb_refl, String.eqb_refl in Hrun. exact Hrun.
Qed.

Lemma editMarker_defaults_witness :
  (exists d',
     editMarker 10 15 "" 4 sampleDoc = Some (true, d')
     /\ getMarker 15 (model (world d')) = Some (mkCommentedTime 15 "a" 4, true))
  /\ (exists d',
        editMarker 20 25 "z" (-1) sampleDoc = Some (true, d')
        /\ getMarker 25 (model (world d')) = Some (mkCommentedTime 25 "z" 1, true))
  /\ editMarker 10 10 "" (-1) sampleDoc = Some (true, sampleDoc).
Proof.
  assert (Hwf : wf (world sampleDoc)) by (apply wf_check_sound; vm_compute; reflexivity).
  destruct (editMarker_defaults sampleDoc 10 0 (mkCommentedTime 10 "a" 0)
              Hwf eq_refl eq_refl) as (Hc & _ & Hn).
  destruct (editMarker_defaults sampleDoc 20 1 (mkCommentedTime 20 "b" 1)
              Hwf eq_refl eq_refl) as (_ & Ht & _).
  split; [exact (Hc 15 4 eq_refl)|].
  split; [exact (Ht 25 "z"%string)|].
  apply Hn; left; reflexivity.
Defined.

(** ** importFromJson: one record at a time *)

Lemma entry_type_in_palette obj : in_palette (entry_type obj) = true.
Proof.
  unfold entry_type, in_palette, markerTypes_size.
  destruct (Z.ltb_spec (toInt 0 (field "type" obj)) 0); simpl.
  - reflexivity.
  - destruct (Z.geb_spec (toInt 0 (field "type" obj)) 9); simpl.
    + reflexivity.
    + apply andb_true_iff. split; [apply Z.leb_le | apply Z.ltb_lt]; lia.
Qed.

Lemma markerAt_Some w pos c :
  wf w -> markerAt pos w = Some c ->
  exists mid, positions w !! pos = Some mid
              /\ StdMap.find mid (markers w) = Some c
              /\ time c = pos
              /\ hasMarker pos (model w) = true
              /\ marker pos (model w) = Some c.
Proof.
  intros Hwf. unfold markerAt.
  destruct (positions w !! pos) as [mid|] eqn:Hp; [|discriminate]. simpl.
  intros Hf. exists mid.
  destruct (wf_marker_at _ _ _ Hwf Hp) as (c' & Hf' & Ht & Hmid).
  assert (c' = c) by congruence. subst c'.
  split; [reflexivity|]. split; [exact Hf|]. split; [exact Ht|].
  split; [apply (hasMarker_true _ _ _ Hp)|].
  apply (marker_run _ _ _ _ Hp Hmid Hf).
Qed.

Lemma markerAt_None w pos :
  wf w -> markerAt pos w = None -> positions w !! pos = None.
Proof.
  intros Hwf. unfold markerAt.
  destruct (positions w !! pos) as [mid|] eqn:Hp; [|reflexivity]. simpl.
  destruct (wf_marker_at _ _ _ Hwf Hp) as (c' & Hf' & _). congruence.
Qed.

Lemma same_lists_refl w : same_lists w w.
Proof. split; reflexivity. Qed.

Lemma restores_true w : restores Fun_true w w.
Proof. intros w' Hs. exists w'. split; [reflexivity | exact Hs]. Qed.

Lemma restores_step undo redo local_undo local_redo w w1 w0 :
  restores undo w w0 ->
  (forall w', same_lists w' w1 ->
     exists w'', local_undo w' = Some (true, w'') /\ same_lists w'' w) ->
  restores (fst (UPDATE_UNDO_REDO local_redo local_undo undo redo)) w1 w0.
Proof.
  intros Hres Hloc w' Hs. simpl.
  destruct (Hloc w' Hs) as (w2 & Hrun & Hs2). rewrite Hrun. simpl.
  destruct (Hres w2 Hs2) as (w3 & Hrun3 & Hs3). rewrite Hrun3. simpl.
  exists w3. split; [reflexivity | exact Hs3].
Qed.

(** the loop on a record that carries a position *)
Lemma import_loop_record obj rest ic undo redo w :
  contains "pos" obj = true ->
  importFromJson_loop (EObject obj :: rest) ic undo redo w =
    res ← (if negb ic && hasMarker (entry_pos obj) (model w) then
             oldMarker ← marker (entry_pos obj) (model w);
             Some (String.eqb (comment oldMarker) (entry_comment obj)
                   && (entry_type obj =? markerType oldMarker))
           else Some true);
    '(res, undo1, redo1, w1) ←
      (if (res : bool)
       then addMarker_u (entry_pos obj) (entry_comment obj) (entry_type obj) undo redo w
       else Some (false, undo, redo, w));
    if negb (res : bool) then
      '(undone, w2) ← (undo1 : Fun) w1;
      _ ← Q_ASSERT undone;
      Some (false, undo1, redo1, w2)
    else importFromJson_loop rest ic undo1 redo1 w1.
Proof. intros Hc. simpl. rewrite Hc. reflexivity. Qed.

Lemma import_loop_skip e rest ic undo redo w :
  malformed e ->
  importFromJson_loop (e :: rest) ic undo redo w =
    importFromJson_loop rest ic undo redo w.
Proof.
  destruct e as [obj|]; simpl; [|reflexivity].
  intros ->. reflexivity.
Qed.

Lemma put_id w : put w (markers w) (positions w) (next_id w) = w.
Proof. destruct w as [[g l p r] n h dm]. reflexivity. Qed.

(** a record equal to the stored marker: the world is untouched *)
Lemma import_loop_duplicate obj rest ic undo redo w c :
  wf w -> contains "pos" obj = true ->
  markerAt (entry_pos obj) w = Some c ->
  comment c = entry_comment obj -> markerType c = entry_type obj ->
  importFromJson_loop (EObject obj :: rest) ic undo redo w =
    importFromJson_loop rest ic
      (fst (UPDATE_UNDO_REDO
              (changeComment_lambda (entry_pos obj) (entry_comment obj) (entry_type obj))
              (changeComment_lambda (entry_pos obj) (comment c) (markerType c))
              undo redo))
      (snd (UPDATE_UNDO_REDO
              (changeComment_lambda (entry_pos obj) (entry_comment obj) (entry_type obj))
              (changeComment_lambda (entry_pos obj) (comment c) (markerType c))
              undo redo))
      w.
Proof.
  intros Hwf Hc Hat Hcm Hty.
  destruct (markerAt_Some _ _ _ Hwf Hat) as (mid & Hp & Hf & Ht & Hhas & Hmk).
  rewrite (import_loop_record _ _ _ _ _ _ Hc).
  rewrite Hhas, Hmk.
  assert (Hres : (String.eqb (comment c) (entry_comment obj)
                  && (entry_type obj =? markerType c)) = true).
  { rewrite Hcm, Hty, String.eqb_refl, Z.eqb_refl. reflexivity. }
  assert (Hpal : in_palette (resolve_type w (entry_type obj)) = true).
  { rewrite resolve_in_palette; apply entry_type_in_palette. }
  pose proof (addMarker_u_rename w (entry_pos obj) (entry_comment obj) (entry_type obj)
                undo redo mid c Hwf Hp Hf Hpal) as Hrun.
  rewrite (resolve_in_palette _ _ (entry_type_in_palette obj)) in Hrun.
  assert (Hsame : StdMap.insert mid
                    (mkCommentedTime (entry_pos obj) (entry_comment obj) (entry_type obj))
                    (markers w) = markers w).
  { apply insert_id; [apply (wf_sorted _ Hwf)|].
    rewrite Hf, <- Ht, <- Hcm, <- Hty. destruct c; reflexivity. }
  rewrite Hsame, put_id in Hrun.
  destruct ic; simpl; rewrite ?Hres; simpl; rewrite Hrun; reflexivity.
Qed.

(** a record that meets no marker at its position: a marker is created *)
Lemma import_loop_new obj rest ic undo redo w :
  wf w -> contains "pos" obj = true ->
  markerAt (entry_pos obj) w = None ->
  exists local_undo local_redo w1,
    importFromJson_loop (EObject obj :: rest) ic undo redo w =
      importFromJson_loop rest ic
        (fst (UPDATE_UNDO_REDO local_redo local_undo undo redo))
        (snd (UPDATE_UNDO_REDO local_redo local_undo undo redo)) w1
    /\ wf w1
    /\ markers w1 =
         markers w ++ [(next_id w, mkCommentedTime (entry_pos obj)
                                     (entry_comment obj) (entry_type obj))]
    /\ (forall f, markerAt f w1 =
          if f =? entry_pos obj
          then Some (mkCommentedTime (entry_pos obj) (entry_comment obj) (entry_type obj))
          else markerAt f w)
    /\ (forall w', same_lists w' w1 ->
          exists w'', local_undo w' = Some (true, w'') /\ same_lists w'' w).
Proof.
  intros Hwf Hc Hat.
  pose proof (markerAt_None _ _ Hwf Hat) as Hp.
  assert (Hpal : in_palette (resolve_type w (entry_type obj)) = true).
  { rewrite resolve_in_palette; apply entry_type_in_palette. }
  destruct (addMarker_u_spec w (entry_pos obj) (entry_comment obj) (entry_type obj)
              undo redo Hwf Hpal)
    as (lu & lr & w1 & Hrun & Hwf1 & Hat1 & _ & _ & Hinv).
  pose proof (addMarker_u_add w (entry_pos obj) (entry_comment obj) (entry_type obj)
                undo redo Hp Hpal) as Hrun'.
  rewrite Hrun in Hrun'. injection Hrun' as _ _ Hw1.
  rewrite (resolve_in_palette _ _ (entry_type_in_palette obj)) in Hat1, Hw1.
  exists lu, lr, w1.
  split.
  { rewrite (import_loop_record _ _ _ _ _ _ Hc).
    rewrite (hasMarker_false _ _ Hp), andb_false_r. simpl.
    rewrite Hrun. reflexivity. }
  split; [exact Hwf1|]. split; [|split; [exact Hat1 | exact Hinv]].
  rewrite Hw1. unfold addSnapPoint. rewrite snapNotify_markers, put_markers.
  apply insert_last, wf_below, Hwf.
Qed.

Lemma conflicting_preserved w w1 pos m e :
  (forall f, markerAt f w1 = if f =? pos then Some m else markerAt f w) ->
  markerAt pos w = None \/ markerAt pos w = Some m ->
  conflicting w e -> conflicting w1 e.
Proof.
  intros Hat Hpos. destruct e as [obj|]; simpl; [|tauto].
  intros (Hc & c & Hm & Hdiff). split; [exact Hc|].
  exists c. split; [|exact Hdiff].
  rewrite Hat. destruct (Z.eqb_spec (entry_pos obj) pos) as [Heq|Hne]; [|exact Hm].
  rewrite Heq in Hm. destruct Hpos as [Hnone|Hsome]; congruence.
Qed.

(** ** importFromJson: a conflict aborts and rolls back *)

Lemma import_loop_abort entries : forall w undo redo w0,
  wf w -> restores undo w w0 ->
  Exists (conflicting w) entries ->
  exists undo' redo' w',
    importFromJson_loop entries false undo redo w = Some (false, undo', redo', w')
    /\ same_lists w' w0.
Proof.
  induction entries as [|e rest IH]; intros w undo redo w0 Hwf Hres Hex.
  { inversion Hex. }
  destruct e as [obj|].
  2:{ rewrite import_loop_skip by exact I.
      apply IH; [exact Hwf | exact Hres|].
      inversion Hex as [? ? Hhd|]; subst; [destruct Hhd | assumption]. }
  destruct (contains "pos" obj) eqn:Hc.
  2:{ rewrite import_loop_skip by exact Hc.
      apply IH; [exact Hwf | exact Hres|].
      inversion Hex as [? ? Hhd|]; subst; [|assumption].
      destruct Hhd as [Hc' _]. congruence. }
  destruct (markerAt (entry_pos obj) w) as [c|] eqn:Hat.
  - destruct (markerAt_Some _ _ _ Hwf Hat) as (mid & Hp & Hf & Ht & Hhas & Hmk).
    destruct (String.eqb (comment c) (entry_comment obj)
              && (entry_type obj =? markerType c)) eqn:Hsame.
    + (* an identical duplicate: go on *)
      apply andb_true_iff in Hsame as [Hcm Hty].
      apply String.eqb_eq in Hcm. apply Z.eqb_eq in Hty. symmetry in Hty.
      rewrite (import_loop_duplicate _ _ _ _ _ _ _ Hwf Hc Hat Hcm Hty).
      apply IH; [exact Hwf | |].
      * eapply restores_step; [exact Hres|].
        intros w' [Hm' Hp'].
        eexists. split.
        -- eapply changeComment_run; [rewrite Hp'; exact Hp | rewrite Hm'; exact Hf].
        -- split; simpl; [|exact Hp'].
           rewrite Hm'. apply insert_id; [apply (wf_sorted _ Hwf)|].
           rewrite Hf. destruct c; reflexivity.
      * inversion Hex as [? ? Hhd|]; subst; [|assumption].
        destruct Hhd as (_ & c' & Hat' & Hdiff).
        assert (c' = c) by congruence. subst c'. destruct Hdiff; congruence.
    + (* a conflict: roll back *)
      rewrite (import_loop_record _ _ _ _ _ _ Hc).
      rewrite Hhas, Hmk. simpl. rewrite Hsame. simpl.
      destruct (Hres w (same_lists_refl w)) as (w2 & Hrun & Hs2).
      rewrite Hrun. simpl.
      exists undo, redo, w2. split; [reflexivity | exact Hs2].
  - destruct (import_loop_new obj rest false undo redo w Hwf Hc Hat)
      as (lu & lr & w1 & Hrun & Hwf1 & _ & Hat1 & Hinv).
    rewrite Hrun. apply IH; [exact Hwf1 | |].
    + eapply restores_step; [exact Hres | exact Hinv].
    + inversion Hex as [? ? Hhd|? ? Htl]; subst.
      * destruct Hhd as (_ & c' & Hat' & _). congruence.
      * eapply Exists_impl; [exact Htl|].
        intros e He. eapply conflicting_preserved; [exact Hat1 | left; exact Hat | exact He].
Qed.

Lemma import_loop_congr e rest1 rest2 ic :
  (forall undo redo w,
     importFromJson_loop rest1 ic undo redo w = importFromJson_loop rest2 ic undo redo w) ->
  forall undo redo w,
    importFromJson_loop (e :: rest1) ic undo redo w =
    importFromJson_loop (e :: rest2) ic undo redo w.
Proof.
  intros Hrest undo redo w. destruct e as [obj|]; simpl; [|apply Hrest].
  destruct (contains "pos" obj); simpl; [|apply Hrest].
  match goal with
  | |- (?c ≫= ?k1) = (?c ≫= ?k2) => destruct c as [res|]; [|reflexivity]
  end.
  simpl.
  match goal with
  | |- (?c ≫= ?k1) = (?c ≫= ?k2) => destruct c as [[[[r u] re] w1]|]; [|reflexivity]
  end.
  simpl. destruct r; simpl; [apply Hrest | reflexivity].
Qed.

Lemma import_loop_skip_middle pre e rest ic :
  malformed e ->
  forall undo redo w,
    importFromJson_loop (pre ++ e :: rest) ic undo redo w =
    importFromJson_loop (pre ++ rest) ic undo redo w.
Proof.
  intros Hbad. induction pre as [|h pre IH]; intros undo redo w.
  - apply import_loop_skip, Hbad.
  - rewrite <- !app_comm_cons. apply import_loop_congr, IH.
Qed.

(** C2. [importFromJson] with [ignoreConflicts = false] on a well-formed
    list. If some record of the array carries a position that holds a
    marker with another comment or another type, the import answers false
    and both containers of the list are what they were. A record equal to
    the marker at its position changes nothing: alone it imports with
    answer true, and inside an array the loop goes on from the same world.
    A record that is not an object or has no position is skipped: the
    import behaves as if the record were not in the array. *)
Theorem importFromJson_conflicts (d : Doc) (pushUndo : bool) :
  wf (world d) ->
  (forall entries,
     Exists (conflicting (world d)) entries ->
     exists d',
       importFromJson (DocArray entries) false pushUndo d = Some (false, d')
       /\ markers (world d') = markers (world d)
       /\ positions (world d') = positions (world d))
  /\
  (forall e,
     duplicate (world d) e ->
     (exists d',
        importFromJson (DocArray [e]) false pushUndo d = Some (true, d')
        /\ world d' = world d)
     /\ (forall rest undo redo, exists undo1 redo1,
           importFromJson_loop (e :: rest) false undo redo (world d) =
           importFromJson_loop rest false undo1 redo1 (world d)))
  /\
  (forall pre e rest ignoreConflicts,
     malformed e ->
     importFromJson (DocArray (pre ++ e :: rest)) ignoreConflicts pushUndo d =
     importFromJson (DocArray (pre ++ rest)) ignoreConflicts pushUndo d).
Proof.
  intros Hwf. split; [|split].
  - intros entries Hex.
    destruct (import_loop_abort entries (world d) Fun_true Fun_true (world d)
                Hwf (restores_true _) Hex) as (undo' & redo' & w' & Hrun & Hm & Hp).
    unfold importFromJson, importFromJson_u. rewrite Hrun. simpl.
    destruct pushUndo; eexists; (split; [reflexivity|]); split; assumption.
  - intros [obj|] Hdup; [|destruct Hdup].
    destruct Hdup as (Hc & c & Hat & Hcm & Hty).
    split.
    + unfold importFromJson, importFromJson_u.
      rewrite (import_loop_duplicate _ _ _ _ _ _ _ Hwf Hc Hat Hcm Hty). simpl.
      destruct pushUndo; eexists; (split; [reflexivity|]); reflexivity.
    + intros rest undo redo. do 2 eexists.
      apply (import_loop_duplicate _ _ _ _ _ _ _ Hwf Hc Hat Hcm Hty).
  - intros pre e rest ic Hbad. unfold importFromJson, importFromJson_u.
    rewrite (import_loop_skip_middle _ _ _ _ Hbad). reflexivity.
Qed.

Lemma importFromJson_conflicts_witness :
  (exists d',
     importFromJson
       (DocArray [EObject (currentMarker (mkCommentedTime 30 "n" 2));
                  EObject (currentMarker (mkCommentedTime 10 "x" 0))])
       false true sampleDoc = Some (false, d')
     /\ markers (world d') = markers (world sampleDoc)
     /\ positions (world d') = positions (world sampleDoc))
  /\ (exists d',
        importFromJson (DocArray [EObject (currentMarker (mkCommentedTime 20 "b" 1))])
          false true sampleDoc = Some (true, d')
        /\ world d' = world sampleDoc)
  /\ importFromJson
       (DocArray ([ENotObject] ++ EObject ∅ :: [EObject (currentMarker (mkCommentedTime 30 "n" 2))]))
       false true sampleDoc
     = importFromJson
         (DocArray ([ENotObject] ++ [EObject (currentMarker (mkCommentedTime 30 "n" 2))]))
         false true sampleDoc.
Proof.
  assert (Hwf : wf (world sampleDoc)) by (apply wf_check_sound; vm_compute; reflexivity).
  destruct (importFromJson_conflicts sampleDoc true Hwf) as (Habort & Hdup & Hskip).
  split; [|split].
  - apply Habort. apply Exists_cons_tl, Exists_cons_hd.
    split; [reflexivity|].
    exists (mkCommentedTime 10 "a" 0). split; [reflexivity|].
    left. discriminate.
  - apply (Hdup (EObject (currentMarker (mkCommentedTime 20 "b" 1)))).
    split; [reflexivity|].
    exists (mkCommentedTime 20 "b" 1). split; [reflexivity|]. split; reflexivity.
  - apply Hskip. reflexivity.
Defined.

(** ** importFromJson: a type outside the palette *)

Lemma entry_type_forced obj t :
  field "type" obj = JInt t ->
  t < 0 \/ markerTypes_size <= t ->
  entry_type obj = 0.
Proof.
  unfold entry_type, markerTypes_size. intros Hfield Hout. rewrite Hfield.
  unfold toInt. destruct (fits_int t); [|reflexivity].
  destruct (Z.ltb_spec t 0); simpl; [reflexivity|].
  destruct (Z.geb_spec t 9); simpl; [reflexivity | lia].
Qed.

Lemma import_loop_same_record obj obj' rest ic undo redo w :
  contains "pos" obj' = contains "pos" obj ->
  entry_pos obj' = entry_pos obj ->
  entry_comment obj' = entry_comment obj ->
  entry_type obj' = entry_type obj ->
  importFromJson_loop (EObject obj' :: rest) ic undo redo w =
  importFromJson_loop (EObject obj :: rest) ic undo redo w.
Proof.
  intros Hc Hp Hm Ht. destruct (contains "pos" obj) eqn:Hpos.
  - rewrite !import_loop_record by congruence. rewrite Hp, Hm, Ht. reflexivity.
  - rewrite !import_loop_skip by (simpl; congruence). reflexivity.
Qed.

Lemma import_loop_replace pre e e' rest ic :
  (forall undo redo w,
     importFromJson_loop (e :: rest) ic undo redo w =
     importFromJson_loop (e' :: rest) ic undo redo w) ->
  forall undo redo w,
    importFromJson_loop (pre ++ e :: rest) ic undo redo w =
    importFromJson_loop (pre ++ e' :: rest) ic undo redo w.
Proof.
  intros Hhd. induction pre as [|h pre IH]; intros undo redo w.
  - apply Hhd.
  - rewrite <- !app_comm_cons. apply import_loop_congr, IH.
Qed.

(** C9. A record whose type field holds a number outside 0..8 is
    treated as the same record with type 0: wherever it stands in the
    array the import runs exactly as on the array with that field set to
    0. Imported alone into a well-formed list, it succeeds and its position
    then reads a marker of type 0 when conflicts are ignored, when its
    position is free, or when its position holds a marker with its comment
    and type 0; and with [ignoreConflicts = false] and a marker with
    another comment or a type other than 0 at its position the import
    answers false and leaves the list as it was. The position is the one
    [toInt] reads: 0 for a number that does not fit an [int]. *)
Theorem importFromJson_type_forced (obj : gmap string QJsonValue) (t : Z) :
  field "type" obj = JInt t ->
  t < 0 \/ markerTypes_size <= t ->
  (forall pre rest ignoreConflicts undo redo w,
     importFromJson_u (DocArray (pre ++ EObject obj :: rest))
       ignoreConflicts undo redo w =
     importFromJson_u (DocArray (pre ++ EObject (<["type" := JInt 0]> obj) :: rest))
       ignoreConflicts undo redo w)
  /\
  (forall d ignoreConflicts pushUndo,
     wf (world d) ->
     contains "pos" obj = true ->
     (ignoreConflicts = true
      \/ markerAt (entry_pos obj) (world d) = None
      \/ markerAt (entry_pos obj) (world d) =
           Some (mkCommentedTime (entry_pos obj) (entry_comment obj) 0) ->
      exists d',
        importFromJson (DocArray [EObject obj]) ignoreConflicts pushUndo d
          = Some (true, d')
        /\ getMarker (entry_pos obj) (model (world d')) =
             Some (mkCommentedTime (entry_pos obj) (entry_comment obj) 0, true))
     /\
     (ignoreConflicts = false ->
      forall c,
        markerAt (entry_pos obj) (world d) = Some c ->
        comment c <> entry_comment obj \/ markerType c <> 0 ->
        exists d',
          importFromJson (DocArray [EObject obj]) ignoreConflicts pushUndo d
            = Some (false, d')
          /\ world d' = world d)).
Proof.
  intros Hfield Hout. pose proof (entry_type_forced obj t Hfield Hout) as Hty. split.
  - intros pre rest ic undo redo w. simpl.
    apply import_loop_replace. clear undo redo w. intros undo redo w.
    symmetry. apply import_loop_same_record.
    + unfold contains. rewrite lookup_insert_ne by discriminate. reflexivity.
    + unfold entry_pos, field. rewrite lookup_insert_ne by discriminate. reflexivity.
    + unfold entry_comment, field. rewrite lookup_insert_ne by discriminate. reflexivity.
    + rewrite Hty. unfold entry_type, field. rewrite lookup_insert_eq. reflexivity.
  - intros d ic pu Hwf Hc. split.
    + intros Hcase.
      assert (Hadd : negb ic && hasMarker (entry_pos obj) (model (world d)) = false ->
                exists d',
                  importFromJson (DocArray [EObject obj]) ic pu d = Some (true, d')
                  /\ getMarker (entry_pos obj) (model (world d')) =
                       Some (mkCommentedTime (entry_pos obj) (entry_comment obj) 0, true)).
      { intros Hgate.
        assert (Hpal : in_palette (resolve_type (world d) (entry_type obj)) = true).
        { rewrite resolve_in_palette; apply entry_type_in_palette. }
        destruct (addMarker_u_spec (world d) (entry_pos obj) (entry_comment obj)
                    (entry_type obj) Fun_true Fun_true Hwf Hpal)
          as (lu & lr & w1 & Hrun & Hwf1 & Hat1 & _).
        unfold importFromJson, importFromJson_u.
        rewrite (import_loop_record _ _ _ _ _ _ Hc).
        rewrite Hgate. simpl. rewrite Hrun. simpl.
        assert (Hget : getMarker (entry_pos obj) (model w1) =
                       Some (mkCommentedTime (entry_pos obj) (entry_comment obj) 0, true)).
        { rewrite (getMarker_markerAt _ _ Hwf1), Hat1, Z.eqb_refl.
          rewrite (resolve_in_palette _ _ (entry_type_in_palette obj)), Hty. reflexivity. }
        destruct pu; eexists; (split; [reflexivity | exact Hget]). }
      destruct Hcase as [Hic | [Hfree | Hsame]].
      * apply Hadd. rewrite Hic. reflexivity.
      * apply Hadd. rewrite (hasMarker_false _ _ (markerAt_None _ _ Hwf Hfree)).
        apply andb_false_r.
      * unfold importFromJson, importFromJson_u.
        rewrite (import_loop_duplicate obj [] ic Fun_true Fun_true (world d) _ Hwf Hc Hsame
                   eq_refl (eq_sym Hty)).
        simpl.
        assert (Hget : getMarker (entry_pos obj) (model (world d)) =
                       Some (mkCommentedTime (entry_pos obj) (entry_comment obj) 0, true)).
        { rewrite (getMarker_markerAt _ _ Hwf), Hsame. reflexivity. }
        destruct pu; eexists; (split; [reflexivity | exact Hget]).
    + intros Hic c Hat Hdiff. subst ic.
      destruct (markerAt_Some _ _ _ Hwf Hat) as (mid & _ & _ & _ & Hhas & Hmk).
      assert (Hcmp : String.eqb (comment c) (entry_comment obj)
                     && (entry_type obj =? markerType c) = false).
      { rewrite Hty. apply andb_false_iff. destruct Hdiff as [Hcm | Htp].
        - left. apply String.eqb_neq. exact Hcm.
        - right. apply Z.eqb_neq. congruence. }
      unfold importFromJson, importFromJson_u.
      rewrite (import_loop_record _ _ _ _ _ _ Hc).
      rewrite Hhas, Hmk. simpl. rewrite Hcmp. simpl.
      destruct pu; eexists; (split; [reflexivity | reflexivity]).
Qed.

Lemma importFromJson_type_forced_witness :
  importFromJson_u
    (DocArray ([ENotObject] ++ EObject (currentMarker (mkCommentedTime 30 "n" 12)) :: []))
    false Fun_true Fun_true sampleWorld
  = importFromJson_u
      (DocArray ([ENotObject] ++ EObject (currentMarker (mkCommentedTime 30 "n" 0)) :: []))
      false Fun_true Fun_true sampleWorld
  /\ (exists d',
        importFromJson (DocArray [EObject (currentMarker (mkCommentedTime 30 "n" (-4)))])
          false true sampleDoc = Some (true, d')
        /\ getMarker 30 (model (world d')) = Some (mkCommentedTime 30 "n" 0, true))
  /\ (exists d',
        importFromJson
          (DocArray [EObject (<["type" := JInt 12]>
                             (<["comment" := JString "b"]>
                                (<["pos" := JInt 3000000000]> ∅)))])
          false true sampleDoc = Some (true, d')
        /\ getMarker 0 (model (world d')) = Some (mkCommentedTime 0 "b" 0, true))
  /\ (exists d',
        importFromJson (DocArray [EObject (currentMarker (mkCommentedTime 20 "b" 12))])
          false true sampleDoc = Some (false, d')
        /\ world d' = world sampleDoc).
Proof.
  assert (Hwf : wf (world sampleDoc)) by (apply wf_check_sound; vm_compute; reflexivity).
  split; [|split; [|split]].
  - destruct (importFromJson_type_forced
                (currentMarker (mkCommentedTime 30 "n" 12)) 12 eq_refl)
      as [Heq _]; [right; vm_compute; discriminate|].
    apply (Heq [ENotObject] [] false Fun_true Fun_true sampleWorld).
  - destruct (importFromJson_type_forced
                (currentMarker (mkCommentedTime 30 "n" (-4))) (-4) eq_refl)
      as [_ Hrun]; [left; vm_compute; reflexivity|].
    destruct (Hrun sampleDoc false true Hwf eq_refl) as [Hadd _].
    apply Hadd. right. left. reflexivity.
  - pose (far := <["type" := JInt 12]>
                    (<["comment" := JString "b"]>
                       (<["pos" := JInt 3000000000]> (∅ : gmap string QJsonValue)))).
    destruct (importFromJson_type_forced far 12 eq_refl)
      as [_ Hrun]; [right; vm_compute; discriminate|].
    destruct (Hrun sampleDoc false true Hwf eq_refl) as [Hadd _].
    apply Hadd. right. left. reflexivity.
  - destruct (importFromJson_type_forced
                (currentMarker (mkCommentedTime 20 "b" 12)) 12 eq_refl)
      as [_ Hrun]; [right; vm_compute; discriminate|].
    destruct (Hrun sampleDoc false true Hwf eq_refl) as [_ Hfail].
    apply (Hfail eq_refl (mkCommentedTime 20 "b" 1) eq_refl). right. discriminate.
Defined.

(** C9 as stated fails: on the list with the guide "b" of type 1 at frame
    20, importing the record (20, "b", 12) with [ignoreConflicts = false]
    forces the type to 0, finds it differs from the stored type, and
    answers false with the list as it was; the record is not imported. *)
Lemma importFromJson_type_forced_counterexample :
  (exists d',
     importFromJson (DocArray [EObject (currentMarker (mkCommentedTime 20 "b" 12))])
       false false sampleDoc = Some (false, d')
     /\ getMarker 20 (model (world d')) = Some (mkCommentedTime 20 "b" 1, true))
  /\ ~ type_forced_imports sampleDoc (currentMarker (mkCommentedTime 20 "b" 12)) false.
Proof.
  assert (Hrun : exists d',
             importFromJson
               (DocArray [EObject (currentMarker (mkCommentedTime 20 "b" 12))])
               false false sampleDoc = Some (false, d')
             /\ getMarker 20 (model (world d')) = Some (mkCommentedTime 20 "b" 1, true)).
  { eexists. split; [vm_compute; reflexivity | reflexivity]. }
  split; [exact Hrun|].
  intros Hclaim.
  destruct (Hclaim eq_refl) as (d1 & Himp & _).
  { exists 12. split; [reflexivity | right; vm_compute; discriminate]. }
  destruct Hrun as (d' & Hrun & _). rewrite Hrun in Himp. discriminate.
Qed.

(** ** toJson and the round trip *)

Lemma currentMarker_pos c : contains "pos" (currentMarker c) = true.
Proof. reflexivity. Qed.

Lemma currentMarker_entry_pos c :
  fits_int (time c) = true -> entry_pos (currentMarker c) = time c.
Proof.
  intros Hfit. unfold entry_pos.
  change (field "pos" (currentMarker c)) with (JInt (time c)).
  unfold toInt. rewrite Hfit. reflexivity.
Qed.

Lemma currentMarker_entry_comment c : entry_comment (currentMarker c) = comment c.
Proof. reflexivity. Qed.

Lemma currentMarker_entry_type c :
  in_palette (markerType c) = true -> entry_type (currentMarker c) = markerType c.
Proof.
  unfold in_palette, markerTypes_size. rewrite andb_true_iff, Z.leb_le, Z.ltb_lt.
  intros [Hlo Hhi]. unfold entry_type.
  change (field "type" (currentMarker c)) with (JInt (markerType c)).
  assert (Hfit : fits_int (markerType c) = true).
  { unfold fits_int, INT_MIN, INT_MAX. apply andb_true_iff.
    rewrite !Z.leb_le. unfold markerTypes_size in Hhi. lia. }
  unfold toInt. rewrite Hfit. unfold markerTypes_size.
  destruct (Z.ltb_spec (markerType c) 0); [lia|].
  destruct (Z.geb_spec (markerType c) 9); [lia | reflexivity].
Qed.

Lemma NoDup_times (l : list (Z * CommentedTime)) :
  StdMap.sorted l = true ->
  (forall k1 k2 c1 c2, StdMap.find k1 l = Some c1 -> StdMap.find k2 l = Some c2 ->
                       time c1 = time c2 -> k1 = k2) ->
  List.NoDup (map (fun e => time (snd e)) l).
Proof.
  induction l as [|[k c] r IH]; intros Hs Hinj; simpl; [constructor|].
  pose proof Hs as Hs0. apply sorted_cons in Hs as [Ha Hs].
  assert (Hin : forall k' c', In (k', c') r ->
                  k < k' /\ StdMap.find k' ((k, c) :: r) = Some c').
  { intros k' c' Hin.
    assert (Hlt : k < k').
    { unfold above in Ha. rewrite Forall_forall in Ha.
      apply list_elem_of_In, Ha in Hin. exact Hin. }
    split; [exact Hlt|]. apply In_find; [exact Hs0 | right; exact Hin]. }
  constructor.
  - intros Hmem. apply in_map_iff in Hmem as [[k' c'] [Ht Hr]]. simpl in Ht.
    destruct (Hin _ _ Hr) as [Hlt Hf].
    assert (k' = k); [|lia].
    eapply Hinj; [exact Hf | | exact Ht].
    simpl. rewrite Z.eqb_refl. reflexivity.
  - apply IH; [exact Hs|].
    intros k1 k2 c1 c2 H1 H2 Ht.
    apply find_Some_In in H1, H2.
    destruct (Hin _ _ H1) as [_ H1']. destruct (Hin _ _ H2) as [_ H2'].
    eapply Hinj; eassumption.
Qed.

Lemma wf_NoDup_times w :
  wf w -> List.NoDup (map time (map snd (markers w))).
Proof.
  intros Hwf. rewrite map_map. apply NoDup_times; [apply (wf_sorted _ Hwf)|].
  intros k1 k2 c1 c2. apply (wf_unique_position _ _ _ _ _ Hwf).
Qed.

(** importing markers at free, pairwise distinct frames appends them in order *)
Lemma import_loop_fresh cs : forall ic undo redo w,
  wf w -> List.NoDup (map time cs) ->
  (forall c, In c cs -> fits_int (time c) = true) ->
  (forall c, In c cs -> in_palette (markerType c) = true /\ markerAt (time c) w = None) ->
  exists undo' redo' w',
    importFromJson_loop (map (fun c => EObject (currentMarker c)) cs) ic undo redo w
      = Some (true, undo', redo', w')
    /\ wf w'
    /\ map snd (markers w') = map snd (markers w) ++ cs.
Proof.
  induction cs as [|c cs IH]; intros ic undo redo w Hwf Hnd Hfit Hok.
  - exists undo, redo, w. split; [reflexivity|]. split; [exact Hwf|].
    rewrite app_nil_r. reflexivity.
  - inversion Hnd as [|? ? Hnotin Hnd']; subst.
    destruct (Hok c (or_introl eq_refl)) as [Hpal Hfree].
    pose proof (currentMarker_entry_pos c (Hfit c (or_introl eq_refl))) as Hpos.
    simpl map.
    rewrite <- Hpos in Hfree.
    destruct (import_loop_new (currentMarker c)
                (map (fun c => EObject (currentMarker c)) cs) ic undo redo w Hwf
                (currentMarker_pos c) Hfree)
      as (lu & lr & w1 & Hrun & Hwf1 & Hm1 & Hat1 & _).
    rewrite Hpos, currentMarker_entry_comment,
      (currentMarker_entry_type _ Hpal) in Hm1, Hat1.
    rewrite Hrun.
    destruct (IH ic (fst (UPDATE_UNDO_REDO lr lu undo redo))
                (snd (UPDATE_UNDO_REDO lr lu undo redo)) w1 Hwf1 Hnd')
      as (undo' & redo' & w' & Hrun' & Hwf' & Hm').
    { intros c2 Hin2. apply Hfit. right. exact Hin2. }
    { intros c2 Hin2. destruct (Hok c2 (or_intror Hin2)) as [Hpal2 Hfree2].
      split; [exact Hpal2|]. rewrite Hat1.
      destruct (Z.eqb_spec (time c2) (time c)) as [Heq|Hne]; [|exact Hfree2].
      exfalso. apply Hnotin. rewrite <- Heq. apply in_map. exact Hin2. }
    exists undo', redo', w'. split; [exact Hrun'|]. split; [exact Hwf'|].
    rewrite Hm', Hm1, map_app. simpl. rewrite <- app_assoc.
    destruct c; reflexivity.
Qed.

(** importing records that all equal the marker at their frame changes nothing *)
Lemma import_loop_all_duplicates cs : forall ic undo redo w,
  wf w ->
  (forall c, In c cs -> fits_int (time c) = true) ->
  (forall c, In c cs -> markerAt (time c) w = Some c) ->
  exists undo' redo',
    importFromJson_loop (map (fun c => EObject (currentMarker c)) cs) ic undo redo w
      = Some (true, undo', redo', w).
Proof.
  induction cs as [|c cs IH]; intros ic undo redo w Hwf Hfit Hall.
  - exists undo, redo. reflexivity.
  - pose proof (Hall c (or_introl eq_refl)) as Hat.
    destruct (markerAt_Some _ _ _ Hwf Hat) as (mid & _ & Hf & _).
    pose proof (wf_types _ Hwf _ _ Hf) as Hpal.
    pose proof (currentMarker_entry_pos c (Hfit c (or_introl eq_refl))) as Hpos.
    rewrite <- Hpos in Hat.
    simpl map.
    rewrite (import_loop_duplicate (currentMarker c) _ ic undo redo w c Hwf
               (currentMarker_pos c) Hat eq_refl
               (eq_sym (currentMarker_entry_type c Hpal))).
    apply IH; [exact Hwf | |].
    + intros c2 Hin. apply Hfit. right. exact Hin.
    + intros c2 Hin. apply Hall. right. exact Hin.
Qed.

Lemma toJson_records (l : list (Z * CommentedTime)) i id c :
  l !! i = Some (id, c) ->
  map (fun e => EObject (currentMarker (snd e))) l !! i
    = Some (EObject (currentMarker c)).
Proof.
  revert i. induction l as [|e r IH]; intros [|i]; simpl; try discriminate.
  - intros [= ->]. reflexivity.
  - apply IH.
Qed.

(** C5. For a well-formed list: [toJson] writes one record per stored
    marker, in storage order, the i-th record carrying the frame, comment
    and type of the i-th stored marker; a marker added at a free frame
    goes last in storage whatever its frame, so the order written is the
    order of insertion and not the order of time (the list [unsortedWorld]
    is written with frame 20 before frame 10); and importing the written
    document into an empty list succeeds and stores markers with the same
    frame, comment and type, in the same order; importing it into the
    list it was written from succeeds and changes nothing. The two imports
    are stated for stored frames that fit an [int], the type in which
    [toJson] takes them and [importFromJson] reads them. *)
Theorem toJson_roundtrip (w : World) :
  wf w ->
  (exists entries,
     toJson (model w) = DocArray entries
     /\ length entries = length (markers w)
     /\ forall i id c,
          markers w !! i = Some (id, c) ->
          exists obj,
            entries !! i = Some (EObject obj)
            /\ field "pos" obj = JInt (time c)
            /\ field "comment" obj = JString (comment c)
            /\ field "type" obj = JInt (markerType c))
  /\
  (forall pos cmt ty undo redo,
     hasMarker pos (model w) = false ->
     in_palette (resolve_type w ty) = true ->
     exists undo1 redo1 w1,
       addMarker_u pos cmt ty undo redo w = Some (true, undo1, redo1, w1)
       /\ markers w1 =
            markers w ++ [(next_id w, mkCommentedTime pos cmt (resolve_type w ty))])
  /\
  (exists e1 e2,
     toJson (model unsortedWorld) = DocArray [EObject e1; EObject e2]
     /\ field "pos" e1 = JInt 20 /\ field "pos" e2 = JInt 10)
  /\
  (forall d0 ignoreConflicts pushUndo,
     frames_fit_int w ->
     wf (world d0) -> markers (world d0) = [] ->
     exists d',
       importFromJson (toJson (model w)) ignoreConflicts pushUndo d0 = Some (true, d')
       /\ map snd (markers (world d')) = map snd (markers w)
       /\ wf (world d'))
  /\
  (forall d ignoreConflicts,
     frames_fit_int w ->
     world d = w ->
     importFromJson (toJson (model w)) ignoreConflicts false d = Some (true, d)).
Proof.
  intros Hwf. split; [|split; [|split; [|split]]].
  - eexists. split; [reflexivity|]. split; [apply length_map|].
    intros i id c Hi. exists (currentMarker c).
    split; [apply (toJson_records _ _ _ _ Hi)|]. repeat split.
  - intros pos cmt ty undo redo Hno Hty. apply hasMarker_None in Hno.
    do 3 eexists. split; [apply (addMarker_u_add _ _ _ _ _ _ Hno Hty)|].
    unfold addSnapPoint. rewrite snapNotify_markers, put_markers.
    apply insert_last, wf_below, Hwf.
  - do 2 eexists. split; [reflexivity|]. split; reflexivity.
  - intros d0 ic pu Hfit Hwf0 Hempty.
    destruct (import_loop_fresh (map snd (markers w)) ic Fun_true Fun_true (world d0)
                Hwf0 (wf_NoDup_times _ Hwf))
      as (undo' & redo' & w' & Hrun & Hwf' & Hm').
    { intros c Hin. apply in_map_iff in Hin as [[id c'] [Heq Hin]]. simpl in Heq. subst c'.
      unfold frames_fit_int in Hfit. rewrite Forall_forall in Hfit.
      apply list_elem_of_In, Hfit in Hin. exact Hin. }
    { intros c Hin. apply in_map_iff in Hin as [[id c'] [Heq Hin]]. simpl in Heq. subst c'.
      split.
      - eapply (wf_types _ Hwf), In_find; [apply (wf_sorted _ Hwf) | exact Hin].
      - unfold markerAt. rewrite Hempty.
        destruct (positions (world d0) !! time c); reflexivity. }
    rewrite map_map in Hrun. rewrite Hempty in Hm'. simpl in Hm'.
    unfold importFromJson, importFromJson_u, toJson. fold (markers w).
    rewrite Hrun. simpl.
    destruct pu; eexists; (split; [reflexivity|]); split; assumption.
  - intros d ic Hfit Hd. subst w.
    destruct (import_loop_all_duplicates (map snd (markers (world d))) ic
                Fun_true Fun_true (world d) Hwf) as (undo' & redo' & Hrun).
    { intros c Hin. apply in_map_iff in Hin as [[id c'] [Heq Hin]]. simpl in Heq. subst c'.
      unfold frames_fit_int in Hfit. rewrite Forall_forall in Hfit.
      apply list_elem_of_In, Hfit in Hin. exact Hin. }
    { intros c Hin. apply in_map_iff in Hin as [[id c'] [Heq Hin]]. simpl in Heq. subst c'.
      apply (In_find _ _ _ (wf_sorted _ Hwf)) in Hin.
      unfold markerAt, positions.
      rewrite (list_to_pos _ (wf_consistent _ Hwf) _ _ Hin). exact Hin. }
    rewrite map_map in Hrun.
    unfold importFromJson, importFromJson_u, toJson. fold (markers (world d)).
    rewrite Hrun. simpl. destruct d; reflexivity.
Qed.

Lemma toJson_roundtrip_witness :
  wf sampleWorld
  /\ (exists d',
        importFromJson (toJson (model sampleWorld)) false true (emptyDoc false)
          = Some (true, d')
        /\ map snd (markers (world d')) =
             [mkCommentedTime 10 "a" 0; mkCommentedTime 20 "b" 1])
  /\ (exists undo1 redo1 w1,
        addMarker_u 5 "early" 3 Fun_true Fun_true sampleWorld
          = Some (true, undo1, redo1, w1)
        /\ markers w1 = markers sampleWorld ++ [(2, mkCommentedTime 5 "early" 3)])
  /\ importFromJson (toJson (model sampleWorld)) false false sampleDoc
     = Some (true, sampleDoc).
Proof.
  assert (Hwf : wf sampleWorld) by (apply wf_check_sound; vm_compute; reflexivity).
  assert (Hwf0 : wf (world (emptyDoc false)))
    by (apply wf_check_sound; vm_compute; reflexivity).
  assert (Hfit : frames_fit_int sampleWorld) by (repeat constructor).
  destruct (toJson_roundtrip sampleWorld Hwf) as (_ & Hlast & _ & Hround & Hsame).
  split; [exact Hwf|]. split; [|split].
  - destruct (Hround (emptyDoc false) false true Hfit Hwf0 eq_refl) as (d' & Hrun & Hm & _).
    exists d'. split; [exact Hrun | exact Hm].
  - apply (Hlast 5 "early"%string 3 Fun_true Fun_true); reflexivity.
  - apply (Hsame sampleDoc false Hfit eq_refl).
Defined.

(** ** MoveableItem: identity *)

(** C7. The constructor of [MoveableItem] keeps an explicit id (any value
    but [-1]) and leaves the counter alone; with [-1] it takes the current
    value of the global counter, which then advances by one, so that the
    next item minted gets a greater id and no stored marker of a
    well-formed world carries the minted id; [getId] returns the id the
    constructor set, and no setter changes it. *)
Theorem MoveableItem_identity (parent : nat) (id : Z) (w : World) :
  (id <> -1 ->
     getId (fst (MoveableItem_new parent id w)) = id
     /\ snd (MoveableItem_new parent id w) = w)
  /\ getId (fst (MoveableItem_new parent (-1) w)) = next_id w
  /\ next_id (snd (MoveableItem_new parent (-1) w)) = next_id w + 1
  /\ model (snd (MoveableItem_new parent (-1) w)) = model w
  /\ (forall parent2,
        getId (fst (MoveableItem_new parent (-1) w))
        < getId (fst (MoveableItem_new parent2 (-1)
                        (snd (MoveableItem_new parent (-1) w)))))
  /\ (wf w ->
        StdMap.find (getId (fst (MoveableItem_new parent (-1) w))) (markers w) = None)
  /\ (forall it pos tid in_ out,
        getId (setPosition pos it) = getId it
        /\ getId (setCurrentTrackId tid it) = getId it
        /\ getId (setInOut in_ out it) = getId it).
Proof.
  split; [|split; [|split; [|split; [|split; [|split]]]]].
  - intros Hid. unfold MoveableItem_new.
    destruct (Z.eqb_spec id (-1)); [contradiction|]. split; reflexivity.
  - reflexivity.
  - reflexivity.
  - reflexivity.
  - intros parent2. simpl. lia.
  - intros Hwf. simpl. apply wf_fresh_id, Hwf.
  - intros it pos tid in_ out. repeat split.
Qed.

Lemma MoveableItem_identity_witness :
  getId (fst (MoveableItem_new 0 42 sampleWorld)) = 42
  /\ snd (MoveableItem_new 0 42 sampleWorld) = sampleWorld
  /\ getId (fst (MoveableItem_new 0 (-1) sampleWorld)) = 2
  /\ StdMap.find 2 (markers sampleWorld) = None.
Proof.
  assert (Hwf : wf sampleWorld) by (apply wf_check_sound; vm_compute; reflexivity).
  destruct (MoveableItem_identity 0 42 sampleWorld) as (Hkeep & _).
  destruct (MoveableItem_identity 0 (-1) sampleWorld)
    as (_ & Hmint & _ & _ & _ & Hfresh & _).
  destruct Hkeep as [Hid Hw]; [discriminate|].
  split; [exact Hid|]. split; [exact Hw|]. split; [exact Hmint|].
  exact (Hfresh Hwf).
Defined.

(** ** The operations of the public contract keep the invariant *)

Lemma wf_inv w : wf w -> inv w.
Proof. intros Hwf. split; [apply (wf_sorted _ Hwf) | apply (wf_consistent _ Hwf)]. Qed.

Lemma inv_same_lists w1 w2 : same_lists w1 w2 -> inv w2 -> inv w1.
Proof.
  intros [Hm Hp] [Hs [Hpl Hlp]]. unfold markers, positions in *.
  split; [unfold markers; rewrite Hm; exact Hs|].
  split; rewrite Hm, Hp; assumption.
Qed.

Lemma addMarker_u_wf w pos cmt ty undo redo b u r w1 :
  wf w -> addMarker_u pos cmt ty undo redo w = Some (b, u, r, w1) ->
  b = true /\ wf w1.
Proof.
  intros Hwf Hrun. destruct (in_palette (resolve_type w ty)) eqn:Hty.
  - destruct (addMarker_u_spec w pos cmt ty undo redo Hwf Hty)
      as (lu & lr & w1' & Hrun' & Hwf1 & _).
    rewrite Hrun' in Hrun. injection Hrun as <- _ _ <-. split; [reflexivity | exact Hwf1].
  - unfold addMarker_u in Hrun. fold (resolve_type w ty) in Hrun.
    rewrite Hty in Hrun. discriminate.
Qed.

Lemma removeMarker_u_wf w pos undo redo b u r w1 :
  wf w -> removeMarker_u pos undo redo w = Some (b, u, r, w1) ->
  wf w1 /\ b = hasMarker pos (model w) /\ (b = false -> u = undo /\ w1 = w).
Proof.
  intros Hwf Hrun. destruct (positions w !! pos) as [mid|] eqn:Hp.
  - destruct (wf_marker_at _ _ _ Hwf Hp) as (c & Hf & _).
    destruct (removeMarker_u_spec w pos undo redo mid c Hwf Hp Hf)
      as (w1' & Hrun' & Hwf1 & _).
    rewrite Hrun' in Hrun. injection Hrun as <- _ _ <-.
    rewrite (hasMarker_true _ _ _ Hp).
    split; [exact Hwf1|]. split; [reflexivity | discriminate].
  - rewrite (removeMarker_u_none _ _ _ _ Hp) in Hrun. injection Hrun as <- <- _ <-.
    rewrite (hasMarker_false _ _ Hp).
    split; [exact Hwf|]. split; [reflexivity|]. intros _. split; reflexivity.
Qed.

Lemma addMarker_wf d pos cmt ty b d' :
  wf (world d) -> addMarker pos cmt ty d = Some (b, d') -> wf (world d').
Proof.
  intros Hwf. unfold addMarker.
  destruct (addMarker_u _ _ _ _ _ _) as [[[[r u] re] w1]|] eqn:Hrun; [|discriminate].
  apply (addMarker_u_wf _ _ _ _ _ _ _ _ _ _ Hwf) in Hrun as [-> Hwf1]. simpl.
  destruct (hasMarker pos _); intros [= _ <-]; exact Hwf1.
Qed.

Lemma removeMarker_wf d pos b d' :
  wf (world d) -> removeMarker pos d = Some (b, d') -> wf (world d').
Proof.
  intros Hwf. unfold removeMarker.
  destruct (removeMarker_u _ _ _ _) as [[[[r u] re] w1]|] eqn:Hrun; [|discriminate].
  apply (removeMarker_u_wf _ _ _ _ _ _ _ _ Hwf) in Hrun as [Hwf1 _]. simpl.
  destruct r; intros [= _ <-]; exact Hwf1.
Qed.

Lemma editMarker_wf d oldPos pos cmt ty b d' :
  wf (world d) -> editMarker oldPos pos cmt ty d = Some (b, d') -> wf (world d').
Proof.
  intros Hwf. unfold editMarker.
  destruct (hasMarker oldPos (model (world d))) eqn:Hhas; [|discriminate]. simpl.
  destruct (marker oldPos (model (world d))) as [cur|]; [|discriminate]. simpl.
  match goal with |- context [if ?c then Some (true, d) else _] => destruct c end.
  { intros [= _ <-]. exact Hwf. }
  destruct (removeMarker_u _ _ _ _) as [[[[r u] re] w1]|] eqn:Hrun; [|discriminate].
  apply (removeMarker_u_wf _ _ _ _ _ _ _ _ Hwf) in Hrun as (Hwf1 & Hr & _).
  rewrite Hhas in Hr. subst r. simpl.
  destruct (addMarker_u _ _ _ _ _ _) as [[[[r2 u2] re2] w2]|] eqn:Hrun2; [|discriminate].
  apply (addMarker_u_wf _ _ _ _ _ _ _ _ _ _ Hwf1) in Hrun2 as [-> Hwf2]. simpl.
  intros [= _ <-]. exact Hwf2.
Qed.

Lemma moveMarker_wf w mid pos b w' :
  wf w -> moveMarker mid pos w = Some (b, w') -> wf w'.
Proof.
  intros Hwf. unfold moveMarker.
  destruct (StdMap.find mid (markers w)) as [c|] eqn:Hf.
  - pose proof Hf as Hf0. unfold markers in Hf0.
    rewrite (count_find _ _ _ Hf0). simpl.
    destruct (hasMarker pos (model w)) eqn:Hhas; [intros [= _ <-]; exact Hwf|].
    unfold getRowfromId. rewrite (count_find _ _ _ Hf0). simpl.
    unfold StdMap.at_, subscript. rewrite Hf0. simpl.
    intros [= _ <-]. apply hasMarker_None in Hhas.
    exact (wf_put_move _ _ _ _ Hwf Hf Hhas).
  - unfold StdMap.count. unfold markers in Hf. rewrite Hf. discriminate.
Qed.

Lemma moveMarkers_wf mks : forall fromPos toPos res undo redo w b u r w',
  wf w ->
  moveMarkers_loop mks fromPos toPos res undo redo w = Some (b, u, r, w') ->
  wf w'.
Proof.
  induction mks as [|mk rest IH]; intros fromPos toPos res undo redo w b u r w' Hwf; simpl.
  - intros [= _ _ _ <-]. exact Hwf.
  - destruct (removeMarker_u _ _ _ _) as [[[[r1 u1] re1] w1]|] eqn:Hrun; [|discriminate].
    apply (removeMarker_u_wf _ _ _ _ _ _ _ _ Hwf) in Hrun as (Hwf1 & _). simpl.
    destruct r1.
    + destruct (addMarker_u _ _ _ _ _ _) as [[[[r2 u2] re2] w2]|] eqn:Hrun2; [|discriminate].
      apply (addMarker_u_wf _ _ _ _ _ _ _ _ _ _ Hwf1) in Hrun2 as [_ Hwf2]. simpl.
      apply IH. exact Hwf2.
    + intros [= _ _ _ <-]. exact Hwf1.
Qed.

Lemma import_loop_inv entries : forall ic undo redo w w0 b u r w',
  wf w -> restores undo w w0 -> inv w0 ->
  importFromJson_loop entries ic undo redo w = Some (b, u, r, w') ->
  inv w'.
Proof.
  induction entries as [|e rest IH]; intros ic undo redo w w0 b u r w' Hwf Hres Hinv0.
  { simpl. intros [= _ _ _ <-]. apply wf_inv, Hwf. }
  destruct e as [obj|];
    [|rewrite import_loop_skip by exact I; intros Hrun;
      apply (IH _ _ _ _ w0 _ _ _ _ Hwf Hres Hinv0 Hrun)].
  destruct (contains "pos" obj) eqn:Hc;
    [|rewrite import_loop_skip by exact Hc; intros Hrun;
      apply (IH _ _ _ _ w0 _ _ _ _ Hwf Hres Hinv0 Hrun)].
  rewrite (import_loop_record _ _ _ _ _ _ Hc).
  match goal with |- (?c ≫= _) = _ -> _ => destruct c as [[|]|] end;
    simpl; [| |discriminate].
  - assert (Hpal : in_palette (resolve_type w (entry_type obj)) = true).
    { rewrite resolve_in_palette; apply entry_type_in_palette. }
    destruct (addMarker_u_spec w (entry_pos obj) (entry_comment obj) (entry_type obj)
                undo redo Hwf Hpal)
      as (lu & lr & w1 & Hrun & Hwf1 & _ & _ & _ & Hback).
    rewrite Hrun. simpl. intros Hrest.
    refine (IH _ _ _ _ w0 _ _ _ _ Hwf1 _ Hinv0 Hrest).
    exact (restores_step undo redo lu lr w w1 w0 Hres Hback).
  - destruct (Hres w (same_lists_refl w)) as (w2 & Hrun & Hs2).
    rewrite Hrun. simpl. intros [= _ _ _ <-].
    eapply inv_same_lists; [exact Hs2 | exact Hinv0].
Qed.

Lemma importFromJson_inv d data ic pu b d' :
  wf (world d) -> importFromJson data ic pu d = Some (b, d') -> inv (world d').
Proof.
  intros Hwf. unfold importFromJson, importFromJson_u.
  destruct data as [entries|].
  - destruct (importFromJson_loop _ _ _ _ _) as [[[[r u] re] w1]|] eqn:Hrun; [|discriminate].
    apply (import_loop_inv _ _ _ _ _ (world d) _ _ _ _ Hwf (restores_true _) (wf_inv _ Hwf))
      in Hrun.
    simpl. destruct pu; intros [= _ <-]; exact Hrun.
  - simpl. destruct pu; intros [= _ <-]; apply wf_inv, Hwf.
Qed.

Lemma removeAllMarkers_loop_wf all_pos : forall undo redo w,
  wf w -> List.NoDup all_pos ->
  (forall p, In p all_pos -> hasMarker p (model w) = true) ->
  exists u r w',
    removeAllMarkers_loop all_pos undo redo w = Some (true, u, r, w')
    /\ wf w'
    /\ forall f, markerAt f w' = if bool_decide (f ∈ all_pos) then None else markerAt f w.
Proof.
  induction all_pos as [|p rest IH]; intros undo redo w Hwf Hnd Hall.
  - exists undo, redo, w. split; [reflexivity|]. split; [exact Hwf|].
    intros f. rewrite bool_decide_eq_false_2 by apply not_elem_of_nil. reflexivity.
  - inversion Hnd as [|? ? Hnotin Hnd']; subst.
    pose proof (Hall p (or_introl eq_refl)) as Hp.
    apply hasMarker_Some in Hp as [mid Hp].
    destruct (wf_marker_at _ _ _ Hwf Hp) as (c & Hf & _).
    destruct (removeMarker_u_spec w p undo redo mid c Hwf Hp Hf)
      as (w1 & Hrun & Hwf1 & Hat1 & _).
    simpl. rewrite Hrun. simpl.
    destruct (IH (fst (UPDATE_UNDO_REDO (deleteMarker_lambda p)
                         (addMarker_lambda p (comment c) (markerType c)) undo redo))
                 (snd (UPDATE_UNDO_REDO (deleteMarker_lambda p)
                         (addMarker_lambda p (comment c) (markerType c)) undo redo))
                 w1 Hwf1 Hnd')
      as (u & r & w' & Hrun' & Hwf' & Hat').
    { intros q Hq. pose proof (Hall q (or_intror Hq)) as Hhq.
      apply hasMarker_Some in Hhq as [midq Hpq].
      destruct (wf_marker_at _ _ _ Hwf Hpq) as (cq & Hfq & _).
      assert (Hatq : markerAt q w1 = Some cq).
      { rewrite Hat1. destruct (Z.eqb_spec q p) as [->|_]; [contradiction|].
        unfold markerAt. rewrite Hpq. exact Hfq. }
      destruct (markerAt_Some _ _ _ Hwf1 Hatq) as (_ & _ & _ & _ & Hh & _). exact Hh. }
    exists u, r, w'. split; [exact Hrun'|]. split; [exact Hwf'|].
    intros f. rewrite Hat', Hat1.
    destruct (Z.eqb_spec f p) as [->|Hne].
    + rewrite (bool_decide_eq_true_2 (p ∈ p :: rest)) by apply list_elem_of_here.
      destruct (bool_decide (p ∈ rest)); reflexivity.
    + destruct (decide (f ∈ rest)) as [Hin|Hnin].
      * rewrite !bool_decide_eq_true_2;
          [reflexivity | apply list_elem_of_further; exact Hin | exact Hin].
      * rewrite !bool_decide_eq_false_2; [reflexivity | | exact Hnin].
        intros [Heq|Hin]%elem_of_cons; [congruence | contradiction].
Qed.

Lemma removeAllMarkers_wf d :
  wf (world d) ->
  exists d', removeAllMarkers d = Some (true, d')
             /\ wf (world d') /\ markers (world d') = [].
Proof.
  intros Hwf. unfold removeAllMarkers.
  destruct (removeAllMarkers_loop_wf
              (map (fun m => time (snd m)) (m_markerList (model (world d))))
              Fun_true Fun_true (world d) Hwf)
    as (u & r & w' & Hrun & Hwf' & Hat').
  { rewrite <- map_map. apply (wf_NoDup_times _ Hwf). }
  { intros p Hin. apply in_map_iff in Hin as [[k c] [Ht Hin]]. simpl in Ht. subst p.
    apply (In_find _ _ _ (wf_sorted _ Hwf)) in Hin.
    apply (list_to_pos _ (wf_consistent _ Hwf)) in Hin.
    apply (hasMarker_true _ _ _ Hin). }
  rewrite Hrun. simpl. eexists. split; [reflexivity|]. simpl.
  split; [exact Hwf'|].
  destruct (markers w') as [|[k c] rest] eqn:Hm; [reflexivity|]. exfalso.
  assert (Hf : StdMap.find k (markers w') = Some c).
  { rewrite Hm. simpl. rewrite Z.eqb_refl. reflexivity. }
  pose proof (list_to_pos _ (wf_consistent _ Hwf') _ _ Hf) as Hp.
  assert (Hat : markerAt (time c) w' = Some c).
  { unfold markerAt, positions. rewrite Hp. exact Hf. }
  rewrite Hat' in Hat.
  destruct (bool_decide _) eqn:Hdec; [discriminate|].
  apply bool_decide_eq_false in Hdec. apply Hdec.
  destruct (markerAt_Some _ _ _ Hwf Hat) as (mid & _ & Hf0 & _).
  apply find_Some_In in Hf0.
  apply list_elem_of_In, in_map_iff. exists (mid, c). split; [reflexivity | exact Hf0].
Qed.

Lemma addMarkers_loop_wf entries : forall ty rename res undo redo w rn b u r w',
  wf w ->
  addMarkers_loop entries ty rename res undo redo w = Some (rn, b, u, r, w') ->
  wf w'.
Proof.
  induction entries as [|[key value] rest IH];
    intros ty rename res undo redo w rn b u r w' Hwf; simpl.
  - intros [= _ _ _ _ <-]. exact Hwf.
  - destruct res; [|intros [= _ _ _ _ <-]; exact Hwf].
    destruct (addMarker_u _ _ _ _ _ _) as [[[[r1 u1] re1] w1]|] eqn:Hrun; [|discriminate].
    apply (addMarker_u_wf _ _ _ _ _ _ _ _ _ _ Hwf) in Hrun as [_ Hwf1]. simpl.
    apply IH. exact Hwf1.
Qed.

Lemma addMarkers_wf d entries ty b d' :
  wf (world d) -> addMarkers entries ty d = Some (b, d') -> wf (world d').
Proof.
  intros Hwf. unfold addMarkers.
  destruct (addMarkers_loop _ _ _ _ _ _ _) as [[[[[rn r] u] re] w1]|] eqn:Hrun;
    [|discriminate].
  apply (addMarkers_loop_wf _ _ _ _ _ _ _ _ _ _ _ _ Hwf) in Hrun. simpl.
  destruct r; [destruct rn|]; intros [= _ <-]; exact Hrun.
Qed.

(** Every operation of the list that the public contract names keeps the
    containers ordered and in agreement; [moveMarkersWithoutUndo] is not
    among them. *)
Lemma contract_operations_keep_inv (d : Doc) :
  wf (world d) ->
  (forall pos cmt ty b d', addMarker pos cmt ty d = Some (b, d') -> inv (world d'))
  /\ (forall entries ty b d', addMarkers entries ty d = Some (b, d') -> inv (world d'))
  /\ (forall pos b d', removeMarker pos d = Some (b, d') -> inv (world d'))
  /\ (forall oldPos pos cmt ty b d',
        editMarker oldPos pos cmt ty d = Some (b, d') -> inv (world d'))
  /\ (forall mid pos b w', moveMarker mid pos (world d) = Some (b, w') -> inv w')
  /\ (forall mks fromPos toPos undo redo b u r w',
        moveMarkers mks fromPos toPos undo redo (world d) = Some (b, u, r, w') ->
        inv w')
  /\ (forall data ic pu b d', importFromJson data ic pu d = Some (b, d') -> inv (world d'))
  /\ (exists d', removeAllMarkers d = Some (true, d') /\ inv (world d')).
Proof.
  intros Hwf. split; [|split; [|split; [|split; [|split; [|split; [|split]]]]]].
  - intros pos cmt ty b d' Hrun. eapply wf_inv, addMarker_wf; eassumption.
  - intros entries ty b d' Hrun. eapply wf_inv, addMarkers_wf; eassumption.
  - intros pos b d' Hrun. eapply wf_inv, removeMarker_wf; eassumption.
  - intros oldPos pos cmt ty b d' Hrun. eapply wf_inv, editMarker_wf; eassumption.
  - intros mid pos b w' Hrun. eapply wf_inv, moveMarker_wf; eassumption.
  - intros mks fromPos toPos undo redo b u r w'. unfold moveMarkers.
    destruct (_ <=? 0).
    + intros [= _ _ _ <-]. apply wf_inv, Hwf.
    + intros Hrun. eapply wf_inv, moveMarkers_wf; eassumption.
  - intros data ic pu b d' Hrun. eapply importFromJson_inv; eassumption.
  - destruct (removeAllMarkers_wf d Hwf) as (d' & Hrun & Hwf' & _).
    exists d'. split; [exact Hrun | apply wf_inv, Hwf'].
Qed.

(** ** moveMarkersWithoutUndo *)

(** C4, at the input where the code leaves the invariant. Shifting both
    guides of [sampleWorld] by 10 frames, in storage order, ends with the
    guides at frames 20 and 30 in the storage while the position index
    holds frame 30 only: the guide at frame 20 is unknown to [hasMarker].
    Shifting only the first guide onto the second leaves two guides at
    frame 20. In both cases the containers are no longer consistent. *)
Theorem moveMarkersWithoutUndo_breaks_index :
  wf sampleWorld
  /\ (exists w',
        moveMarkersWithoutUndo [0; 1] 10 false sampleWorld = Some w'
        /\ markers w' = [(0, mkCommentedTime 20 "a" 0); (1, mkCommentedTime 30 "b" 1)]
        /\ map_to_list (positions w') = [(30, 1)]
        /\ hasMarker 20 (model w') = false
        /\ ~ consistent (model w'))
  /\ (exists w',
        moveMarkersWithoutUndo [0] 10 false sampleWorld = Some w'
        /\ markers w' = [(0, mkCommentedTime 20 "a" 0); (1, mkCommentedTime 20 "b" 1)]
        /\ map_to_list (positions w') = [(20, 0)]
        /\ ~ consistent (model w')).
Proof.
  split; [apply wf_check_sound; vm_compute; reflexivity|]. split.
  - eexists. split; [vm_compute; reflexivity|].
    split; [reflexivity|]. split; [vm_compute; reflexivity|]. split; [reflexivity|].
    intros [_ Hlp].
    specialize (Hlp 0 (mkCommentedTime 20 "a" 0) eq_refl).
    vm_compute in Hlp. discriminate.
  - eexists. split; [vm_compute; reflexivity|].
    split; [reflexivity|]. split; [vm_compute; reflexivity|].
    intros [_ Hlp].
    specialize (Hlp 1 (mkCommentedTime 20 "b" 1) eq_refl).
    vm_compute in Hlp. discriminate.
Qed.

(** * Further properties of the marker list *)

(** ** The position index in key order *)

Lemma QMap_fold_find (l : list (Z * Z)) k :
  StdMap.find k (foldr (fun e acc => StdMap.insert (fst e) (snd e) acc) [] l)
  = (list_to_map l : gmap Z Z) !! k.
Proof.
  induction l as [|[k0 v0] r IH]; simpl.
  - rewrite lookup_empty. reflexivity.
  - destruct (Z.eq_dec k0 k) as [->|Hne].
    + rewrite find_insert_eq, lookup_insert_eq. reflexivity.
    + rewrite find_insert_ne, lookup_insert_ne by congruence. exact IH.
Qed.

Lemma QMap_fold_sorted (l : list (Z * Z)) :
  StdMap.sorted (foldr (fun e acc => StdMap.insert (fst e) (snd e) acc) [] l) = true.
Proof.
  induction l as [|[k0 v0] r IH]; simpl; [reflexivity|].
  apply sorted_insert, IH.
Qed.

Lemma QMap_entries_find p k : StdMap.find k (QMap_entries p) = p !! k.
Proof. unfold QMap_entries. rewrite QMap_fold_find, list_to_map_to_list. reflexivity. Qed.

Lemma QMap_entries_sorted p : StdMap.sorted (QMap_entries p) = true.
Proof. apply QMap_fold_sorted. Qed.

Lemma QMap_entries_In p k v : In (k, v) (QMap_entries p) <-> p !! k = Some v.
Proof.
  rewrite <- QMap_entries_find. split.
  - apply In_find, QMap_entries_sorted.
  - apply find_Some_In.
Qed.

Lemma first_key_unique v k0 (l : list (Z * Z)) :
  (forall k, In (k, v) l -> k = k0) -> In (k0, v) l -> first_key v l = k0.
Proof.
  induction l as [|[k x] r IH]; simpl; [intros _ []|].
  intros Huniq Hin. destruct (Z.eqb_spec x v) as [->|Hne].
  - apply Huniq. left. reflexivity.
  - apply IH.
    + intros k' Hk'. apply Huniq. right. exact Hk'.
    + destruct Hin as [Heq|Hin]; [congruence | exact Hin].
Qed.

(** ** Ids and positions *)

(** X1. On a well-formed list the id-to-position and position-to-id
    queries invert each other: for a stored id, [getMarkerPos] returns the
    frame of its marker, [getIdFromPos] and [markerIdAtFrame] of that
    frame return the id, and [markerById] returns the marker; for an id
    that is not stored, [getMarkerPos] and [markerById] stop on their
    assertion. *)
Theorem getMarkerPos_getIdFromPos (w : World) (mid : Z) :
  wf w ->
  (forall c, StdMap.find mid (markers w) = Some c ->
     getMarkerPos mid (model w) = Some (time c)
     /\ getIdFromPos (time c) (model w) = mid
     /\ markerIdAtFrame (time c) (model w) = mid
     /\ markerById mid (model w) = Some c)
  /\
  (StdMap.find mid (markers w) = None ->
     getMarkerPos mid (model w) = None /\ markerById mid (model w) = None).
Proof.
  intros Hwf. split.
  - intros c Hf.
    pose proof (list_to_pos _ (wf_consistent _ Hwf) _ _ Hf) as Hp.
    assert (Hin : In (time c, mid) (QMap_entries (m_markerPositions (model w))))
      by (apply QMap_entries_In; exact Hp).
    split; [|split; [|split]].
    + unfold getMarkerPos. unfold markers in Hf. rewrite (count_find _ _ _ Hf). simpl.
      f_equal. apply first_key_unique; [|exact Hin].
      intros k Hk. apply QMap_entries_In in Hk.
      destruct (pos_to_list _ (wf_consistent _ Hwf) _ _ Hk) as (c' & Hf' & Ht').
      congruence.
    + unfold getIdFromPos. rewrite Hp. reflexivity.
    + unfold markerIdAtFrame. rewrite Hp. reflexivity.
    + unfold markerById, QMap_values_contains.
      assert (Hex : existsb (fun e : Z * Z => snd e =? mid)
                      (QMap_entries (m_markerPositions (model w))) = true).
      { apply existsb_exists. exists (time c, mid). split; [exact Hin|].
        simpl. apply Z.eqb_refl. }
      rewrite Hex. simpl. exact Hf.
  - intros Hf. split.
    + unfold getMarkerPos, StdMap.count. unfold markers in Hf. rewrite Hf. reflexivity.
    + unfold markerById.
      destruct (QMap_values_contains mid (m_markerPositions (model w))); simpl;
        [exact Hf | reflexivity].
Qed.

Lemma getMarkerPos_getIdFromPos_witness :
  getMarkerPos 1 (model sampleWorld) = Some 20
  /\ getIdFromPos 20 (model sampleWorld) = 1
  /\ markerById 1 (model sampleWorld) = Some (mkCommentedTime 20 "b" 1)
  /\ getMarkerPos 7 (model sampleWorld) = None.
Proof.
  assert (Hwf : wf sampleWorld) by (apply wf_check_sound; vm_compute; reflexivity).
  destruct (getMarkerPos_getIdFromPos sampleWorld 1 Hwf) as [Hin _].
  destruct (getMarkerPos_getIdFromPos sampleWorld 7 Hwf) as [_ Hout].
  destruct (Hin (mkCommentedTime 20 "b" 1) eq_refl) as (H1 & H2 & _ & H4).
  destruct (Hout eq_refl) as [H5 _].
  split; [exact H1|]. split; [exact H2|]. split; [exact H4 | exact H5].
Defined.

(** ** Rows of the list model *)

Lemma index_of_lookup {V} (k : Z) (v : V) (l : list (Z * V)) :
  StdMap.find k l = Some v -> l !! StdMap.index_of k l = Some (k, v).
Proof.
  induction l as [|[k0 v0] r IH]; simpl; [discriminate|].
  destruct (Z.eqb_spec k k0) as [->|Hne].
  - intros [= ->]. reflexivity.
  - intros Hf. simpl. apply IH, Hf.
Qed.

Lemma lookup_index_of {V} (k : Z) (v : V) (l : list (Z * V)) (r : nat) :
  StdMap.sorted l = true -> l !! r = Some (k, v) -> StdMap.index_of k l = r.
Proof.
  revert r. induction l as [|[k0 v0] rest IH]; intros r Hs; [destruct r; discriminate|].
  apply sorted_cons in Hs as [Ha Hs]. destruct r as [|r]; simpl.
  - intros [= -> _]. rewrite Z.eqb_refl. reflexivity.
  - intros Hr. destruct (Z.eqb_spec k k0) as [->|Hne].
    + unfold above in Ha. rewrite Forall_forall in Ha.
      apply list_elem_of_lookup_2, Ha in Hr. simpl in Hr. lia.
    + f_equal. apply IH; assumption.
Qed.

Lemma palette_lookup ty :
  in_palette ty = true ->
  (ty <? 0) = false /\ exists name, markerTypes !! Z.to_nat ty = Some name.
Proof.
  unfold in_palette, markerTypes_size. rewrite andb_true_iff, Z.leb_le, Z.ltb_lt.
  intros [Hlo Hhi]. split; [apply Z.ltb_ge; exact Hlo|].
  apply lookup_lt_is_Some. simpl. lia.
Qed.

(** X2. On a well-formed list [getRowfromId] and [data] invert each
    other: the row of a stored id lies below [rowCount], and [data] at that
    row returns the id under [IdRole], the frame under [FrameRole], the
    comment under [CommentRole], the type under [TypeRole] and a palette
    colour under [ColorRole]; the row of the marker shown at a row is that
    row; and an index that is invalid or whose row is negative or not
    below [rowCount] reads as an invalid variant under every role. *)
Theorem data_getRowfromId (w : World) :
  wf w ->
  (forall mid c,
     StdMap.find mid (markers w) = Some c ->
     exists r,
       getRowfromId mid (model w) = Some r
       /\ Z.of_nat r < rowCount (mkIndex (-1) false) (model w)
       /\ data (mkIndex (Z.of_nat r) true) IdRole (model w) = Some (VInt mid)
       /\ data (mkIndex (Z.of_nat r) true) FrameRole (model w) = Some (VInt (time c))
       /\ data (mkIndex (Z.of_nat r) true) CommentRole (model w)
            = Some (VString (comment c))
       /\ data (mkIndex (Z.of_nat r) true) TypeRole (model w)
            = Some (VInt (markerType c))
       /\ exists name,
            data (mkIndex (Z.of_nat r) true) ColorRole (model w) = Some (VColor name)
            /\ markerTypes !! Z.to_nat (markerType c) = Some name)
  /\
  (forall r mid c,
     markers w !! r = Some (mid, c) -> getRowfromId mid (model w) = Some r)
  /\
  (forall index role,
     row index < 0 \/ rowCount (mkIndex (-1) false) (model w) <= row index
       \/ isValid index = false ->
     data index role (model w) = Some VInvalid).
Proof.
  intros Hwf. split; [|split].
  - intros mid c Hf. pose proof Hf as Hf0. unfold markers in Hf0.
    pose proof (index_of_lookup _ _ _ Hf0) as Hrow.
    pose proof (lookup_lt_Some _ _ _ Hrow) as Hlt.
    exists (StdMap.index_of mid (m_markerList (model w))).
    split; [unfold getRowfromId; rewrite (count_find _ _ _ Hf0); reflexivity|].
    split; [unfold rowCount; simpl; lia|].
    assert (Hguard : (Z.of_nat (StdMap.index_of mid (m_markerList (model w))) <? 0)
                     || (Z.of_nat (StdMap.index_of mid (m_markerList (model w)))
                         >=? Z.of_nat (length (m_markerList (model w))))
                     || negb true = false).
    { rewrite !orb_false_iff. split; [split|reflexivity].
      - apply Z.ltb_ge. lia.
      - rewrite Z.geb_leb. apply Z.leb_gt. lia. }
    destruct (palette_lookup _ (wf_types _ Hwf _ _ Hf)) as [Hneg [name Hname]].
    unfold data. simpl row. simpl isValid. rewrite Hguard, Nat2Z.id, Hrow. simpl.
    repeat (split; [reflexivity|]).
    exists name. rewrite Hneg, Hname. split; reflexivity.
  - intros r mid c Hr. unfold getRowfromId.
    pose proof (wf_sorted _ Hwf) as Hs.
    assert (Hf : StdMap.find mid (m_markerList (model w)) = Some c).
    { apply In_find; [exact Hs|]. apply list_elem_of_In.
      eapply list_elem_of_lookup_2, Hr. }
    rewrite (count_find _ _ _ Hf). simpl. f_equal.
    eapply lookup_index_of; [exact Hs | exact Hr].
  - intros index role Hout. unfold data, rowCount in *. simpl in Hout.
    assert (Hguard : (row index <? 0)
                     || (row index >=? Z.of_nat (length (m_markerList (model w))))
                     || negb (isValid index) = true).
    { rewrite !orb_true_iff. destruct Hout as [H|[H| ->]].
      - left. left. apply Z.ltb_lt. exact H.
      - left. right. rewrite Z.geb_leb. apply Z.leb_le. exact H.
      - right. reflexivity. }
    rewrite Hguard. reflexivity.
Qed.

Lemma data_getRowfromId_witness :
  getRowfromId 1 (model sampleWorld) = Some 1%nat
  /\ data (mkIndex 1 true) IdRole (model sampleWorld) = Some (VInt 1)
  /\ data (mkIndex 1 true) ColorRole (model sampleWorld) = Some (VColor "#3daee9")
  /\ data (mkIndex 2 true) IdRole (model sampleWorld) = Some VInvalid
  /\ data (mkIndex 0 false) CommentRole (model sampleWorld) = Some VInvalid.
Proof.
  assert (Hwf : wf sampleWorld) by (apply wf_check_sound; vm_compute; reflexivity).
  destruct (data_getRowfromId sampleWorld Hwf) as (Hrow & Hinv & Hout).
  split; [apply (Hinv 1%nat 1 (mkCommentedTime 20 "b" 1)); reflexivity|].
  destruct (Hrow 1 (mkCommentedTime 20 "b" 1) eq_refl)
    as (r & Hr & _ & Hid & _ & _ & _ & name & Hcol & Hname).
  assert (r = 1%nat) by (vm_compute in Hr; congruence). subst r.
  split; [exact Hid|].
  split; [etransitivity; [exact Hcol|]; vm_compute in Hname; congruence|].
  split; [apply Hout; right; left; vm_compute; discriminate|].
  apply Hout. right. right. reflexivity.
Defined.

(** ** Range and snap queries *)

Lemma above_filter {V} k (f : Z * V -> bool) (l : list (Z * V)) :
  above k l -> above k (List.filter f l).
Proof.
  induction 1 as [|e r He Hr IH]; simpl; [constructor|].
  destruct (f e); [constructor; assumption | assumption].
Qed.

Lemma sorted_filter {V} (f : Z * V -> bool) (l : list (Z * V)) :
  StdMap.sorted l = true -> StdMap.sorted (List.filter f l) = true.
Proof.
  induction l as [|[k v] r IH]; intros Hs; [reflexivity|].
  apply sorted_cons in Hs as [Ha Hs]. simpl.
  destruct (f (k, v)); [|auto].
  apply sorted_cons. split; [apply above_filter, Ha | auto].
Qed.

Lemma sorted_keys_ascending {V} (l : list (Z * V)) :
  StdMap.sorted l = true -> StronglySorted Z.lt (map fst l).
Proof.
  induction l as [|[k v] r IH]; intros Hs; simpl; [constructor|].
  apply sorted_cons in Hs as [Ha Hs]. constructor; [auto|].
  unfold above in Ha. clear -Ha. induction Ha; simpl; constructor; auto.
Qed.

Lemma getMarkersIdInRange_loop_spec entries start end_ : forall acc,
  StdMap.sorted entries = true ->
  getMarkersIdInRange_loop entries start end_ acc =
    acc ++ map snd (List.filter (fun e => in_range start end_ (fst e)) entries).
Proof.
  induction entries as [|[key value] rest IH]; intros acc Hs; simpl.
  - rewrite app_nil_r. reflexivity.
  - apply sorted_cons in Hs as [Ha Hs]. unfold in_range at 1. simpl.
    destruct ((end_ >? -1) && (key >? end_)) eqn:Hbreak.
    + rewrite andb_false_r.
      assert (Hnone : List.filter (fun e : Z * Z => in_range start end_ (fst e)) rest = []).
      { apply andb_true_iff in Hbreak as [Hend Hkey].
        clear -Ha Hend Hkey. induction Ha as [|[k v] r Hk Hr IH]; simpl; [reflexivity|].
        simpl in Hk. unfold in_range at 1. rewrite Hend. simpl.
        assert (Hk' : (k >? end_) = true).
        { rewrite Z.gtb_ltb in *. apply Z.ltb_lt. apply Z.ltb_lt in Hkey. lia. }
        rewrite Hk', andb_false_r. exact IH. }
      rewrite Hnone, app_nil_r. reflexivity.
    + rewrite andb_true_r, (IH _ Hs).
      destruct (key >=? start); simpl; [rewrite <- app_assoc|]; reflexivity.
Qed.

Lemma in_range_spec start end_ f :
  in_range start end_ f = true <-> start <= f /\ (end_ <= -1 \/ f <= end_).
Proof.
  unfold in_range. rewrite andb_true_iff, negb_true_iff, andb_false_iff.
  rewrite Z.geb_leb, Z.leb_le, !Z.gtb_ltb, !Z.ltb_ge. tauto.
Qed.

Lemma getMarkersIdInRange_In (w : World) (start end_ : Z) :
  wf w ->
  forall mid,
    In mid (getMarkersIdInRange start end_ (model w)) <->
    exists c, StdMap.find mid (markers w) = Some c
              /\ start <= time c /\ (end_ <= -1 \/ time c <= end_).
Proof.
  intros Hwf mid. unfold getMarkersIdInRange.
  rewrite getMarkersIdInRange_loop_spec by apply QMap_entries_sorted. simpl.
  rewrite in_map_iff. split.
  - intros ([k v] & Hv & Hin). simpl in Hv. subst v.
    apply filter_In in Hin as [Hin Hr]. simpl in Hr.
    apply QMap_entries_In in Hin. apply in_range_spec in Hr.
    destruct (pos_to_list _ (wf_consistent _ Hwf) _ _ Hin) as (c & Hf & Ht).
    exists c. rewrite Ht. split; [exact Hf | exact Hr].
  - intros (c & Hf & Hr).
    exists (time c, mid). split; [reflexivity|].
    apply filter_In. split.
    + apply QMap_entries_In. apply (list_to_pos _ (wf_consistent _ Hwf) _ _ Hf).
    + apply in_range_spec. exact Hr.
Qed.

Lemma getMarkersIdInRange_ascending (m : MarkerListModel) (start end_ : Z) :
  exists frames,
    StronglySorted Z.lt frames
    /\ Forall2 (fun f mid => getIdFromPos f m = mid /\ hasMarker f m = true)
         frames (getMarkersIdInRange start end_ m).
Proof.
  unfold getMarkersIdInRange.
  rewrite getMarkersIdInRange_loop_spec by apply QMap_entries_sorted. simpl.
  set (P := m_markerPositions m).
  exists (map fst (List.filter (fun e : Z * Z => in_range start end_ (fst e))
                     (QMap_entries P))).
  split; [apply sorted_keys_ascending, sorted_filter, QMap_entries_sorted|].
  assert (Hall : forall e, In e (List.filter (fun e : Z * Z => in_range start end_ (fst e))
                                   (QMap_entries P)) -> P !! fst e = Some (snd e)).
  { intros [k v] Hin. apply filter_In in Hin as [Hin _].
    apply QMap_entries_In in Hin. exact Hin. }
  induction (List.filter _ (QMap_entries P)) as [|[k v] r IH]; simpl; [constructor|].
  constructor.
  - pose proof (Hall (k, v) (or_introl eq_refl)) as Hp. simpl in Hp.
    unfold getIdFromPos, hasMarker. fold P. rewrite Hp. split; reflexivity.
  - apply IH. intros e He. apply Hall. right. exact He.
Qed.

(** X3. On a well-formed list [getMarkersIdInRange(start, end)] returns
    the ids of exactly the markers whose frame is not before [start] and,
    when [end] is above [-1], not after [end] (an [end] of [-1] or below
    puts no upper bound), listed by ascending frame. *)
Theorem getMarkersIdInRange_spec (w : World) (start end_ : Z) :
  wf w ->
  (forall mid,
     In mid (getMarkersIdInRange start end_ (model w)) <->
     exists c, StdMap.find mid (markers w) = Some c
               /\ start <= time c /\ (end_ <= -1 \/ time c <= end_))
  /\
  (exists frames,
     StronglySorted Z.lt frames
     /\ Forall2 (fun f mid => getIdFromPos f (model w) = mid /\ hasMarker f (model w) = true)
          frames (getMarkersIdInRange start end_ (model w))).
Proof.
  intros Hwf. split.
  - apply getMarkersIdInRange_In. exact Hwf.
  - apply getMarkersIdInRange_ascending.
Qed.

Lemma getMarkersIdInRange_spec_witness :
  getMarkersIdInRange 15 (-1) (model sampleWorld) = [1]
  /\ (In 0 (getMarkersIdInRange 0 10 (model sampleWorld)))
  /\ ~ In 1 (getMarkersIdInRange 0 10 (model sampleWorld)).
Proof.
  assert (Hwf : wf sampleWorld) by (apply wf_check_sound; vm_compute; reflexivity).
  destruct (getMarkersIdInRange_spec sampleWorld 0 10 Hwf) as [Hmem _].
  split; [vm_compute; reflexivity|]. split.
  - apply Hmem. exists (mkCommentedTime 10 "a" 0).
    split; [reflexivity|]. simpl. lia.
  - intros Hin. apply Hmem in Hin as (c & Hf & _ & Hr).
    vm_compute in Hf. injection Hf as <-. simpl in Hr. lia.
Defined.

(** X4. [getSnapPoints] returns the frames that hold a marker, each
    once and in ascending order. *)
Theorem getSnapPoints_spec (m : MarkerListModel) :
  StronglySorted Z.lt (getSnapPoints m)
  /\ forall f, In f (getSnapPoints m) <-> hasMarker f m = true.
Proof.
  unfold getSnapPoints. split.
  - apply sorted_keys_ascending, QMap_entries_sorted.
  - intros f. rewrite in_map_iff. unfold hasMarker. split.
    + intros ([k v] & Hk & Hin). simpl in Hk. subst k.
      apply QMap_entries_In in Hin. rewrite Hin. reflexivity.
    + destruct (m_markerPositions m !! f) as [v|] eqn:Hp; [|discriminate].
      intros _. exists (f, v). split; [reflexivity|].
      apply QMap_entries_In. exact Hp.
Qed.

(** ** Sorted queries *)

Lemma insert_by_time_In c x l : In x (insert_by_time c l) <-> x = c \/ In x l.
Proof.
  induction l as [|y r IH]; simpl.
  - split; [intros [<-|[]]; left; reflexivity | intros [->|[]]; left; reflexivity].
  - destruct (time c <? time y); simpl.
    + split; [intros [<-|H]; [left; reflexivity | right; exact H] |
              intros [->|H]; [left; reflexivity | right; exact H]].
    + rewrite IH. tauto.
Qed.

Lemma std_sort_In x l : In x (std_sort l) <-> In x l.
Proof.
  induction l as [|c r IH]; simpl; [tauto|].
  rewrite insert_by_time_In, IH. split; intros [H|H]; auto.
Qed.

Lemma insert_by_time_sorted c l :
  StronglySorted (fun a b => time a < time b) l ->
  ~ In (time c) (map time l) ->
  StronglySorted (fun a b => time a < time b) (insert_by_time c l).
Proof.
  induction 1 as [|y r Hr IH Hy]; intros Hnew; simpl.
  - repeat constructor.
  - destruct (Z.ltb_spec (time c) (time y)).
    + constructor; [constructor; assumption|].
      constructor; [assumption|].
      eapply List.Forall_impl; [|exact Hy]. simpl. intros; lia.
    + constructor.
      * apply IH. intros Hin. apply Hnew. right. exact Hin.
      * apply List.Forall_forall. intros x Hx. apply insert_by_time_In in Hx as [->|Hx].
        -- assert (time c <> time y) by (intros Heq; apply Hnew; left; congruence). lia.
        -- rewrite List.Forall_forall in Hy. apply Hy, Hx.
Qed.

Lemma std_sort_sorted l :
  List.NoDup (map time l) ->
  StronglySorted (fun a b => time a < time b) (std_sort l).
Proof.
  induction l as [|c r IH]; simpl; intros Hnd; [constructor|].
  inversion Hnd as [|? ? Hnotin Hnd']; subst.
  apply insert_by_time_sorted; [apply IH, Hnd'|].
  intros Hin. apply Hnotin.
  apply in_map_iff in Hin as (x & Hx & Hin). apply (proj1 (std_sort_In _ _)) in Hin.
  rewrite <- Hx. apply in_map. exact Hin.
Qed.

Lemma NoDup_times_filter (f : Z * CommentedTime -> bool) l :
  List.NoDup (map time (map snd l)) ->
  List.NoDup (map time (map snd (List.filter f l))).
Proof.
  induction l as [|e r IH]; simpl; intros Hnd; [constructor|].
  inversion Hnd as [|? ? Hnotin Hnd']; subst.
  destruct (f e); simpl; [|auto].
  constructor; [|auto].
  intros Hin. apply Hnotin.
  rewrite map_map in *. apply in_map_iff in Hin as (x & Hx & Hin).
  apply filter_In in Hin as [Hin _]. apply in_map_iff. exists x. split; assumption.
Qed.

(** X5. On a well-formed list [getAllMarkers(type)] returns the stored
    markers of that type, all of them when [type] is [-1], each once and
    in strictly ascending time order. *)
Theorem getAllMarkers_spec (w : World) (type : Z) :
  wf w ->
  StronglySorted (fun a b => time a < time b) (getAllMarkers type (model w))
  /\ forall c,
       In c (getAllMarkers type (model w)) <->
       (exists mid, StdMap.find mid (markers w) = Some c)
       /\ (type = -1 \/ markerType c = type).
Proof.
  intros Hwf. unfold getAllMarkers. split.
  - apply std_sort_sorted, NoDup_times_filter, (wf_NoDup_times _ Hwf).
  - intros c. rewrite std_sort_In, in_map_iff. split.
    + intros ([mid c'] & Hc & Hin). simpl in Hc. subst c'.
      apply filter_In in Hin as [Hin Hty]. simpl in Hty.
      split.
      * exists mid. apply In_find; [apply (wf_sorted _ Hwf) | exact Hin].
      * apply orb_true_iff in Hty as [Hty|Hty]; apply Z.eqb_eq in Hty; auto.
    + intros [[mid Hf] Hty]. exists (mid, c). split; [reflexivity|].
      apply filter_In. split; [apply find_Some_In; exact Hf|]. simpl.
      apply orb_true_iff. destruct Hty as [->| ->]; [left | right]; apply Z.eqb_refl.
Qed.

Lemma getAllMarkers_spec_witness :
  getAllMarkers (-1) (model unsortedWorld)
    = [mkCommentedTime 10 "a" 0; mkCommentedTime 20 "b" 1]
  /\ In (mkCommentedTime 20 "b" 1) (getAllMarkers 1 (model unsortedWorld))
  /\ ~ In (mkCommentedTime 10 "a" 0) (getAllMarkers 1 (model unsortedWorld)).
Proof.
  assert (Hwf : wf unsortedWorld) by (apply wf_check_sound; vm_compute; reflexivity).
  destruct (getAllMarkers_spec unsortedWorld 1 Hwf) as [_ Hmem].
  split; [reflexivity|]. split.
  - apply Hmem. split; [exists 0; reflexivity | right; reflexivity].
  - intros Hin. apply Hmem in Hin as [_ [Hty|Hty]]; discriminate.
Defined.

Lemma markers_at_spec mids (l : list (Z * CommentedTime)) :
  (forall mid, In mid mids -> exists c, StdMap.find mid l = Some c) ->
  exists cs, markers_at mids l = Some cs
             /\ Forall2 (fun mid c => StdMap.find mid l = Some c) mids cs.
Proof.
  induction mids as [|mid rest IH]; intros Hall; simpl.
  - exists []. split; [reflexivity | constructor].
  - destruct (Hall mid (or_introl eq_refl)) as [c Hc].
    destruct IH as (cs & Hrun & Hcs); [intros m Hm; apply Hall; right; exact Hm|].
    exists (c :: cs). unfold StdMap.at_. rewrite Hc, Hrun. simpl.
    split; [reflexivity | constructor; assumption].
Qed.

(** X6. On a well-formed list [getMarkersInRange(start, end)] returns
    normally, and its result holds exactly the stored markers whose frame
    lies in the range of [getMarkersIdInRange], in strictly ascending time
    order. *)
Theorem getMarkersInRange_spec (w : World) (start end_ : Z) :
  wf w ->
  exists result,
    getMarkersInRange start end_ (model w) = Some result
    /\ StronglySorted (fun a b => time a < time b) result
    /\ forall c,
         In c result <->
         (exists mid, StdMap.find mid (markers w) = Some c)
         /\ start <= time c /\ (end_ <= -1 \/ time c <= end_).
Proof.
  intros Hwf.
  pose proof (getMarkersIdInRange_In w start end_ Hwf) as Hmem.
  destruct (getMarkersIdInRange_ascending (model w) start end_) as (frames & Hsorted & Hids).
  destruct (markers_at_spec (getMarkersIdInRange start end_ (model w))
              (m_markerList (model w))) as (cs & Hrun & Hcs).
  { intros mid Hin. apply Hmem in Hin as (c & Hf & _). exists c. exact Hf. }
  exists (std_sort cs). unfold getMarkersInRange. rewrite Hrun. simpl.
  split; [reflexivity|].
  assert (Hcs_mem : forall c, In c cs <->
            exists mid, In mid (getMarkersIdInRange start end_ (model w))
                        /\ StdMap.find mid (markers w) = Some c).
  { clear -Hcs. induction Hcs as [|mid c mids cs Hc _ IH]; intros x; simpl.
    - split; [intros [] | intros (m & [] & _)].
    - rewrite IH. split.
      + intros [<-|(m & Hm & Hf)]; [exists mid; auto | exists m; auto].
      + intros (m & [<-|Hm] & Hf); [left; unfold markers in Hf; congruence|].
        right. exists m. auto. }
  split.
  - apply std_sort_sorted.
    (* the times of the collected markers are the frames, which ascend *)
    assert (Htimes : map time cs = frames).
    { clear -Hids Hcs Hwf.
      revert cs Hcs. induction Hids as [|f mid frames mids Hpair _ IH];
        intros cs Hcs; inversion Hcs as [|? c ? cs' Hc Hcs']; subst; simpl;
        [reflexivity|].
      f_equal; [|apply IH, Hcs'].
      destruct Hpair as [Hid Hhas].
      apply hasMarker_Some in Hhas as [mid' Hp].
      unfold getIdFromPos in Hid. unfold positions in Hp. rewrite Hp in Hid. subst mid'.
      destruct (pos_to_list _ (wf_consistent _ Hwf) _ _ Hp) as (c' & Hf' & Ht').
      congruence. }
    rewrite Htimes. clear -Hsorted.
    induction Hsorted as [|f r Hr IH Hf]; constructor; [|exact IH].
    intros Hin. rewrite List.Forall_forall in Hf. apply Hf in Hin. lia.
  - intros c. rewrite std_sort_In, Hcs_mem. split.
    + intros (mid & Hin & Hf). apply Hmem in Hin as (c' & Hf' & Hr).
      assert (c' = c) by congruence. subst c'.
      split; [exists mid; exact Hf | exact Hr].
    + intros [[mid Hf] Hr]. exists mid. split; [|exact Hf].
      apply Hmem. exists c. split; [exact Hf | exact Hr].
Qed.

Lemma getMarkersInRange_spec_witness :
  exists result,
    getMarkersInRange 0 15 (model unsortedWorld) = Some result
    /\ In (mkCommentedTime 10 "a" 0) result
    /\ ~ In (mkCommentedTime 20 "b" 1) result.
Proof.
  assert (Hwf : wf unsortedWorld) by (apply wf_check_sound; vm_compute; reflexivity).
  destruct (getMarkersInRange_spec unsortedWorld 0 15 Hwf) as (result & Hrun & _ & Hmem).
  exists result. split; [exact Hrun|]. split.
  - apply Hmem. split; [exists 1; reflexivity | simpl; lia].
  - intros Hin. apply Hmem in Hin as [_ [_ [Hr|Hr]]]; simpl in Hr; lia.
Defined.

(** ** Closures seen through the frames they change *)

Lemma carries_true w : carries Fun_true w w.
Proof. intros w' Hwf Hs. exists w'. split; [reflexivity|]. split; assumption. Qed.

Lemma carries_seq (f g : Fun) wa wb wc :
  carries f wa wb -> carries g wb wc ->
  carries (fun w => '(v, w1) ← f w; '(u, w2) ← g w1; Some (u && v, w2)) wa wc.
Proof.
  intros Hf Hg w Hwf Hs.
  destruct (Hf w Hwf Hs) as (w1 & Hrun1 & Hwf1 & Hs1).
  destruct (Hg w1 Hwf1 Hs1) as (w2 & Hrun2 & Hwf2 & Hs2).
  exists w2. rewrite Hrun1. simpl. rewrite Hrun2. simpl.
  split; [reflexivity|]. split; assumption.
Qed.

Lemma reversible_true w : reversible Fun_true Fun_true w w.
Proof. split; apply carries_true. Qed.

Lemma reversible_step undo redo local_undo local_redo w0 w w1 :
  reversible undo redo w0 w ->
  carries local_undo w1 w -> carries local_redo w w1 ->
  reversible (fst (UPDATE_UNDO_REDO local_redo local_undo undo redo))
             (snd (UPDATE_UNDO_REDO local_redo local_undo undo redo)) w0 w1.
Proof.
  intros [Hu Hr] Hlu Hlr. split.
  - exact (carries_seq _ _ _ _ _ Hlu Hu).
  - exact (carries_seq _ _ _ _ _ Hr Hlr).
Qed.

(** undoing and then redoing from the world the transaction produced *)
Lemma reversible_cycle undo redo w0 w1 :
  reversible undo redo w0 w1 -> wf w1 ->
  exists wu, undo w1 = Some (true, wu) /\ wf wu /\ same_markers wu w0
    /\ exists wr, redo wu = Some (true, wr) /\ wf wr /\ same_markers wr w1.
Proof.
  intros [Hu Hr] Hwf1.
  destruct (Hu w1 Hwf1 (fun f => eq_refl)) as (wu & Hrun & Hwfu & Hsu).
  destruct (Hr wu Hwfu Hsu) as (wr & Hrun' & Hwfr & Hsr).
  exists wu. split; [exact Hrun|]. split; [exact Hwfu|]. split; [exact Hsu|].
  exists wr. split; [exact Hrun'|]. split; assumption.
Qed.

Lemma changeComment_carries pos cmt ty wa wb c0 :
  markerAt pos wa = Some c0 -> in_palette ty = true ->
  (forall f, markerAt f wb =
             if f =? pos then Some (mkCommentedTime pos cmt ty) else markerAt f wa) ->
  carries (changeComment_lambda pos cmt ty) wa wb.
Proof.
  intros Hat Hty Hwb w Hwf Hs.
  rewrite <- (Hs pos) in Hat.
  destruct (markerAt_Some _ _ _ Hwf Hat) as (mid & Hp & Hf & Ht & _).
  eexists. split; [apply (changeComment_run _ _ _ _ _ _ Hp Hf)|].
  rewrite Ht. split; [apply (wf_put_rename _ _ _ _ _ Hwf Hp Hty)|].
  intros f. rewrite (markerAt_rename _ _ _ _ _ Hwf Hp), Hwb, (Hs f). reflexivity.
Qed.

Lemma addMarker_lambda_carries pos cmt ty wa wb :
  markerAt pos wa = None -> in_palette ty = true ->
  (forall f, markerAt f wb =
             if f =? pos then Some (mkCommentedTime pos cmt ty) else markerAt f wa) ->
  carries (addMarker_lambda pos cmt ty) wa wb.
Proof.
  intros Hat Hty Hwb w Hwf Hs.
  rewrite <- (Hs pos) in Hat.
  pose proof (markerAt_None _ _ Hwf Hat) as Hp.
  eexists. split; [apply (addMarker_lambda_run _ _ _ _ Hp)|].
  unfold addSnapPoint.
  split; [apply wf_snapNotify, (wf_put_add _ _ _ _ Hwf Hp Hty)|].
  intros f. rewrite markerAt_snapNotify, (markerAt_add _ _ _ _ Hwf), Hwb, (Hs f).
  reflexivity.
Qed.

Lemma deleteMarker_carries pos wa wb c0 :
  markerAt pos wa = Some c0 ->
  (forall f, markerAt f wb = if f =? pos then None else markerAt f wa) ->
  carries (deleteMarker_lambda pos) wa wb.
Proof.
  intros Hat Hwb w Hwf Hs.
  rewrite <- (Hs pos) in Hat.
  destruct (markerAt_Some _ _ _ Hwf Hat) as (mid & Hp & Hf & Ht & _).
  eexists. split; [apply (deleteMarker_run _ _ _ _ Hp Hf)|].
  unfold removeSnapPoint.
  split; [apply wf_snapNotify, (wf_put_delete _ _ _ Hwf Hp)|].
  intros f. rewrite markerAt_snapNotify, (markerAt_delete _ _ _ _ Hwf Hp), Hwb, (Hs f).
  reflexivity.
Qed.

Lemma markerAt_restore w w1 pos c :
  markerAt pos w = Some c -> time c = pos ->
  (forall f, markerAt f w1 = if f =? pos then None else markerAt f w) ->
  forall f, markerAt f w =
            if f =? pos then Some (mkCommentedTime pos (comment c) (markerType c))
            else markerAt f w1.
Proof.
  intros Hat Ht Hw1 f. rewrite Hw1.
  destruct (Z.eqb_spec f pos) as [->|_]; [|reflexivity].
  rewrite Hat, <- Ht. destruct c; reflexivity.
Qed.

(** one step of add, with its inverse and its forward closure *)
Lemma addMarker_u_carries w pos cmt ty undo redo :
  wf w -> in_palette (resolve_type w ty) = true ->
  exists local_undo local_redo w1,
    addMarker_u pos cmt ty undo redo w =
      Some (true, fst (UPDATE_UNDO_REDO local_redo local_undo undo redo),
                  snd (UPDATE_UNDO_REDO local_redo local_undo undo redo), w1)
    /\ wf w1
    /\ (forall f, markerAt f w1 =
                  if f =? pos then Some (mkCommentedTime pos cmt (resolve_type w ty))
                  else markerAt f w)
    /\ default_marker_type w1 = default_marker_type w
    /\ m_guide (model w1) = m_guide (model w)
    /\ carries local_undo w1 w
    /\ carries local_redo w w1.
Proof.
  intros Hwf Hty. destruct (positions w !! pos) as [mid|] eqn:Hp.
  - destruct (wf_marker_at _ _ _ Hwf Hp) as (c & Hf & Ht & Hmid).
    assert (Hat : markerAt pos w = Some c) by (unfold markerAt; rewrite Hp; exact Hf).
    pose proof (fun f => markerAt_rename w pos mid
                          (mkCommentedTime pos cmt (resolve_type w ty)) f Hwf Hp)
      as Hat1.
    do 3 eexists. split; [apply (addMarker_u_rename _ _ _ _ _ _ _ _ Hwf Hp Hf Hty)|].
    split; [apply (wf_put_rename _ _ _ _ _ Hwf Hp Hty)|].
    split; [intros f; apply Hat1|].
    split; [reflexivity|]. split; [reflexivity|]. split.
    + eapply changeComment_carries.
      * rewrite Hat1, Z.eqb_refl. reflexivity.
      * apply (wf_types _ Hwf _ _ Hf).
      * intros f. rewrite Hat1.
        destruct (Z.eqb_spec f pos) as [->|_]; [|reflexivity].
        rewrite Hat, <- Ht. destruct c; reflexivity.
    + eapply changeComment_carries; [exact Hat | exact Hty | intros f; apply Hat1].
  - assert (Hat : markerAt pos w = None) by (unfold markerAt; rewrite Hp; reflexivity).
    assert (Hat1 : forall f,
               markerAt f (addSnapPoint pos
                  (put w (StdMap.insert (next_id w)
                            (mkCommentedTime pos cmt (resolve_type w ty)) (markers w))
                         (<[pos := next_id w]> (positions w)) (next_id w + 1)))
               = if f =? pos then Some (mkCommentedTime pos cmt (resolve_type w ty))
                 else markerAt f w).
    { intros f. unfold addSnapPoint.
      rewrite markerAt_snapNotify. apply (markerAt_add _ _ _ _ Hwf). }
    do 3 eexists. split; [apply (addMarker_u_add _ _ _ _ _ _ Hp Hty)|].
    unfold addSnapPoint at 1.
    split; [apply wf_snapNotify, (wf_put_add _ _ _ _ Hwf Hp Hty)|].
    split; [exact Hat1|].
    split; [unfold addSnapPoint; rewrite snapNotify_default; reflexivity|].
    split; [unfold addSnapPoint; rewrite snapNotify_guide; reflexivity|]. split.
    + eapply deleteMarker_carries.
      * rewrite Hat1, Z.eqb_refl. reflexivity.
      * intros f. rewrite Hat1.
        destruct (Z.eqb_spec f pos) as [->|_]; [exact Hat | reflexivity].
    + eapply addMarker_lambda_carries; [exact Hat | exact Hty | exact Hat1].
Qed.

(** one step of remove, with its inverse and its forward closure *)
Lemma removeMarker_u_carries w pos undo redo c :
  wf w -> markerAt pos w = Some c ->
  exists w1,
    removeMarker_u pos undo redo w =
      Some (true,
            fst (UPDATE_UNDO_REDO (deleteMarker_lambda pos)
                   (addMarker_lambda pos (comment c) (markerType c)) undo redo),
            snd (UPDATE_UNDO_REDO (deleteMarker_lambda pos)
                   (addMarker_lambda pos (comment c) (markerType c)) undo redo),
            w1)
    /\ wf w1
    /\ (forall f, markerAt f w1 = if f =? pos then None else markerAt f w)
    /\ default_marker_type w1 = default_marker_type w
    /\ m_guide (model w1) = m_guide (model w)
    /\ next_id w1 = next_id w
    /\ carries (addMarker_lambda pos (comment c) (markerType c)) w1 w
    /\ carries (deleteMarker_lambda pos) w w1.
Proof.
  intros Hwf Hat.
  destruct (markerAt_Some _ _ _ Hwf Hat) as (mid & Hp & Hf & Ht & _).
  destruct (removeMarker_u_spec w pos undo redo mid c Hwf Hp Hf)
    as (w1 & Hrun & Hwf1 & Hat1 & Hd & Hg).
  exists w1. split; [exact Hrun|]. split; [exact Hwf1|]. split; [exact Hat1|].
  split; [exact Hd|]. split; [exact Hg|]. split.
  { pose proof (removeMarker_u_run w pos undo redo mid c Hwf Hp Hf) as Hrun'.
    rewrite Hrun in Hrun'. injection Hrun' as ->.
    unfold removeSnapPoint. rewrite snapNotify_next_id. reflexivity. }
  split.
  - eapply addMarker_lambda_carries.
    + rewrite Hat1, Z.eqb_refl. reflexivity.
    + apply (wf_types _ Hwf _ _ Hf).
    + apply (markerAt_restore _ _ _ _ Hat Ht Hat1).
  - eapply deleteMarker_carries; [exact Hat | exact Hat1].
Qed.

(** ** addMarker on a free frame, and undoing an add *)

(** X7. [addMarker(time, comment, type)] on a well-formed list with no
    marker at [time]: it answers true; the new marker is stored last, under
    the id drawn from the counter, and the index maps [time] to that id;
    every other frame reads as before; each live snap consumer receives
    [addPoint(time)] once per registration; one transaction is pushed,
    labelled "Add guide" for a guide list and "Add marker" otherwise. *)
Theorem addMarker_new_contract (d : Doc) (pos : Z) (cmt : string) (ty : Z) :
  wf (world d) ->
  hasMarker pos (model (world d)) = false ->
  in_palette (resolve_type (world d) ty) = true ->
  exists d' undo redo,
    addMarker pos cmt ty d = Some (true, d')
    /\ markers (world d') =
         markers (world d)
         ++ [(next_id (world d),
              mkCommentedTime pos cmt (resolve_type (world d) ty))]
    /\ positions (world d') = <[pos := next_id (world d)]> (positions (world d))
    /\ next_id (world d') = next_id (world d) + 1
    /\ (forall f, getMarker f (model (world d')) =
          if f =? pos
          then Some (mkCommentedTime pos cmt (resolve_type (world d) ty), true)
          else getMarker f (model (world d)))
    /\ (forall h, snapHeap (world d') !! h =
          (fun log => log ++ replicate
             (count_occ Nat.eq_dec (m_registeredSnaps (model (world d))) h)
             (AddPoint pos))
          <$> snapHeap (world d) !! h)
    /\ undoable d' =
         mkUndoCommand
           (if m_guide (model (world d)) then "Add guide" else "Add marker")
           undo redo :: undoable d
    /\ wf (world d').
Proof.
  intros Hwf Hno Hty. pose proof Hno as Hno'. apply hasMarker_None in Hno.
  pose proof (wf_put_add _ _ cmt _ Hwf Hno Hty) as Hwf1.
  unfold addMarker. rewrite (addMarker_u_add _ _ _ _ _ _ Hno Hty), Hno'. simpl.
  do 3 eexists. split; [reflexivity|].
  unfold PUSH_UNDO, with_world, label, i18n. cbn [world undoable]. unfold addSnapPoint.
  rewrite snapNotify_guide, snapNotify_markers, snapNotify_positions, snapNotify_next_id, put_markers,
    put_positions.
  split; [apply insert_last, wf_below, Hwf|].
  split; [reflexivity|]. split; [reflexivity|].
  split; [|split; [|split]].
  - intros f. rewrite !getMarker_markerAt by (try apply wf_snapNotify; assumption).
    rewrite markerAt_snapNotify, (markerAt_add _ _ _ _ Hwf).
    destruct (f =? pos); reflexivity.
  - intros h. rewrite snapNotify_heap. reflexivity.
  - reflexivity.
  - apply wf_snapNotify, Hwf1.
Qed.

Lemma addMarker_new_contract_witness :
  exists d',
    addMarker 30 "c" (-1) sampleDoc = Some (true, d')
    /\ markers (world d') = markers (world sampleDoc) ++ [(2, mkCommentedTime 30 "c" 0)]
    /\ snapHeap (world d') !! 0%nat = Some [AddPoint 10; AddPoint 20; AddPoint 30]
    /\ map cmd_text (undoable d') = ["Add guide"%string].
Proof.
  assert (Hwf : wf (world sampleDoc)) by (apply wf_check_sound; vm_compute; reflexivity).
  destruct (addMarker_new_contract sampleDoc 30 "c" (-1) Hwf eq_refl eq_refl)
    as (d' & undo & redo & Hrun & Hm & _ & _ & _ & Hsnap & Hu & _).
  exists d'. split; [exact Hrun|]. split; [exact Hm|].
  split; [rewrite Hsnap; reflexivity|]. rewrite Hu. reflexivity.
Defined.

(** X8. [addMarker] stops on its assertion exactly when the type it
    works with, the configured default for [-1], lies outside the palette
    0..8; on a well-formed list every other call returns. *)
Theorem addMarker_assertion (d : Doc) (pos : Z) (cmt : string) (ty : Z) :
  wf (world d) ->
  (addMarker pos cmt ty d = None <->
   in_palette (resolve_type (world d) ty) = false).
Proof.
  intros Hwf. split.
  - intros Hnone. destruct (in_palette (resolve_type (world d) ty)) eqn:Hty; [|reflexivity].
    exfalso. unfold addMarker in Hnone.
    destruct (addMarker_u_carries (world d) pos cmt ty Fun_true Fun_true Hwf Hty)
      as (lu & lr & w1 & Hrun & _).
    rewrite Hrun in Hnone. simpl in Hnone.
    destruct (hasMarker pos (model (world d))); discriminate.
  - intros Hty. unfold addMarker, addMarker_u. fold (resolve_type (world d) ty).
    rewrite Hty. reflexivity.
Qed.

Lemma addMarker_assertion_witness :
  addMarker 30 "c" 9 sampleDoc = None /\ addMarker 30 "c" 8 sampleDoc <> None.
Proof.
  assert (Hwf : wf (world sampleDoc)) by (apply wf_check_sound; vm_compute; reflexivity).
  split.
  - apply (addMarker_assertion sampleDoc 30 "c" 9 Hwf). reflexivity.
  - intros Hnone. apply (addMarker_assertion sampleDoc 30 "c" 8 Hwf) in Hnone.
    discriminate.
Defined.

(** ** Undoing and redoing single edits *)

Lemma same_markers_getMarker w1 w2 :
  wf w1 -> wf w2 -> same_markers w1 w2 ->
  forall f, getMarker f (model w1) = getMarker f (model w2).
Proof.
  intros H1 H2 Hs f. rewrite !getMarker_markerAt by assumption. rewrite (Hs f). reflexivity.
Qed.

(** X9. Undo and redo of [addMarker], whether it added or renamed. On a
    well-formed list the call pushes a transaction whose inverse, run in
    the world the call produced, succeeds and restores both containers
    exactly, and whose forward action, run after that, succeeds and makes
    every frame read as it did after the call. *)
Theorem addMarker_undo_redo (d : Doc) (pos : Z) (cmt : string) (ty : Z) :
  wf (world d) ->
  in_palette (resolve_type (world d) ty) = true ->
  exists d' cmd wu wr,
    addMarker pos cmt ty d = Some (true, d')
    /\ undoable d' = cmd :: undoable d
    /\ cmd_undo cmd (world d') = Some (true, wu)
    /\ markers wu = markers (world d)
    /\ positions wu = positions (world d)
    /\ cmd_redo cmd wu = Some (true, wr)
    /\ wf wr
    /\ (forall f, getMarker f (model wr) = getMarker f (model (world d'))).
Proof.
  intros Hwf Hty.
  destruct (addMarker_u_spec (world d) pos cmt ty Fun_true Fun_true Hwf Hty)
    as (lu0 & lr0 & w0 & Hrun0 & _ & _ & _ & _ & Hback).
  destruct (addMarker_u_carries (world d) pos cmt ty Fun_true Fun_true Hwf Hty)
    as (lu & lr & w1 & Hrun & Hwf1 & _ & _ & _ & Hcu & Hcr).
  pose proof Hrun as Hrun'. rewrite Hrun0 in Hrun'.
  injection Hrun' as Hfst _ Hw. subst w0.
  assert (Hc : fst (UPDATE_UNDO_REDO lr0 lu0 Fun_true Fun_true)
               = fst (UPDATE_UNDO_REDO lr lu Fun_true Fun_true)) by exact Hfst.
  destruct (reversible_cycle _ _ (world d) w1
              (reversible_step Fun_true Fun_true lu lr _ _ _
                 (reversible_true (world d)) Hcu Hcr) Hwf1)
    as (wu & Hundo & Hwfu & Hsu & wr & Hredo & Hwfr & Hsr).
  destruct (Hback w1 (same_lists_refl w1)) as (w2 & Hlu0 & Hm2 & Hp2).
  assert (Hwu : wu = w2).
  { rewrite <- Hc in Hundo. simpl in Hundo. rewrite Hlu0 in Hundo. simpl in Hundo.
    congruence. }
  subst w2.
  unfold addMarker. rewrite Hrun. simpl.
  destruct (hasMarker pos (model (world d))); simpl;
    (do 4 eexists; split; [reflexivity|]; split; [reflexivity|]; simpl;
     split; [exact Hundo|]; split; [exact Hm2|]; split; [exact Hp2|];
     split; [exact Hredo|]; split; [exact Hwfr|];
     apply same_markers_getMarker; assumption).
Qed.

Lemma addMarker_undo_redo_witness :
  exists d' cmd wu wr,
    addMarker 10 "B" 3 sampleDoc = Some (true, d')
    /\ undoable d' = cmd :: undoable sampleDoc
    /\ cmd_undo cmd (world d') = Some (true, wu)
    /\ markers wu = markers (world sampleDoc)
    /\ cmd_redo cmd wu = Some (true, wr)
    /\ getMarker 10 (model wr) = getMarker 10 (model (world d')).
Proof.
  assert (Hwf : wf (world sampleDoc)) by (apply wf_check_sound; vm_compute; reflexivity).
  destruct (addMarker_undo_redo sampleDoc 10 "B" 3 Hwf eq_refl)
    as (d' & cmd & wu & wr & Hrun & Hu & Hundo & Hm & _ & Hredo & _ & Hget).
  exists d', cmd, wu, wr.
  split; [exact Hrun|]. split; [exact Hu|]. split; [exact Hundo|].
  split; [exact Hm|]. split; [exact Hredo | apply Hget].
Defined.

(** X10. Undo and redo of [removeMarker]. On a well-formed list with a
    marker at [time] the call pushes a transaction whose inverse, run in
    the world the call produced, succeeds and makes every frame read as
    before the call, the marker at [time] being stored again under a
    newly drawn id and not under the id it had; the forward action run
    after that removes it again. *)
Theorem removeMarker_undo_redo (d : Doc) (pos mid : Z) (c : CommentedTime) :
  wf (world d) ->
  positions (world d) !! pos = Some mid ->
  StdMap.find mid (markers (world d)) = Some c ->
  exists d' cmd wu wr,
    removeMarker pos d = Some (true, d')
    /\ undoable d' = cmd :: undoable d
    /\ cmd_undo cmd (world d') = Some (true, wu)
    /\ wf wu
    /\ (forall f, getMarker f (model wu) = getMarker f (model (world d)))
    /\ getIdFromPos pos (model wu) = next_id (world d)
    /\ getIdFromPos pos (model wu) <> mid
    /\ cmd_redo cmd wu = Some (true, wr)
    /\ wf wr
    /\ (forall f, getMarker f (model wr) = getMarker f (model (world d'))).
Proof.
  intros Hwf Hp Hf.
  assert (Hat : markerAt pos (world d) = Some c) by (unfold markerAt; rewrite Hp; exact Hf).
  destruct (removeMarker_u_carries (world d) pos Fun_true Fun_true c Hwf Hat)
    as (w1 & Hrun & Hwf1 & Hat1 & _ & _ & Hn1 & Hcu & Hcr).
  destruct (reversible_cycle _ _ (world d) w1
              (reversible_step Fun_true Fun_true _ _ _ _ _
                 (reversible_true (world d)) Hcu Hcr) Hwf1)
    as (wu & Hundo & Hwfu & Hsu & wr & Hredo & Hwfr & Hsr).
  assert (Hid : getIdFromPos pos (model wu) = next_id (world d)).
  { assert (Hfree : positions w1 !! pos = None).
    { apply (markerAt_None _ _ Hwf1). rewrite Hat1, Z.eqb_refl. reflexivity. }
    simpl in Hundo.
    rewrite (addMarker_lambda_run _ _ _ _ Hfree) in Hundo. simpl in Hundo.
    injection Hundo as <-. unfold getIdFromPos, addSnapPoint.
    fold (positions (snapNotify (AddPoint pos)
            (put w1 (StdMap.insert (next_id w1)
                       (mkCommentedTime pos (comment c) (markerType c)) (markers w1))
                    (<[pos := next_id w1]> (positions w1)) (next_id w1 + 1)))).
    rewrite snapNotify_positions, put_positions, lookup_insert_eq. exact Hn1. }
  unfold removeMarker. rewrite Hrun. simpl.
  do 4 eexists. split; [reflexivity|]. split; [reflexivity|]. simpl.
  split; [exact Hundo|]. split; [exact Hwfu|].
  split; [apply same_markers_getMarker; assumption|].
  split; [exact Hid|].
  split; [rewrite Hid; pose proof (wf_ids _ Hwf _ _ Hf); lia|].
  split; [exact Hredo|]. split; [exact Hwfr|].
  apply same_markers_getMarker; assumption.
Qed.

Lemma removeMarker_undo_redo_witness :
  exists d' cmd wu,
    removeMarker 10 sampleDoc = Some (true, d')
    /\ undoable d' = cmd :: undoable sampleDoc
    /\ cmd_undo cmd (world d') = Some (true, wu)
    /\ getMarker 10 (model wu) = Some (mkCommentedTime 10 "a" 0, true)
    /\ getIdFromPos 10 (model wu) = 2.
Proof.
  assert (Hwf : wf (world sampleDoc)) by (apply wf_check_sound; vm_compute; reflexivity).
  destruct (removeMarker_undo_redo sampleDoc 10 0 (mkCommentedTime 10 "a" 0)
              Hwf eq_refl eq_refl)
    as (d' & cmd & wu & wr & Hrun & Hu & Hundo & _ & Hget & Hid & _).
  exists d', cmd, wu.
  split; [exact Hrun|]. split; [exact Hu|]. split; [exact Hundo|].
  split; [rewrite Hget; reflexivity | exact Hid].
Defined.

(** X11. Undo and redo of [editMarker]. On a well-formed list, an edit
    that changes something pushes a transaction whose inverse, run in the
    world the edit produced, succeeds and makes every frame read as before
    the edit, a marker the edit had overwritten at the new time included;
    the forward action run after that makes every frame read as after the
    edit. *)
Theorem editMarker_undo_redo (d : Doc) (oldPos pos : Z) (cmt : string) (ty : Z)
    (mid : Z) (cur : CommentedTime) :
  wf (world d) ->
  positions (world d) !! oldPos = Some mid ->
  StdMap.find mid (markers (world d)) = Some cur ->
  in_palette (effective_type cur ty) = true ->
  identical_edit cur oldPos pos cmt ty = false ->
  exists d' cmd wu wr,
    editMarker oldPos pos cmt ty d = Some (true, d')
    /\ undoable d' = cmd :: undoable d
    /\ cmd_undo cmd (world d') = Some (true, wu)
    /\ wf wu
    /\ (forall f, getMarker f (model wu) = getMarker f (model (world d)))
    /\ cmd_redo cmd wu = Some (true, wr)
    /\ wf wr
    /\ (forall f, getMarker f (model wr) = getMarker f (model (world d'))).
Proof.
  intros Hwf Hp Hf Hty Hid.
  destruct (wf_marker_at _ _ _ Hwf Hp) as (c' & Hf' & Ht & Hmid).
  assert (Hat : markerAt oldPos (world d) = Some cur)
    by (unfold markerAt; rewrite Hp; exact Hf).
  destruct (removeMarker_u_carries (world d) oldPos Fun_true Fun_true cur Hwf Hat)
    as (w1 & Hrun1 & Hwf1 & _ & _ & _ & _ & Hcu1 & Hcr1).
  assert (Hty1 : in_palette (resolve_type w1 (effective_type cur ty)) = true)
    by (rewrite resolve_in_palette; assumption).
  unfold editMarker.
  rewrite (hasMarker_true _ _ _ Hp), (marker_run _ _ _ _ Hp Hmid Hf). simpl.
  fold (effective_comment cur cmt). fold (effective_type cur ty).
  fold (identical_edit cur oldPos pos cmt ty). rewrite Hid.
  rewrite Hrun1. simpl.
  match goal with
  | |- context [addMarker_u _ _ _ ?u ?r w1] =>
      assert (Hrev1 : reversible u r (world d) w1)
        by exact (reversible_step Fun_true Fun_true _ _ _ _ _
                    (reversible_true (world d)) Hcu1 Hcr1);
      destruct (addMarker_u_carries w1 pos (effective_comment cur cmt)
                  (effective_type cur ty) u r Hwf1 Hty1)
        as (lu & lr & w2 & Hrun2 & Hwf2 & _ & _ & _ & Hcu2 & Hcr2);
      pose proof (reversible_step u r lu lr _ _ _ Hrev1 Hcu2 Hcr2) as Hrev2
  end.
  destruct (reversible_cycle _ _ _ _ Hrev2 Hwf2)
    as (wu & Hundo & Hwfu & Hsu & wr & Hredo & Hwfr & Hsr).
  rewrite Hrun2. simpl.
  do 4 eexists. split; [reflexivity|]. split; [reflexivity|]. simpl.
  split; [exact Hundo|]. split; [exact Hwfu|].
  split; [apply same_markers_getMarker; assumption|].
  split; [exact Hredo|]. split; [exact Hwfr|].
  apply same_markers_getMarker; assumption.
Qed.

Lemma editMarker_undo_redo_witness :
  exists d' cmd wu,
    editMarker 10 20 "c" 2 sampleDoc = Some (true, d')
    /\ undoable d' = cmd :: undoable sampleDoc
    /\ cmd_undo cmd (world d') = Some (true, wu)
    /\ getMarker 10 (model wu) = Some (mkCommentedTime 10 "a" 0, true)
    /\ getMarker 20 (model wu) = Some (mkCommentedTime 20 "b" 1, true).
Proof.
  assert (Hwf : wf (world sampleDoc)) by (apply wf_check_sound; vm_compute; reflexivity).
  destruct (editMarker_undo_redo sampleDoc 10 20 "c" 2 0 (mkCommentedTime 10 "a" 0)
              Hwf eq_refl eq_refl eq_refl eq_refl)
    as (d' & cmd & wu & wr & Hrun & Hu & Hundo & _ & Hget & _).
  exists d', cmd, wu.
  split; [exact Hrun|]. split; [exact Hu|]. split; [exact Hundo|].
  split; rewrite Hget; reflexivity.
Defined.

(** ** addMarkers *)

Lemma resolve_type_default w w1 ty :
  default_marker_type w1 = default_marker_type w ->
  resolve_type w1 ty = resolve_type w ty.
Proof. unfold resolve_type. intros ->. reflexivity. Qed.

Lemma markerAt_hasMarker w f :
  wf w -> hasMarker f (model w) = match markerAt f w with Some _ => true | None => false end.
Proof.
  intros Hwf. destruct (markerAt f w) as [c|] eqn:Hat.
  - destruct (markerAt_Some _ _ _ Hwf Hat) as (_ & _ & _ & _ & Hh & _). exact Hh.
  - apply hasMarker_false, (markerAt_None _ _ Hwf Hat).
Qed.

Lemma addMarkers_loop_cons key value rest ty rename undo redo w :
  addMarkers_loop ((key, value) :: rest) ty rename true undo redo w =
    '(res1, undo1, redo1, w1) ← addMarker_u key value ty undo redo w;
    addMarkers_loop rest ty (if hasMarker key (model w) then true else rename)
      res1 undo1 redo1 w1.
Proof. reflexivity. Qed.

Lemma addMarkers_loop_spec entries ty : forall rename undo redo w w0,
  wf w -> reversible undo redo w0 w ->
  in_palette (resolve_type w ty) = true ->
  List.NoDup (map fst entries) ->
  exists u r w',
    addMarkers_loop entries ty rename true undo redo w
      = Some (rename || existsb (fun e => hasMarker (fst e) (model w)) entries,
              true, u, r, w')
    /\ wf w'
    /\ reversible u r w0 w'
    /\ (forall key value, In (key, value) entries ->
          markerAt key w' = Some (mkCommentedTime key value (resolve_type w ty)))
    /\ (forall f, ~ In f (map fst entries) -> markerAt f w' = markerAt f w)
    /\ m_guide (model w') = m_guide (model w).
Proof.
  induction entries as [|[key value] rest IH]; intros rename undo redo w w0 Hwf Hrev Hty Hnd.
  - exists undo, redo, w. simpl. rewrite orb_false_r.
    split; [reflexivity|]. split; [exact Hwf|]. split; [exact Hrev|].
    split; [intros ? ? []|]. split; reflexivity.
  - inversion Hnd as [|? ? Hnotin Hnd']; subst.
    destruct (addMarker_u_carries w key value ty undo redo Hwf Hty)
      as (lu & lr & w1 & Hrun & Hwf1 & Hat1 & Hd1 & Hg1 & Hcu & Hcr).
    pose proof (reversible_step undo redo lu lr _ _ _ Hrev Hcu Hcr) as Hrev1.
    assert (Hty1 : in_palette (resolve_type w1 ty) = true)
      by (rewrite (resolve_type_default _ _ _ Hd1); exact Hty).
    destruct (IH (if hasMarker key (model w) then true else rename) _ _ w1 w0
                Hwf1 Hrev1 Hty1 Hnd')
      as (u & r & w' & Hrun' & Hwf' & Hrev' & Hin' & Hout' & Hg').
    exists u, r, w'. rewrite addMarkers_loop_cons, Hrun.
    unfold mbind, option_bind. cbv beta iota. rewrite Hrun'.
    cbn [existsb fst].
    split.
    { f_equal. f_equal. f_equal. f_equal. f_equal.
      assert (Hsame : existsb (fun e : Z * string => hasMarker (fst e) (model w1)) rest
                      = existsb (fun e : Z * string => hasMarker (fst e) (model w)) rest).
      { clear -Hnotin Hat1 Hwf Hwf1. induction rest as [|[k v] rest IH]; simpl; [reflexivity|].
        rewrite IH by (intros Hin; apply Hnotin; right; exact Hin).
        f_equal. rewrite (markerAt_hasMarker _ _ Hwf1), (markerAt_hasMarker _ _ Hwf), Hat1.
        destruct (Z.eqb_spec k key) as [->|_]; [|reflexivity].
        exfalso. apply Hnotin. left. reflexivity. }
      rewrite Hsame. destruct (hasMarker key (model w)), rename; reflexivity. }
    split; [exact Hwf'|]. split; [exact Hrev'|].
    rewrite (resolve_type_default _ _ _ Hd1) in Hin'.
    split; [|split].
    + intros k v [Heq|Hin].
      * injection Heq as <- <-. rewrite (Hout' key Hnotin), Hat1, Z.eqb_refl. reflexivity.
      * apply Hin', Hin.
    + intros f Hf. rewrite Hout' by (intros Hin; apply Hf; right; exact Hin).
      rewrite Hat1. destruct (Z.eqb_spec f key) as [->|_]; [|reflexivity].
      exfalso. apply Hf. left. reflexivity.
    + rewrite Hg', Hg1. reflexivity.
Qed.

(** X12. [addMarkers(markers, type)] on a well-formed list, for a map
    of frames to comments: it answers true; every frame of the map then
    reads a marker with the mapped comment and the given type, every other
    frame reads as before; one transaction is pushed, labelled as a rename
    when some frame of the map held a marker and as an add otherwise,
    whose inverse restores the reading of every frame and whose forward
    action applies the batch again. *)
Theorem addMarkers_contract (d : Doc) (entries : list (Z * string)) (ty : Z) :
  wf (world d) ->
  List.NoDup (map fst entries) ->
  in_palette (resolve_type (world d) ty) = true ->
  exists d' cmd wu wr,
    addMarkers entries ty d = Some (true, d')
    /\ wf (world d')
    /\ (forall key value, In (key, value) entries ->
          getMarker key (model (world d')) =
            Some (mkCommentedTime key value (resolve_type (world d) ty), true))
    /\ (forall f, ~ In f (map fst entries) ->
          getMarker f (model (world d')) = getMarker f (model (world d)))
    /\ undoable d' = cmd :: undoable d
    /\ cmd_text cmd =
         (if existsb (fun e => hasMarker (fst e) (model (world d))) entries
          then if m_guide (model (world d)) then "Rename guide" else "Rename marker"
          else if m_guide (model (world d)) then "Add guide" else "Add marker")%string
    /\ cmd_undo cmd (world d') = Some (true, wu)
    /\ (forall f, getMarker f (model wu) = getMarker f (model (world d)))
    /\ cmd_redo cmd wu = Some (true, wr)
    /\ (forall f, getMarker f (model wr) = getMarker f (model (world d'))).
Proof.
  intros Hwf Hnd Hty.
  destruct (addMarkers_loop_spec entries ty false Fun_true Fun_true (world d) (world d)
              Hwf (reversible_true _) Hty Hnd)
    as (u & r & w' & Hrun & Hwf' & Hrev & Hin & Hout & Hg).
  destruct (reversible_cycle _ _ _ _ Hrev Hwf')
    as (wu & Hundo & Hwfu & Hsu & wr & Hredo & Hwfr & Hsr).
  unfold addMarkers. rewrite Hrun. simpl.
  assert (Hget_in : forall key value, In (key, value) entries ->
            getMarker key (model w') =
              Some (mkCommentedTime key value (resolve_type (world d) ty), true)).
  { intros key value Hk. rewrite (getMarker_markerAt _ _ Hwf'), (Hin _ _ Hk). reflexivity. }
  assert (Hget_out : forall f, ~ In f (map fst entries) ->
            getMarker f (model w') = getMarker f (model (world d))).
  { intros f Hf. rewrite !getMarker_markerAt by assumption. rewrite (Hout _ Hf). reflexivity. }
  destruct (existsb _ entries);
    (do 4 eexists; split; [reflexivity|]; split; [exact Hwf'|];
     split; [exact Hget_in|]; split; [exact Hget_out|];
     split; [reflexivity|];
     split; [unfold label, i18n; simpl; rewrite Hg; reflexivity|];
     split; [exact Hundo|];
     split; [apply same_markers_getMarker; assumption|];
     split; [exact Hredo|];
     apply same_markers_getMarker; assumption).
Qed.

Lemma addMarkers_contract_witness :
  exists d' cmd,
    addMarkers [(5, "x"%string); (20, "y"%string)] 4 sampleDoc = Some (true, d')
    /\ getMarker 5 (model (world d')) = Some (mkCommentedTime 5 "x" 4, true)
    /\ getMarker 20 (model (world d')) = Some (mkCommentedTime 20 "y" 4, true)
    /\ getMarker 10 (model (world d')) = Some (mkCommentedTime 10 "a" 0, true)
    /\ undoable d' = cmd :: undoable sampleDoc
    /\ cmd_text cmd = "Rename guide"%string.
Proof.
  assert (Hwf : wf (world sampleDoc)) by (apply wf_check_sound; vm_compute; reflexivity).
  assert (Hnd : List.NoDup (map fst [(5, "x"%string); (20, "y"%string)])).
  { simpl. constructor; [intros [H|[]]; discriminate|].
    constructor; [intros []|constructor]. }
  destruct (addMarkers_contract sampleDoc [(5, "x"%string); (20, "y"%string)] 4
              Hwf Hnd eq_refl)
    as (d' & cmd & wu & wr & Hrun & _ & Hin & Hout & Hu & Ht & _).
  exists d', cmd. split; [exact Hrun|].
  split; [apply Hin; left; reflexivity|].
  split; [apply Hin; right; left; reflexivity|].
  split; [rewrite Hout; [reflexivity | simpl; intros [H|[H|[]]]; discriminate]|].
  split; [exact Hu | exact Ht].
Defined.

(** ** removeAllMarkers *)

Lemma removeAllMarkers_loop_cons p rest undo redo w :
  removeAllMarkers_loop (p :: rest) undo redo w =
    '(res, undo1, redo1, w1) ← removeMarker_u p undo redo w;
    if negb (res : bool) then
      '(undone, w2) ← (undo1 : Fun) w1;
      _ ← Q_ASSERT undone;
      Some (false, undo1, redo1, w2)
    else removeAllMarkers_loop rest undo1 redo1 w1.
Proof. reflexivity. Qed.

Lemma removeAllMarkers_loop_rev all_pos : forall undo redo w w0,
  wf w -> reversible undo redo w0 w -> List.NoDup all_pos ->
  (forall p, In p all_pos -> exists c, markerAt p w = Some c) ->
  exists u r w',
    removeAllMarkers_loop all_pos undo redo w = Some (true, u, r, w')
    /\ wf w'
    /\ reversible u r w0 w'
    /\ m_guide (model w') = m_guide (model w).
Proof.
  induction all_pos as [|p rest IH]; intros undo redo w w0 Hwf Hrev Hnd Hall.
  - exists undo, redo, w. split; [reflexivity|]. split; [exact Hwf|].
    split; [exact Hrev | reflexivity].
  - inversion Hnd as [|? ? Hnotin Hnd']; subst.
    destruct (Hall p (or_introl eq_refl)) as [c Hat].
    destruct (removeMarker_u_carries w p undo redo c Hwf Hat)
      as (w1 & Hrun & Hwf1 & Hat1 & _ & Hg1 & _ & Hcu & Hcr).
    pose proof (reversible_step undo redo _ _ _ _ _ Hrev Hcu Hcr) as Hrev1.
    destruct (IH _ _ w1 w0 Hwf1 Hrev1 Hnd') as (u & r & w' & Hrun' & Hwf' & Hrev' & Hg').
    { intros q Hq. destruct (Hall q (or_intror Hq)) as [cq Hatq].
      exists cq. rewrite Hat1.
      destruct (Z.eqb_spec q p) as [->|_]; [contradiction | exact Hatq]. }
    exists u, r, w'. rewrite removeAllMarkers_loop_cons, Hrun.
    unfold mbind, option_bind. cbv beta iota. cbn [negb]. rewrite Hrun'.
    split; [reflexivity|]. split; [exact Hwf'|]. split; [exact Hrev'|].
    rewrite Hg', Hg1. reflexivity.
Qed.

(** X13. [removeAllMarkers] on a well-formed list answers true and
    leaves the storage and the position index empty; it pushes one
    transaction, labelled "Delete all guides" or "Delete all markers",
    whose inverse, run in the emptied world, makes every frame read as
    before the call, and whose forward action run after that empties the
    list again. *)
Theorem removeAllMarkers_contract (d : Doc) :
  wf (world d) ->
  exists d' cmd wu wr,
    removeAllMarkers d = Some (true, d')
    /\ markers (world d') = []
    /\ positions (world d') = ∅
    /\ undoable d' = cmd :: undoable d
    /\ cmd_text cmd =
         (if m_guide (model (world d)) then "Delete all guides"
          else "Delete all markers")%string
    /\ cmd_undo cmd (world d') = Some (true, wu)
    /\ wf wu
    /\ (forall f, getMarker f (model wu) = getMarker f (model (world d)))
    /\ cmd_redo cmd wu = Some (true, wr)
    /\ (forall f, getMarker f (model wr) = Some (CommentedTime_default, false)).
Proof.
  intros Hwf.
  destruct (removeAllMarkers_wf d Hwf) as (d0 & Hrun0 & Hwf0 & Hempty).
  destruct (removeAllMarkers_loop_rev
              (map (fun m => time (snd m)) (m_markerList (model (world d))))
              Fun_true Fun_true (world d) (world d) Hwf (reversible_true _))
    as (u & r & w' & Hrun & Hwf' & Hrev & Hg).
  { rewrite <- map_map. apply (wf_NoDup_times _ Hwf). }
  { intros p Hin. apply in_map_iff in Hin as [[k c] [Ht Hin]]. simpl in Ht. subst p.
    apply (In_find _ _ _ (wf_sorted _ Hwf)) in Hin. exists c.
    unfold markerAt, positions.
    rewrite (list_to_pos _ (wf_consistent _ Hwf) _ _ Hin). exact Hin. }
  destruct (reversible_cycle _ _ _ _ Hrev Hwf')
    as (wu & Hundo & Hwfu & Hsu & wr & Hredo & Hwfr & Hsr).
  assert (Hd0 : world d0 = w').
  { unfold removeAllMarkers in Hrun0. rewrite Hrun in Hrun0. simpl in Hrun0.
    injection Hrun0 as <-. reflexivity. }
  rewrite Hd0 in Hempty.
  assert (Hnopos : positions w' = ∅).
  { apply map_eq. intros pos. rewrite lookup_empty.
    destruct (positions w' !! pos) as [mid|] eqn:Hp; [|reflexivity].
    destruct (wf_marker_at _ _ _ Hwf' Hp) as (c & Hf & _).
    rewrite Hempty in Hf. discriminate. }
  unfold removeAllMarkers. rewrite Hrun. simpl.
  do 4 eexists. split; [reflexivity|]. simpl.
  split; [exact Hempty|]. split; [exact Hnopos|]. split; [reflexivity|].
  split; [unfold label, i18n; simpl; rewrite Hg; reflexivity|].
  split; [exact Hundo|]. split; [exact Hwfu|].
  split; [apply same_markers_getMarker; assumption|].
  split; [exact Hredo|].
  intros f. rewrite (same_markers_getMarker _ _ Hwfr Hwf' Hsr f).
  unfold getMarker, hasMarker. fold (positions w'). rewrite Hnopos, lookup_empty.
  reflexivity.
Qed.

Lemma removeAllMarkers_contract_witness :
  exists d' cmd wu,
    removeAllMarkers sampleDoc = Some (true, d')
    /\ markers (world d') = []
    /\ undoable d' = cmd :: undoable sampleDoc
    /\ cmd_text cmd = "Delete all guides"%string
    /\ cmd_undo cmd (world d') = Some (true, wu)
    /\ getMarker 20 (model wu) = Some (mkCommentedTime 20 "b" 1, true).
Proof.
  assert (Hwf : wf (world sampleDoc)) by (apply wf_check_sound; vm_compute; reflexivity).
  destruct (removeAllMarkers_contract sampleDoc Hwf)
    as (d' & cmd & wu & wr & Hrun & Hm & _ & Hu & Ht & Hundo & _ & Hget & _).
  exists d', cmd, wu. split; [exact Hrun|]. split; [exact Hm|]. split; [exact Hu|].
  split; [exact Ht|]. split; [exact Hundo|]. rewrite Hget. reflexivity.
Defined.

(** ** importFromJson ignoring conflicts *)

Lemma last_record_acc entries f : forall acc,
  last_record entries f acc =
    match last_record entries f None with
    | Some c => Some c
    | None => acc
    end.
Proof.
  induction entries as [|e rest IH]; intros acc; simpl; [reflexivity|].
  rewrite IH. symmetry. rewrite IH. symmetry.
  destruct (last_record rest f None); [reflexivity|].
  destruct e as [obj|]; [|reflexivity].
  destruct (contains "pos" obj && (entry_pos obj =? f)); reflexivity.
Qed.

Lemma import_loop_overwrite entries : forall undo redo w w0,
  wf w -> reversible undo redo w0 w ->
  exists u r w',
    importFromJson_loop entries true undo redo w = Some (true, u, r, w')
    /\ wf w'
    /\ reversible u r w0 w'
    /\ (forall f, markerAt f w' = last_record entries f (markerAt f w))
    /\ m_guide (model w') = m_guide (model w).
Proof.
  induction entries as [|e rest IH]; intros undo redo w w0 Hwf Hrev.
  { exists undo, redo, w. split; [reflexivity|]. split; [exact Hwf|].
    split; [exact Hrev|]. split; reflexivity. }
  destruct e as [obj|].
  2:{ rewrite import_loop_skip by exact I. apply IH; assumption. }
  destruct (contains "pos" obj) eqn:Hc.
  2:{ rewrite import_loop_skip by exact Hc.
      destruct (IH undo redo w w0 Hwf Hrev) as (u & r & w' & Hrun & Hwf' & Hrev' & Hat & Hg).
      exists u, r, w'. split; [exact Hrun|]. split; [exact Hwf'|]. split; [exact Hrev'|].
      split; [|exact Hg]. intros f. rewrite Hat. simpl. rewrite Hc. reflexivity. }
  assert (Hpal : in_palette (resolve_type w (entry_type obj)) = true).
  { rewrite resolve_in_palette; apply entry_type_in_palette. }
  destruct (addMarker_u_carries w (entry_pos obj) (entry_comment obj) (entry_type obj)
              undo redo Hwf Hpal)
    as (lu & lr & w1 & Hrun & Hwf1 & Hat1 & _ & Hg1 & Hcu & Hcr).
  rewrite (resolve_in_palette _ _ (entry_type_in_palette obj)) in Hat1.
  pose proof (reversible_step undo redo lu lr _ _ _ Hrev Hcu Hcr) as Hrev1.
  destruct (IH _ _ w1 w0 Hwf1 Hrev1) as (u & r & w' & Hrun' & Hwf' & Hrev' & Hat' & Hg').
  exists u, r, w'. rewrite (import_loop_record _ _ _ _ _ _ Hc).
  cbn [negb andb]. unfold mbind, option_bind. cbv beta iota. rewrite Hrun.
  cbv beta iota. cbn [negb]. cbv iota. rewrite Hrun'.
  split; [reflexivity|]. split; [exact Hwf'|]. split; [exact Hrev'|].
  split; [|rewrite Hg', Hg1; reflexivity].
  intros f. rewrite Hat', Hat1. simpl. rewrite Hc. simpl.
  rewrite (Z.eqb_sym (entry_pos obj) f). reflexivity.
Qed.

(** X14. [importFromJson] with [ignoreConflicts = true] on a
    well-formed list and any array: it answers true; a frame that some
    record with a position names then reads the marker the last such
    record describes (absent comment read as "Marker", type outside 0..8
    as 0, and a position that is no whole number fitting an [int] as frame
    0), whatever it held before, and every other frame reads as before;
    with [pushUndo] one transaction is pushed, labelled "Import guides" or
    "Import markers", whose inverse makes every frame read as before the
    import and whose forward action applies the import again; without
    [pushUndo] the undo stack is untouched. *)
Theorem importFromJson_overwrite (d : Doc) (entries : list JsonEntry) :
  wf (world d) ->
  (exists d',
     importFromJson (DocArray entries) true false d = Some (true, d')
     /\ wf (world d')
     /\ undoable d' = undoable d
     /\ forall f, getMarker f (model (world d')) =
          match last_record entries f None with
          | Some c => Some (c, true)
          | None => getMarker f (model (world d))
          end)
  /\
  (exists d' cmd wu wr,
     importFromJson (DocArray entries) true true d = Some (true, d')
     /\ (forall f, getMarker f (model (world d')) =
           match last_record entries f None with
           | Some c => Some (c, true)
           | None => getMarker f (model (world d))
           end)
     /\ undoable d' = cmd :: undoable d
     /\ cmd_text cmd =
          (if m_guide (model (world d)) then "Import guides" else "Import markers")%string
     /\ cmd_undo cmd (world d') = Some (true, wu)
     /\ (forall f, getMarker f (model wu) = getMarker f (model (world d)))
     /\ cmd_redo cmd wu = Some (true, wr)
     /\ (forall f, getMarker f (model wr) = getMarker f (model (world d')))).
Proof.
  intros Hwf.
  destruct (import_loop_overwrite entries Fun_true Fun_true (world d) (world d)
              Hwf (reversible_true _))
    as (u & r & w' & Hrun & Hwf' & Hrev & Hat & Hg).
  destruct (reversible_cycle _ _ _ _ Hrev Hwf')
    as (wu & Hundo & Hwfu & Hsu & wr & Hredo & Hwfr & Hsr).
  assert (Hget : forall f, getMarker f (model w') =
            match last_record entries f None with
            | Some c => Some (c, true)
            | None => getMarker f (model (world d))
            end).
  { intros f. rewrite !getMarker_markerAt by assumption.
    rewrite Hat, last_record_acc.
    destruct (last_record entries f None); reflexivity. }
  unfold importFromJson, importFromJson_u. rewrite Hrun. simpl. split.
  - eexists. split; [reflexivity|]. split; [exact Hwf'|]. split; [reflexivity | exact Hget].
  - do 4 eexists. split; [reflexivity|]. simpl. split; [exact Hget|].
    split; [reflexivity|].
    split; [unfold label, i18n; simpl; rewrite Hg; reflexivity|].
    split; [exact Hundo|].
    split; [apply same_markers_getMarker; assumption|].
    split; [exact Hredo|].
    apply same_markers_getMarker; assumption.
Qed.

Lemma importFromJson_overwrite_witness :
  exists d' cmd wu,
    importFromJson
      (DocArray [EObject (currentMarker (mkCommentedTime 10 "x" 5));
                 ENotObject;
                 EObject (<["type" := JInt 2]>
                            (<["comment" := JString "far"]>
                               (<["pos" := JInt 3000000000]> ∅)));
                 EObject (currentMarker (mkCommentedTime 10 "y" 12))])
      true true sampleDoc = Some (true, d')
    /\ getMarker 10 (model (world d')) = Some (mkCommentedTime 10 "y" 0, true)
    /\ getMarker 20 (model (world d')) = Some (mkCommentedTime 20 "b" 1, true)
    /\ getMarker 0 (model (world d')) = Some (mkCommentedTime 0 "far" 2, true)
    /\ getMarker 3000000000 (model (world d')) = Some (CommentedTime_default, false)
    /\ undoable d' = cmd :: undoable sampleDoc
    /\ cmd_undo cmd (world d') = Some (true, wu)
    /\ getMarker 10 (model wu) = Some (mkCommentedTime 10 "a" 0, true).
Proof.
  assert (Hwf : wf (world sampleDoc)) by (apply wf_check_sound; vm_compute; reflexivity).
  destruct (importFromJson_overwrite sampleDoc
              [EObject (currentMarker (mkCommentedTime 10 "x" 5));
               ENotObject;
               EObject (<["type" := JInt 2]>
                            (<["comment" := JString "far"]>
                               (<["pos" := JInt 3000000000]> ∅)));
               EObject (currentMarker (mkCommentedTime 10 "y" 12))] Hwf)
    as [_ (d' & cmd & wu & wr & Hrun & Hget & Hu & _ & Hundo & Hback & _)].
  exists d', cmd, wu. split; [exact Hrun|].
  split; [rewrite Hget; reflexivity|]. split; [rewrite Hget; reflexivity|].
  split; [rewrite Hget; reflexivity|]. split; [rewrite Hget; reflexivity|].
  split; [exact Hu|]. split; [exact Hundo|]. rewrite Hback. reflexivity.
Defined.

(** ** moveMarkers *)

Lemma moveMarkers_loop_cons mk rest fromPos toPos res undo redo w :
  moveMarkers_loop (mk :: rest) fromPos toPos res undo redo w =
    '(res1, undo1, redo1, w1) ← removeMarker_u (time mk) undo redo w;
    if (res1 : bool) then
      '(res2, undo2, redo2, w2) ←
        addMarker_u (time mk + (toPos - fromPos)) (comment mk) (markerType mk)
          undo1 redo1 w1;
      moveMarkers_loop rest fromPos toPos res2 undo2 redo2 w2
    else Some (res1, undo1, redo1, w1).
Proof. reflexivity. Qed.

Lemma moveMarkers_loop_spec mks fromPos toPos : forall res undo redo w w0,
  wf w -> reversible undo redo w0 w ->
  List.NoDup (map time mks) ->
  (forall mk, In mk mks ->
     (exists c, markerAt (time mk) w = Some c)
     /\ markerAt (time mk + (toPos - fromPos)) w = None
     /\ in_palette (resolve_type w (markerType mk)) = true) ->
  exists b u r w',
    moveMarkers_loop mks fromPos toPos res undo redo w = Some (b, u, r, w')
    /\ (b = match mks with [] => res | _ => true end)
    /\ wf w'
    /\ reversible u r w0 w'
    /\ (forall mk, In mk mks ->
          markerAt (time mk + (toPos - fromPos)) w' =
            Some (mkCommentedTime (time mk + (toPos - fromPos)) (comment mk)
                    (resolve_type w (markerType mk)))
          /\ markerAt (time mk) w' = None)
    /\ (forall f, (forall mk, In mk mks ->
                     f <> time mk /\ f <> time mk + (toPos - fromPos)) ->
          markerAt f w' = markerAt f w).
Proof.
  induction mks as [|mk rest IH]; intros res undo redo w w0 Hwf Hrev Hnd Hall.
  { exists res, undo, redo, w. split; [reflexivity|]. split; [reflexivity|].
    split; [exact Hwf|]. split; [exact Hrev|]. split; [intros ? []|]. reflexivity. }
  inversion Hnd as [|? ? Hnotin Hnd']; subst.
  destruct (Hall mk (or_introl eq_refl)) as ([c Hat] & Hfree & Hpal).
  set (delta := toPos - fromPos) in *.
  destruct (removeMarker_u_carries w (time mk) undo redo c Hwf Hat)
    as (w1 & Hrun1 & Hwf1 & Hat1 & Hd1 & _ & _ & Hcu1 & Hcr1).
  pose proof (reversible_step undo redo _ _ _ _ _ Hrev Hcu1 Hcr1) as Hrev1.
  assert (Hpal1 : in_palette (resolve_type w1 (markerType mk)) = true)
    by (rewrite (resolve_type_default _ _ _ Hd1); exact Hpal).
  match type of Hrev1 with
  | reversible ?u1 ?r1 _ _ =>
      destruct (addMarker_u_carries w1 (time mk + delta) (comment mk) (markerType mk)
                  u1 r1 Hwf1 Hpal1)
        as (lu & lr & w2 & Hrun2 & Hwf2 & Hat2 & Hd2 & _ & Hcu2 & Hcr2);
      pose proof (reversible_step u1 r1 lu lr _ _ _ Hrev1 Hcu2 Hcr2) as Hrev2
  end.
  rewrite (resolve_type_default _ _ _ Hd1) in Hat2.
  assert (Hdelta : time mk + delta <> time mk) by (intros Heq; rewrite Heq in Hfree; congruence).
  assert (Hrest : forall m, In m rest ->
            time m <> time mk /\ time m <> time mk + delta
            /\ time m + delta <> time mk /\ time m + delta <> time mk + delta).
  { intros m Hm. destruct (Hall m (or_intror Hm)) as ([cm Hatm] & Hfreem & _).
    assert (time m <> time mk)
      by (intros Heq; apply Hnotin; rewrite <- Heq; apply in_map; exact Hm).
    repeat split; try lia; intros Heq; [rewrite Heq in Hatm | rewrite Heq in Hfreem];
      congruence. }
  destruct (IH true _ _ w2 w0 Hwf2 Hrev2 Hnd') as (b & u & r & w' & Hrun' & Hb & Hwf' & Hrev'
                                                   & Hin' & Hout').
  { intros m Hm. destruct (Hall m (or_intror Hm)) as ([cm Hatm] & Hfreem & Hpalm).
    destruct (Hrest m Hm) as (H1 & H2 & H3 & H4).
    rewrite !Hat2, !Hat1.
    destruct (Z.eqb_spec (time m) (time mk + delta)); [contradiction|].
    destruct (Z.eqb_spec (time m) (time mk)); [contradiction|].
    destruct (Z.eqb_spec (time m + delta) (time mk + delta)); [contradiction|].
    destruct (Z.eqb_spec (time m + delta) (time mk)); [contradiction|].
    split; [exists cm; exact Hatm|]. split; [exact Hfreem|].
    rewrite (resolve_type_default w w2) by (rewrite Hd2, Hd1; reflexivity). exact Hpalm. }
  exists true, u, r, w'. rewrite moveMarkers_loop_cons, Hrun1.
  unfold mbind, option_bind. cbv beta iota. fold delta. rewrite Hrun2.
  cbv beta iota. rewrite Hrun'.
  split; [f_equal; f_equal; f_equal; f_equal; rewrite Hb; destruct rest; reflexivity|].
  split; [reflexivity|]. split; [exact Hwf'|]. split; [exact Hrev'|].
  assert (Hhead : forall f, (forall m, In m rest -> f <> time m /\ f <> time m + delta) ->
            markerAt f w' =
              if f =? time mk + delta
              then Some (mkCommentedTime (time mk + delta) (comment mk)
                           (resolve_type w (markerType mk)))
              else if f =? time mk then None else markerAt f w).
  { intros f Hf. rewrite (Hout' f Hf), Hat2, Hat1. reflexivity. }
  split.
  - intros m [<-|Hm].
    + rewrite !Hhead.
      * rewrite Z.eqb_refl. destruct (Z.eqb_spec (time mk) (time mk + delta)); [lia|].
        rewrite Z.eqb_refl. split; reflexivity.
      * intros m Hm. destruct (Hrest m Hm) as (H1 & H2 & H3 & H4). split; congruence.
      * intros m Hm. destruct (Hrest m Hm) as (H1 & H2 & H3 & H4). split; congruence.
    + destruct (Hin' m Hm) as [Hnew Hold].
      rewrite (resolve_type_default w w2) in Hnew by (rewrite Hd2, Hd1; reflexivity).
      split; assumption.
  - intros f Hf. rewrite Hhead by (intros m Hm; apply Hf; right; exact Hm).
    destruct (Hf mk (or_introl eq_refl)) as [H1 H2].
    destruct (Z.eqb_spec f (time mk + delta)); [contradiction|].
    destruct (Z.eqb_spec f (time mk)); [contradiction | reflexivity].
Qed.

(** X15. [moveMarkers(markers, fromPos, toPos, undo, redo)] on a
    well-formed list. With an empty list, or when no marker sits at the
    time of the first one, it answers false and changes nothing. When the
    listed markers have distinct times that all hold a marker and the
    shifted times are all free, it answers true; each shifted time then
    reads a marker with the listed comment and type, each original time
    reads none, every other frame reads as before; and where the caller's
    pair undid and redid its transaction, the returned pair does so for
    the transaction extended by the move. *)
Theorem moveMarkers_contract (w : World) (mks : list CommentedTime)
    (fromPos toPos : Z) (undo redo : Fun) (w0 : World) :
  wf w ->
  (moveMarkers [] fromPos toPos undo redo w = Some (false, undo, redo, w))
  /\
  (forall mk rest,
     hasMarker (time mk) (model w) = false ->
     moveMarkers (mk :: rest) fromPos toPos undo redo w = Some (false, undo, redo, w))
  /\
  (mks <> [] ->
   reversible undo redo w0 w ->
   List.NoDup (map time mks) ->
   (forall mk, In mk mks ->
      hasMarker (time mk) (model w) = true
      /\ hasMarker (time mk + (toPos - fromPos)) (model w) = false
      /\ in_palette (resolve_type w (markerType mk)) = true) ->
   exists u r w',
     moveMarkers mks fromPos toPos undo redo w = Some (true, u, r, w')
     /\ wf w'
     /\ reversible u r w0 w'
     /\ (forall mk, In mk mks ->
           getMarker (time mk + (toPos - fromPos)) (model w') =
             Some (mkCommentedTime (time mk + (toPos - fromPos)) (comment mk)
                     (resolve_type w (markerType mk)), true)
           /\ getMarker (time mk) (model w') = Some (CommentedTime_default, false))
     /\ (forall f, (forall mk, In mk mks ->
                      f <> time mk /\ f <> time mk + (toPos - fromPos)) ->
           getMarker f (model w') = getMarker f (model w))).
Proof.
  intros Hwf. split; [reflexivity|]. split.
  - intros mk rest Hno. unfold moveMarkers.
    replace (Z.of_nat (length (mk :: rest)) <=? 0) with false
      by (symmetry; apply Z.leb_gt; simpl length; lia).
    rewrite moveMarkers_loop_cons, (removeMarker_u_none _ _ _ _ (hasMarker_None _ _ Hno)).
    reflexivity.
  - intros Hne Hrev Hnd Hall.
    destruct (moveMarkers_loop_spec mks fromPos toPos false undo redo w w0 Hwf Hrev Hnd)
      as (b & u & r & w' & Hrun & Hb & Hwf' & Hrev' & Hin & Hout).
    { intros mk Hmk. destruct (Hall mk Hmk) as (Hhas & Hfree & Hpal).
      rewrite (markerAt_hasMarker _ _ Hwf) in Hhas. rewrite (markerAt_hasMarker _ _ Hwf) in Hfree.
      split; [destruct (markerAt (time mk) w) as [c|]; [exists c; reflexivity | discriminate]|].
      split; [|exact Hpal].
      destruct (markerAt (time mk + (toPos - fromPos)) w); [discriminate | reflexivity]. }
    exists u, r, w'. unfold moveMarkers.
    replace (Z.of_nat (length mks) <=? 0) with false
      by (symmetry; apply Z.leb_gt; destruct mks; [contradiction | simpl length; lia]).
    rewrite Hrun. destruct mks; [contradiction|]. subst b.
    split; [reflexivity|]. split; [exact Hwf'|]. split; [exact Hrev'|]. split.
    + intros mk Hmk. destruct (Hin mk Hmk) as [Hnew Hold].
      rewrite !getMarker_markerAt by assumption. rewrite Hnew, Hold. split; reflexivity.
    + intros f Hf. rewrite !getMarker_markerAt by assumption. rewrite (Hout f Hf).
      reflexivity.
Qed.

Lemma moveMarkers_contract_witness :
  moveMarkers [mkCommentedTime 11 "q" 0] 0 5 Fun_true Fun_true sampleWorld
    = Some (false, Fun_true, Fun_true, sampleWorld)
  /\ exists u r w',
       moveMarkers [mkCommentedTime 10 "a" 0; mkCommentedTime 20 "b" 1] 0 100
         Fun_true Fun_true sampleWorld = Some (true, u, r, w')
       /\ getMarker 110 (model w') = Some (mkCommentedTime 110 "a" 0, true)
       /\ getMarker 120 (model w') = Some (mkCommentedTime 120 "b" 1, true)
       /\ getMarker 10 (model w') = Some (CommentedTime_default, false).
Proof.
  assert (Hwf : wf sampleWorld) by (apply wf_check_sound; vm_compute; reflexivity).
  destruct (moveMarkers_contract sampleWorld
              [mkCommentedTime 10 "a" 0; mkCommentedTime 20 "b" 1] 0 100
              Fun_true Fun_true sampleWorld Hwf) as (_ & Habsent & Hmove).
  split; [apply Habsent; reflexivity|].
  destruct Hmove as (u & r & w' & Hrun & _ & _ & Hin & _).
  - discriminate.
  - apply reversible_true.
  - simpl. constructor; [intros [H|[]]; discriminate|].
    constructor; [intros []|constructor].
  - intros mk [<-|[<-|[]]]; repeat split; reflexivity.
  - exists u, r, w'. split; [exact Hrun|].
    destruct (Hin (mkCommentedTime 10 "a" 0) (or_introl eq_refl)) as [Ha Hold].
    destruct (Hin (mkCommentedTime 20 "b" 1) (or_intror (or_introl eq_refl))) as [Hb _].
    split; [exact Ha|]. split; [exact Hb | exact Hold].
Defined.

(** ** Moves without undo *)

Lemma moveMarker_run w mid pos c :
  StdMap.find mid (markers w) = Some c -> positions w !! pos = None ->
  moveMarker mid pos w =
    Some (true, put w (StdMap.insert mid (setTime pos c) (markers w))
                      (<[pos := mid]> (delete (time c) (positions w))) (next_id w)).
Proof.
  intros Hf Hp. unfold moveMarker. unfold markers in Hf.
  rewrite (count_find _ _ _ Hf), (hasMarker_false _ _ Hp). simpl.
  unfold getRowfromId. rewrite (count_find _ _ _ Hf). simpl.
  unfold StdMap.at_, subscript. rewrite Hf. reflexivity.
Qed.

(** X16. Moving a marker and moving it back. On a well-formed list,
    [moveMarker] of a stored id to a free frame succeeds without telling any
    snap consumer (their logs and the registrations are untouched), and
    [moveMarker] of the same id back to its former frame then succeeds and
    yields exactly the world before the first move. *)
Theorem moveMarker_round_trip (w : World) (mid pos : Z) (c : CommentedTime) :
  wf w ->
  StdMap.find mid (markers w) = Some c ->
  hasMarker pos (model w) = false ->
  exists w',
    moveMarker mid pos w = Some (true, w')
    /\ snapHeap w' = snapHeap w
    /\ m_registeredSnaps (model w') = m_registeredSnaps (model w)
    /\ moveMarker mid (time c) w' = Some (true, w).
Proof.
  intros Hwf Hf Hno. apply hasMarker_None in Hno.
  pose proof (list_to_pos _ (wf_consistent _ Hwf) _ _ Hf) as Hpc. fold (positions w) in Hpc.
  assert (Hne : time c <> pos) by (intros Heq; rewrite Heq in Hpc; congruence).
  eexists. split; [apply (moveMarker_run _ _ _ _ Hf Hno)|].
  split; [reflexivity|]. split; [reflexivity|].
  rewrite (moveMarker_run _ mid (time c) (setTime pos c)).
  - rewrite put_markers, put_positions. simpl time.
    rewrite insert_insert.
    replace (setTime (time c) (setTime pos c)) with c by (destruct c; reflexivity).
    rewrite (insert_id _ _ _ (wf_sorted _ Hwf) Hf).
    rewrite delete_insert_id
      by (rewrite lookup_delete_ne by congruence; exact Hno).
    rewrite insert_delete_eq, (fin_maps.insert_id _ _ _ Hpc).
    f_equal. f_equal.
    transitivity (put w (markers w) (positions w) (next_id w)); [reflexivity | apply put_id].
  - rewrite put_markers. apply find_insert_eq.
  - rewrite put_positions, lookup_insert_ne by congruence. apply lookup_delete_eq.
Qed.

Lemma moveMarker_round_trip_witness :
  exists w',
    moveMarker 0 30 sampleWorld = Some (true, w')
    /\ snapHeap w' = snapHeap sampleWorld
    /\ moveMarker 0 10 w' = Some (true, sampleWorld).
Proof.
  assert (Hwf : wf sampleWorld) by (apply wf_check_sound; vm_compute; reflexivity).
  destruct (moveMarker_round_trip sampleWorld 0 30 (mkCommentedTime 10 "a" 0)
              Hwf eq_refl eq_refl) as (w' & Hrun & Hsnap & _ & Hback).
  exists w'. split; [exact Hrun|]. split; [exact Hsnap | exact Hback].
Defined.

Lemma moveMarkersWithoutUndo_loop_cons mid rest offset updateView m :
  moveMarkersWithoutUndo_loop (mid :: rest) offset updateView m =
    _ ← Q_ASSERT (0 <? StdMap.count mid (m_markerList m))%nat;
    cur ← StdMap.at_ mid (m_markerList m);
    let m1 :=
      set_lists m
        (StdMap.insert mid (setTime (time cur + offset) (subscript mid (m_markerList m)))
           (m_markerList m))
        (<[time cur + offset := mid]> (delete (time cur) (m_markerPositions m))) in
    _ ← (if updateView then row ← getRowfromId mid m1; Some tt else Some tt);
    moveMarkersWithoutUndo_loop rest offset updateView m1.
Proof. reflexivity. Qed.

Lemma moveMarkersWithoutUndo_loop_spec mids offset updateView : forall w,
  wf w -> List.NoDup mids ->
  (forall mid, In mid mids ->
     exists c, StdMap.find mid (markers w) = Some c
               /\ positions w !! (time c + offset) = None) ->
  exists w',
    moveMarkersWithoutUndo_loop mids offset updateView (model w) = Some (model w')
    /\ wf w'
    /\ next_id w' = next_id w /\ snapHeap w' = snapHeap w
    /\ default_marker_type w' = default_marker_type w
    /\ (forall mid c, In mid mids -> StdMap.find mid (markers w) = Some c ->
          StdMap.find mid (markers w') = Some (setTime (time c + offset) c))
    /\ (forall k, ~ In k mids -> StdMap.find k (markers w') = StdMap.find k (markers w)).
Proof.
  induction mids as [|mid rest IH]; intros w Hwf Hnd Hall.
  { exists w. split; [reflexivity|]. split; [exact Hwf|].
    repeat (split; [reflexivity|]). split; [intros ? ? []|]. reflexivity. }
  inversion Hnd as [|? ? Hnotin Hnd']; subst.
  destruct (Hall mid (or_introl eq_refl)) as (c & Hf & Hfree).
  pose proof (wf_put_move _ _ _ _ Hwf Hf Hfree) as Hwf1.
  set (w1 := put w (StdMap.insert mid (setTime (time c + offset) c) (markers w))
                 (<[time c + offset := mid]> (delete (time c) (positions w)))
                 (next_id w)) in *.
  destruct (IH w1 Hwf1 Hnd') as (w' & Hrun & Hwf' & Hn & Hh & Hd & Hin & Hout).
  { intros k Hk. destruct (Hall k (or_intror Hk)) as (ck & Hfk & Hfreek).
    assert (Hkm : k <> mid) by (intros ->; contradiction).
    exists ck. split.
    - unfold w1. rewrite put_markers, find_insert_ne by congruence. exact Hfk.
    - unfold w1. rewrite put_positions.
      assert (Htk : time ck <> time c).
      { intros Heq. apply Hkm. eapply (wf_unique_position _ _ _ _ _ Hwf); eassumption. }
      rewrite lookup_insert_ne by lia.
      destruct (Z.eq_dec (time ck + offset) (time c)) as [->|Hne].
      + apply lookup_delete_eq.
      + rewrite lookup_delete_ne by congruence. exact Hfreek. }
  exists w'. rewrite moveMarkersWithoutUndo_loop_cons.
  pose proof Hf as Hf0. unfold markers in Hf0.
  rewrite (count_find _ _ _ Hf0). unfold StdMap.at_, subscript. rewrite Hf0.
  unfold mbind, option_bind. cbv beta iota zeta.
  assert (Hrow : (if updateView
                  then match getRowfromId mid (model w1) with
                       | Some _ => Some tt
                       | None => None
                       end
                  else Some tt) = Some tt).
  { destruct updateView; [|reflexivity].
    unfold getRowfromId. unfold w1. simpl.
    rewrite (count_find _ _ _ (find_insert_eq mid _ _)). reflexivity. }
  change (set_lists (model w) _ _) with (model w1).
  unfold Q_ASSERT. cbv iota.
  split.
  { transitivity (moveMarkersWithoutUndo_loop rest offset updateView (model w1));
      [|exact Hrun].
    unfold mbind, option_bind in Hrow. rewrite Hrow. reflexivity. }
  split; [exact Hwf'|]. split; [rewrite Hn; reflexivity|].
  split; [rewrite Hh; reflexivity|]. split; [rewrite Hd; reflexivity|]. split.
  - intros k ck [<-|Hk] Hfk.
    + assert (ck = c) by congruence. subst ck.
      rewrite (Hout mid Hnotin). unfold w1. rewrite put_markers. apply find_insert_eq.
    + assert (Hkm : k <> mid) by (intros ->; contradiction).
      apply (Hin k ck Hk). unfold w1. rewrite put_markers, find_insert_ne by congruence.
      exact Hfk.
  - intros k Hk. rewrite Hout by (intros Hin'; apply Hk; right; exact Hin').
    unfold w1. rewrite put_markers. apply find_insert_ne.
    intros <-. apply Hk. left. reflexivity.
Qed.

(** X17. [moveMarkersWithoutUndo(ids, offset, updateView)] on a
    well-formed list. With no ids it does nothing. When the ids are
    distinct, all stored, and the frame each marker is shifted to held no
    marker before the call, it returns normally and the list stays well
    formed: each listed marker keeps its id, comment and type and has its
    time advanced by [offset], every other stored marker is untouched, and
    neither the id counter nor any snap consumer is touched. *)
Theorem moveMarkersWithoutUndo_safe (w : World) (mids : list Z) (offset : Z)
    (updateView : bool) :
  wf w ->
  moveMarkersWithoutUndo [] offset updateView w = Some w
  /\
  (List.NoDup mids ->
   (forall mid, In mid mids ->
      exists c, StdMap.find mid (markers w) = Some c
                /\ hasMarker (time c + offset) (model w) = false) ->
   exists w',
     moveMarkersWithoutUndo mids offset updateView w = Some w'
     /\ wf w'
     /\ next_id w' = next_id w /\ snapHeap w' = snapHeap w
     /\ (forall mid c, In mid mids -> StdMap.find mid (markers w) = Some c ->
           StdMap.find mid (markers w') = Some (setTime (time c + offset) c)
           /\ getIdFromPos (time c + offset) (model w') = mid)
     /\ (forall k, ~ In k mids -> StdMap.find k (markers w') = StdMap.find k (markers w))).
Proof.
  intros Hwf. split; [reflexivity|].
  intros Hnd Hall.
  destruct (moveMarkersWithoutUndo_loop_spec mids offset updateView w Hwf Hnd)
    as (w' & Hrun & Hwf' & Hn & Hh & Hd & Hin & Hout).
  { intros mid Hmid. destruct (Hall mid Hmid) as (c & Hf & Hno).
    exists c. split; [exact Hf | apply hasMarker_None, Hno]. }
  assert (Hw : with_model w (model w') = w').
  { unfold with_model. rewrite <- Hn, <- Hh, <- Hd. destruct w'; reflexivity. }
  exists w'. unfold moveMarkersWithoutUndo.
  destruct (Z.of_nat (length mids) <=? 0) eqn:Hlen.
  - apply Z.leb_le in Hlen. destruct mids; [|simpl length in Hlen; lia].
    simpl in Hrun. injection Hrun as Hm.
    assert (w' = w) by (rewrite <- Hw, <- Hm; destruct w; reflexivity). subst w'.
    split; [reflexivity|]. split; [exact Hwf|]. split; [reflexivity|].
    split; [reflexivity|]. split; [intros ? ? []|]. reflexivity.
  - rewrite Hrun. simpl. rewrite Hw.
    split; [reflexivity|]. split; [exact Hwf'|]. split; [exact Hn|]. split; [exact Hh|].
    split; [|exact Hout].
    intros mid c Hmid Hf. pose proof (Hin mid c Hmid Hf) as Hf'.
    split; [exact Hf'|].
    pose proof (list_to_pos _ (wf_consistent _ Hwf') _ _ Hf') as Hp. simpl in Hp.
    unfold getIdFromPos. rewrite Hp. reflexivity.
Qed.

Lemma moveMarkersWithoutUndo_safe_witness :
  exists w',
    moveMarkersWithoutUndo [0; 1] 100 true sampleWorld = Some w'
    /\ wf w'
    /\ StdMap.find 0 (markers w') = Some (mkCommentedTime 110 "a" 0)
    /\ getIdFromPos 120 (model w') = 1.
Proof.
  assert (Hwf : wf sampleWorld) by (apply wf_check_sound; vm_compute; reflexivity).
  destruct (moveMarkersWithoutUndo_safe sampleWorld [0; 1] 100 true Hwf) as [_ Hmove].
  destruct Hmove as (w' & Hrun & Hwf' & _ & _ & Hin & _).
  { constructor; [intros [H|[]]; discriminate|].
    constructor; [intros []|constructor]. }
  { intros mid [<-|[<-|[]]].
    - exists (mkCommentedTime 10 "a" 0). split; reflexivity.
    - exists (mkCommentedTime 20 "b" 1). split; reflexivity. }
  exists w'. split; [exact Hrun|]. split; [exact Hwf'|].
  destruct (Hin 0 (mkCommentedTime 10 "a" 0) (or_introl eq_refl) eq_refl) as [H0 _].
  destruct (Hin 1 (mkCommentedTime 20 "b" 1) (or_intror (or_introl eq_refl)) eq_refl)
    as [_ H1].
  split; [exact H0 | exact H1].
Defined.

(** ** Registering a snap consumer *)

(** X18. [registerSnapModel]: an expired consumer stops on the
    assertion; a live one is appended to the registrations and receives
    [addPoint] for every frame that holds a marker, in ascending order,
    while the list and every other consumer are untouched; from then on
    each [addSnapPoint] and [removeSnapPoint] of the list reaches it once
    more than before the registration. *)
Theorem registerSnapModel_spec (w : World) (h : nat) :
  (snapHeap w !! h = None -> registerSnapModel h w = None)
  /\
  (forall log,
     snapHeap w !! h = Some log ->
     exists w',
       registerSnapModel h w = Some w'
       /\ markers w' = markers w /\ positions w' = positions w
       /\ m_registeredSnaps (model w') = m_registeredSnaps (model w) ++ [h]
       /\ snapHeap w' !! h = Some (log ++ map AddPoint (getSnapPoints (model w)))
       /\ (forall h', h' <> h -> snapHeap w' !! h' = snapHeap w !! h')
       /\ (forall pos,
             snapHeap (addSnapPoint pos w') !! h =
               Some (log ++ map AddPoint (getSnapPoints (model w))
                     ++ replicate
                          (S (count_occ Nat.eq_dec (m_registeredSnaps (model w)) h))
                          (AddPoint pos))
             /\ snapHeap (removeSnapPoint pos w') !! h =
                  Some (log ++ map AddPoint (getSnapPoints (model w))
                        ++ replicate
                             (S (count_occ Nat.eq_dec (m_registeredSnaps (model w)) h))
                             (RemovePoint pos)))).
Proof.
  split.
  - intros Hdead. unfold registerSnapModel. rewrite Hdead. reflexivity.
  - intros log Hlive. unfold registerSnapModel. rewrite Hlive.
    eexists. split; [reflexivity|].
    split; [reflexivity|]. split; [reflexivity|]. split; [reflexivity|].
    assert (Hseed : map (fun e : Z * Z => AddPoint (fst e))
                      (QMap_entries (m_markerPositions (model w)))
                    = map AddPoint (getSnapPoints (model w))).
    { unfold getSnapPoints. rewrite map_map. reflexivity. }
    assert (Hcount : count_occ Nat.eq_dec (m_registeredSnaps (model w) ++ [h]) h
                     = S (count_occ Nat.eq_dec (m_registeredSnaps (model w)) h)).
    { rewrite count_occ_app. simpl. destruct (Nat.eq_dec h h); [lia | contradiction]. }
    split; [simpl; rewrite lookup_insert_eq, Hseed; reflexivity|].
    split; [intros h' Hne; simpl; apply lookup_insert_ne; congruence|].
    intros pos. unfold addSnapPoint, removeSnapPoint. rewrite !snapNotify_heap. simpl.
    rewrite lookup_insert_eq, Hseed, Hcount. simpl.
    rewrite <- !app_assoc. split; reflexivity.
Qed.

Lemma registerSnapModel_spec_witness :
  registerSnapModel 1 sampleWorld = None
  /\ exists w',
       registerSnapModel 0 sampleWorld = Some w'
       /\ snapHeap w' !! 0%nat
          = Some [AddPoint 10; AddPoint 20; AddPoint 10; AddPoint 20]
       /\ snapHeap (removeSnapPoint 10 w') !! 0%nat
          = Some [AddPoint 10; AddPoint 20; AddPoint 10; AddPoint 20;
                  RemovePoint 10; RemovePoint 10].
Proof.
  destruct (registerSnapModel_spec sampleWorld 1) as [Hdead _].
  destruct (registerSnapModel_spec sampleWorld 0) as [_ Hlive].
  split; [apply Hdead; reflexivity|].
  destruct (Hlive [AddPoint 10; AddPoint 20] eq_refl)
    as (w' & Hrun & _ & _ & _ & Hseed & _ & Hlater).
  exists w'. split; [exact Hrun|]. split; [rewrite Hseed; reflexivity|].
  destruct (Hlater 10) as [_ Hrem]. rewrite Hrem. reflexivity.
Defined.

(** ** The outcomes of editMarker *)

(** X19. On a well-formed list [editMarker] never answers false, so
    its rollback branch is never taken: it stops on an assertion exactly
    when no marker sits at the old time, or when the edit changes something
    and the type it works with lies outside the palette (the marker at the
    old time is then already removed); in every other case it answers
    true. *)
Theorem editMarker_outcomes (d : Doc) (oldPos pos : Z) (cmt : string) (ty : Z) :
  wf (world d) ->
  (forall b d', editMarker oldPos pos cmt ty d = Some (b, d') -> b = true)
  /\
  (editMarker oldPos pos cmt ty d = None <->
   hasMarker oldPos (model (world d)) = false
   \/ exists cur,
        marker oldPos (model (world d)) = Some cur
        /\ identical_edit cur oldPos pos cmt ty = false
        /\ in_palette (effective_type cur ty) = false).
Proof.
  intros Hwf.
  destruct (positions (world d) !! oldPos) as [mid|] eqn:Hp.
  - destruct (wf_marker_at _ _ _ Hwf Hp) as (cur & Hf & Ht & Hmid).
    pose proof (marker_run _ _ _ _ Hp Hmid Hf) as Hmk.
    pose proof (hasMarker_true _ _ _ Hp) as Hhas.
    destruct (in_palette (effective_type cur ty)) eqn:Hty.
    + pose proof (editMarker_run d oldPos pos cmt ty mid cur Hwf Hp Hf Hty) as Hrun.
      destruct (identical_edit cur oldPos pos cmt ty) eqn:Hid.
      * rewrite Hrun. split; [intros b d' [= <- _]; reflexivity|].
        split; [discriminate|].
        intros [Hno|(c & Hc & Hid' & Hty')]; [congruence|].
        assert (c = cur) by congruence. subst c. congruence.
      * destruct Hrun as (d1 & undo & redo & Hrun & _). rewrite Hrun.
        split; [intros b d' [= <- _]; reflexivity|].
        split; [discriminate|].
        intros [Hno|(c & Hc & Hid' & Hty')]; [congruence|].
        assert (c = cur) by congruence. subst c. congruence.
    + assert (Hid : identical_edit cur oldPos pos cmt ty = false).
      { unfold identical_edit.
        destruct (Z.eqb_spec (markerType cur) (effective_type cur ty)) as [Heq|_];
          [|apply andb_false_r].
        rewrite <- Heq, (wf_types _ Hwf _ _ Hf) in Hty. discriminate. }
      assert (Hnone : editMarker oldPos pos cmt ty d = None).
      { unfold editMarker. rewrite Hhas, Hmk. simpl.
        fold (effective_comment cur cmt). fold (effective_type cur ty).
        fold (identical_edit cur oldPos pos cmt ty). rewrite Hid.
        destruct (removeMarker_u_spec _ _ Fun_true Fun_true _ _ Hwf Hp Hf)
          as (w1 & Hrun1 & _ & _ & Hd1 & _).
        rewrite Hrun1. simpl.
        unfold addMarker_u.
        assert (Hres : (if effective_type cur ty =? -1 then default_marker_type w1
                        else effective_type cur ty) = effective_type cur ty).
        { destruct (Z.eqb_spec (effective_type cur ty) (-1)) as [Heq|_]; [|reflexivity].
          exfalso. unfold effective_type in Heq.
          destruct (Z.eqb_spec ty (-1)) as [_|Hne]; [|contradiction].
          pose proof (wf_types _ Hwf _ _ Hf) as Hcur. rewrite Heq in Hcur. discriminate. }
        rewrite Hres, Hty. reflexivity. }
      rewrite Hnone. split; [discriminate|].
      split; [|reflexivity]. intros _. right. exists cur. auto.
  - pose proof (hasMarker_false _ _ Hp) as Hno.
    assert (Hnone : editMarker oldPos pos cmt ty d = None)
      by (unfold editMarker; rewrite Hno; reflexivity).
    rewrite Hnone. split; [discriminate|]. split; [auto | reflexivity].
Qed.

Lemma editMarker_outcomes_witness :
  editMarker 11 12 "c" 0 sampleDoc = None
  /\ editMarker 10 12 "c" 9 sampleDoc = None
  /\ fst <$> editMarker 10 20 "c" 8 sampleDoc = Some true.
Proof.
  assert (Hwf : wf (world sampleDoc)) by (apply wf_check_sound; vm_compute; reflexivity).
  split; [|split].
  - apply (editMarker_outcomes sampleDoc 11 12 "c" 0 Hwf). left. reflexivity.
  - apply (editMarker_outcomes sampleDoc 10 12 "c" 9 Hwf). right.
    exists (mkCommentedTime 10 "a" 0). repeat split; reflexivity.
  - destruct (editMarker_outcomes sampleDoc 10 20 "c" 8 Hwf) as [Htrue Hnone].
    destruct (editMarker 10 20 "c" 8 sampleDoc) as [[b d']|] eqn:Hrun.
    + rewrite (Htrue b d' eq_refl). reflexivity.
    + exfalso. destruct (proj1 Hnone eq_refl) as [Hno|(cur & Hc & _ & Hty)].
      * discriminate.
      * vm_compute in Hc. injection Hc as <-. discriminate.
Defined.
